(** * mongo-transfert: collection transfer engine

    A shallow embedding of the transfer engine of [mongotransfert]:

    - [getCollectionIndexes] and [transferCollection]
      (package [activities], the utilities file with the overwrite flag),
    - [TransferCollection], [GetCollections], [ValidateConnections]
      (pkg/activities/transfer_activities.go),
    - the worker pool and the aggregation of [runTransfer]
      (cmd/mongotransfert/main.go),
    - [parseCommaSeparatedList], [splitCommas], [printSummary] and [main]
      (cmd/mongotransfert/main.go).

    The two MongoDB databases are modelled as finite maps from collection
    names to collections.  Every call into the driver may fail; which calls
    fail, and in which order the Go runtime walks a [bson.M], is decided by
    an environment record [Env] that the functions take as an argument.
    Every driver call of a transfer is appended to an operation log, so
    that ordering properties of the protocol can be stated on the log.

    What the model assumes about the database and the driver:
    - the source and the destination are two different databases; [main]
      also accepts the same database for both sides, and what the tool
      does then is outside this model;
    - the source is not written to while it is read: the count is the
      number of documents the cursor would deliver;
    - a collection that does not exist reads as an empty one;
    - a failing [Drop] or [CreateMany] leaves the destination unchanged; a
      failing unordered [InsertMany] stores the documents the server did
      not reject;
    - Go's [int] has 64 bits;
    - in the worker pool a transfer is one atomic move;
    - logging, timeouts and the release of connections and cursors are
      left out. *)

From stdpp Require Import gmap strings list fin_maps pretty.
From Stdlib Require Import ZArith Lia Ascii.

#[local] Set Warnings "-register-all".
#[local] Open Scope string_scope.
#[local] Open Scope list_scope.
#[local] Open Scope Z_scope.

(** ** Go machine integers *)

(** Go's [int] is a 64-bit two's complement integer on the platforms the
    tool is built for; additions wrap around. *)
Module GoInt.

Definition min_int : Z := - 2 ^ 63.
Definition max_int : Z := 2 ^ 63 - 1.

Definition in_range (z : Z) : Prop := min_int <= z <= max_int.

Definition wrap (z : Z) : Z := (z + 2 ^ 63) mod 2 ^ 64 - 2 ^ 63.

Definition add (a b : Z) : Z := wrap (a + b).

(** [len(s)] of a slice, as an [int]. *)
Definition len {A} (l : list A) : Z := Z.of_nat (length l).

End GoInt.

(** ** BSON values *)

(** A BSON value as it is stored and as a cursor delivers it: documents are
    ordered sequences of fields. *)
Inductive bval : Type :=
  | BBool (b : bool)
  | BInt32 (z : Z)
  | BInt64 (z : Z)
  | BString (s : string)
  | BDoc (fields : list (string * bval)).

(** A raw document ([bson.Raw]): its fields in stored order. *)
Abbreviation bdoc := (list (string * bval)).

(** The Go value obtained by decoding into a [bson.M]: embedded documents
    become [bson.M] as well, that is, Go maps. *)
Inductive gval : Type :=
  | GBool (b : bool)
  | GInt32 (z : Z)
  | GInt64 (z : Z)
  | GString (s : string)
  | GM (m : gmap string gval).

(** [bson.M] *)
Abbreviation bsonM := (gmap string gval).

(** [bson.D]: a slice of [bson.E{Key, Value}]. *)
Abbreviation bsonD := (list (string * gval)).

(** [cursor.Decode(&m)] with [m] a [bson.M].  A later field with the same
    name overwrites an earlier one, as assignment into a Go map does. *)
Fixpoint decode (v : bval) : gval :=
  match v with
  | BBool b => GBool b
  | BInt32 z => GInt32 z
  | BInt64 z => GInt64 z
  | BString s => GString s
  | BDoc fields =>
      GM ((fix fill (fs : bdoc) (m : bsonM) : bsonM :=
             match fs with
             | [] => m
             | (k, x) :: fs' => fill fs' (<[k := decode x]> m)
             end) fields ∅)
  end.

(** The decoding of a document, field by field, into a map. *)
Fixpoint fill_map (fs : bdoc) (m : bsonM) : bsonM :=
  match fs with
  | [] => m
  | (k, x) :: fs' => fill_map fs' (<[k := decode x]> m)
  end.

(** [cursor.Decode(&m)] at the top level: the [bson.M] of a document. *)
Definition decodeM (d : bdoc) : bsonM := fill_map d ∅.

(** ** Errors *)

(** An error value handed back by the driver; only its text is known. *)
Definition DriverError := string.

(** Go [error] values as the tool builds them. *)
Inductive Error : Type :=
  | ErrDriver (e : DriverError)
  | ErrMsg (msg : string)                 (* fmt.Errorf(msg) *)
  | ErrWrap (msg : string) (cause : Error). (* fmt.Errorf(msg + ": %w", cause) *)

(** [err.Error()] *)
Fixpoint Error_string (e : Error) : string :=
  match e with
  | ErrDriver m => m
  | ErrMsg m => m
  | ErrWrap m cause => m +:+ ": " +:+ Error_string cause
  end.

(** ** Index models *)

(** [options.IndexOptions], restricted to the fields the tool sets; a field
    that was never set is [None] (a nil pointer in Go). *)
Record IndexOptions : Type := mkIndexOptions {
  Background : option bool;
  ExpireAfterSeconds : option Z;
  Sparse : option bool;
  Unique : option bool;
  PartialFilterExpression : option gval;
}.

(** [options.Index()] *)
Definition options_Index : IndexOptions :=
  {| Background := None; ExpireAfterSeconds := None; Sparse := None;
     Unique := None; PartialFilterExpression := None |}.

Definition SetBackground (b : bool) (o : IndexOptions) : IndexOptions :=
  {| Background := Some b; ExpireAfterSeconds := ExpireAfterSeconds o;
     Sparse := Sparse o; Unique := Unique o;
     PartialFilterExpression := PartialFilterExpression o |}.

Definition SetExpireAfterSeconds (s : Z) (o : IndexOptions) : IndexOptions :=
  {| Background := Background o; ExpireAfterSeconds := Some s;
     Sparse := Sparse o; Unique := Unique o;
     PartialFilterExpression := PartialFilterExpression o |}.

Definition SetSparse (b : bool) (o : IndexOptions) : IndexOptions :=
  {| Background := Background o; ExpireAfterSeconds := ExpireAfterSeconds o;
     Sparse := Some b; Unique := Unique o;
     PartialFilterExpression := PartialFilterExpression o |}.

Definition SetUnique (b : bool) (o : IndexOptions) : IndexOptions :=
  {| Background := Background o; ExpireAfterSeconds := ExpireAfterSeconds o;
     Sparse := Sparse o; Unique := Some b;
     PartialFilterExpression := PartialFilterExpression o |}.

Definition SetPartialFilterExpression (p : gval) (o : IndexOptions) : IndexOptions :=
  {| Background := Background o; ExpireAfterSeconds := ExpireAfterSeconds o;
     Sparse := Sparse o; Unique := Unique o;
     PartialFilterExpression := Some p |}.

(** [mongo.IndexModel]; [Options] is a pointer and may be nil. *)
Record IndexModel : Type := mkIndexModel {
  Keys : bsonD;
  Options : option IndexOptions;
}.

(** ** Databases *)

(** A collection holds documents and index descriptions.  The source side
    holds what its cursors deliver (raw documents, raw index descriptions
    as [listIndexes] returns them); the destination side holds what the
    tool asked the driver to store (decoded documents, index models). *)
Record Collection (D I : Type) : Type := mkCollection {
  coll_docs : list D;
  coll_indexes : list I;
}.
Arguments mkCollection {D I} _ _.
Arguments coll_docs {D I} _.
Arguments coll_indexes {D I} _.

Abbreviation SourceData := (gmap string (Collection bdoc bdoc)).
Abbreviation DestData := (gmap string (Collection bsonM IndexModel)).

(** One call into the driver. *)
Inductive Event : Type :=
  | EvListCollectionNames (coll : string)
  | EvListIndexes (coll : string)
  | EvDrop (coll : string)
  | EvCreateMany (coll : string) (indexes : list IndexModel)
  | EvCountDocuments (coll : string)
  | EvFind (coll : string)
  | EvInsertMany (coll : string) (size : nat) (ok : bool).

(** Events that change the destination. *)
Definition is_mutation (e : Event) : bool :=
  match e with
  | EvDrop _ | EvCreateMany _ _ | EvInsertMany _ _ _ => true
  | _ => false
  end.

Definition is_insert (e : Event) : bool :=
  match e with EvInsertMany _ _ _ => true | _ => false end.

Definition is_drop (e : Event) : bool :=
  match e with EvDrop _ => true | _ => false end.

Record World : Type := mkWorld {
  source : SourceData;
  dest : DestData;
  oplog : list Event;   (* oldest call first *)
}.

Definition emit (e : Event) (w : World) : World :=
  {| source := source w; dest := dest w; oplog := oplog w ++ [e] |}.

Definition set_dest (d : DestData) (w : World) : World :=
  {| source := source w; dest := d; oplog := oplog w |}.

(** ** The environment of one collection transfer *)

(** How a connection attempt ends ([mongo.Connect], then [client.Ping]). *)
Inductive ConnFault : Type :=
  | ConnOk
  | ConnectFails (e : DriverError)
  | PingFails (e : DriverError).

(** A failing [InsertMany]: the driver's error, and which positions of the
    batch the server rejected.  The insert is unordered, so the positions
    that were not rejected are stored nonetheless. *)
Record InsertFault : Type := mkInsertFault {
  insert_error : DriverError;
  rejected : nat -> bool;
}.

Record Env : Type := mkEnv {
  connect_source : ConnFault;
  connect_dest : ConnFault;
  (* destination: ListCollectionNames *)
  list_collections_fault : option DriverError;
  (* source: Indexes().List, Decode of the i-th description, cursor.Err *)
  list_indexes_fault : option DriverError;
  index_decode_fault : nat -> option DriverError;
  index_cursor_fault : option (nat * DriverError);
  (* destination: Drop, Indexes().CreateMany *)
  drop_fault : option DriverError;
  create_indexes_fault : option DriverError;
  (* source: CountDocuments, Find, Decode of the i-th document, cursor.Err *)
  count_fault : option DriverError;
  find_fault : option DriverError;
  doc_decode_fault : nat -> option DriverError;
  doc_cursor_fault : option (nat * DriverError);
  (* destination: the k-th InsertMany of this transfer (from 0) *)
  insert_fault : nat -> option InsertFault;
  (* the order in which a [range] statement walks a Go map; the language
     leaves it open, so the properties hold for any function here *)
  map_range : bsonM -> bsonD;
}.

(** No driver call fails. *)
Definition no_faults : Env :=
  {| connect_source := ConnOk; connect_dest := ConnOk;
     list_collections_fault := None;
     list_indexes_fault := None;
     index_decode_fault := fun _ => None;
     index_cursor_fault := None;
     drop_fault := None;
     create_indexes_fault := None;
     count_fault := None;
     find_fault := None;
     doc_decode_fault := fun _ => None;
     doc_cursor_fault := None;
     insert_fault := fun _ => None;
     map_range := map_to_list |}.

(** What a cursor over [items] delivers before [cursor.Next] returns false,
    and the error [cursor.Err] then reports.  A fault [(n, e)] strikes after
    [n] items have been delivered: when the item at position [n] is
    fetched or, with [n] the number of items, when the cursor looks for
    more after the last one.  A fault beyond that never strikes. *)
Definition cursor_run {A} (fault : option (nat * DriverError)) (items : list A)
  : list A * option DriverError :=
  match fault with
  | Some (n, e) =>
      if (n <=? length items)%nat then (take n items, Some e) else (items, None)
  | None => (items, None)
  end.

(** ** connectToMongoDB *)

Definition connectToMongoDB (c : ConnFault) : option Error :=
  match c with
  | ConnectFails e => Some (ErrWrap "failed to connect to MongoDB" (ErrDriver e))
  | PingFails e => Some (ErrWrap "failed to ping MongoDB" (ErrDriver e))
  | ConnOk => None
  end.

(** ** Driver calls

    Each call appends itself to the operation log.  A failing [Drop] or
    [CreateMany] leaves the destination as it was. *)

Definition empty_source : Collection bdoc bdoc := mkCollection [] [].
Definition empty_dest : Collection bsonM IndexModel := mkCollection [] [].

(** The source collection behind a handle; the driver treats a collection
    that does not exist as an empty one (no index, no document). *)
Definition source_collection (coll : string) (w : World) : Collection bdoc bdoc :=
  default empty_source (source w !! coll).

(** [db.ListCollectionNames(ctx, bson.M{"name": coll})] on the destination. *)
Definition ListCollectionNames (env : Env) (coll : string) (w : World)
  : (DriverError + list string) * World :=
  let w := emit (EvListCollectionNames coll) w in
  match list_collections_fault env with
  | Some e => (inl e, w)
  | None =>
      (inr (match dest w !! coll with Some _ => [coll] | None => [] end), w)
  end.

(** [collection.Drop(ctx)] on the destination. *)
Definition Drop (env : Env) (coll : string) (w : World)
  : option DriverError * World :=
  let w := emit (EvDrop coll) w in
  match drop_fault env with
  | Some e => (Some e, w)
  | None => (None, set_dest (delete coll (dest w)) w)
  end.

(** [collection.Indexes().CreateMany(ctx, indexes)] on the destination;
    creating an index creates the collection when it is missing. *)
Definition CreateMany (env : Env) (coll : string) (indexes : list IndexModel)
    (w : World) : option DriverError * World :=
  let w := emit (EvCreateMany coll indexes) w in
  match create_indexes_fault env with
  | Some e => (Some e, w)
  | None =>
      let c := default empty_dest (dest w !! coll) in
      (None,
       set_dest (<[coll := mkCollection (coll_docs c) (coll_indexes c ++ indexes)]>
                   (dest w)) w)
  end.

(** [collection.CountDocuments(ctx, bson.D{})] on the source (an [int64]). *)
Definition CountDocuments (env : Env) (coll : string) (w : World)
  : (DriverError + Z) * World :=
  let w := emit (EvCountDocuments coll) w in
  match count_fault env with
  | Some e => (inl e, w)
  | None => (inr (GoInt.len (coll_docs (source_collection coll w))), w)
  end.

(** [collection.Find(ctx, bson.D{}, findOptions)] on the source: the
    documents the cursor will deliver and the error it ends with. *)
Definition Find (env : Env) (coll : string) (w : World)
  : (DriverError + list bdoc * option DriverError) * World :=
  let w := emit (EvFind coll) w in
  match find_fault env with
  | Some e => (inl e, w)
  | None =>
      (inr (cursor_run (doc_cursor_fault env) (coll_docs (source_collection coll w))), w)
  end.

(** The documents of [batch] at the positions from [i] on that [rej] does
    not reject. *)
Fixpoint accepted (rej : nat -> bool) (i : nat) (batch : list bsonM) : list bsonM :=
  match batch with
  | [] => []
  | d :: ds => if rej i then accepted rej (S i) ds else d :: accepted rej (S i) ds
  end.

(** Appending documents to a destination collection creates it when it is
    missing; storing nothing changes nothing. *)
Definition store (coll : string) (docs : list bsonM) (d : DestData) : DestData :=
  match docs with
  | [] => d
  | _ =>
      let c := default empty_dest (d !! coll) in
      <[coll := mkCollection (coll_docs c ++ docs) (coll_indexes c)]> d
  end.

(** [collection.InsertMany(ctx, batch, SetOrdered(false))] on the
    destination; [k] counts the calls of this transfer. *)
Definition InsertMany (env : Env) (coll : string) (k : nat) (batch : list bsonM)
    (w : World) : option DriverError * World :=
  match insert_fault env k with
  | Some f =>
      let w := emit (EvInsertMany coll (length batch) false) w in
      (Some (insert_error f),
       set_dest (store coll (accepted (rejected f) 0 batch) (dest w)) w)
  | None =>
      let w := emit (EvInsertMany coll (length batch) true) w in
      (None, set_dest (store coll batch (dest w)) w)
  end.

(** ** getCollectionIndexes *)

(** The body of [for cursor.Next(ctx) { ... }]; [i] is the position of the
    next description in the cursor, [indexes] the slice built so far. *)
Fixpoint index_loop (env : Env) (i : nat) (items : list bdoc)
    (indexes : list IndexModel) : Error + list IndexModel :=
  match items with
  | [] => inr indexes
  | raw :: rest =>
      match index_decode_fault env i with
      | Some e => inl (ErrWrap "failed to decode index" (ErrDriver e))
      | None =>
          let index := decodeM raw in
          (* Skip _id_ index as it's created automatically *)
          if match index !! "name" with
             | Some (GString s) => String.eqb s "_id_"
             | _ => false
             end
          then index_loop env (S i) rest indexes
          else
            (* Convert key from bson.M to bson.D *)
            match index !! "key" with
            | Some (GM keyM) =>
                let keyD := map_range env keyM in
                let options := options_Index in
                let options :=
                  match index !! "unique" with
                  | Some (GBool unique) => SetUnique unique options
                  | _ => options
                  end in
                let options :=
                  match index !! "sparse" with
                  | Some (GBool sparse) => SetSparse sparse options
                  | _ => options
                  end in
                let options :=
                  match index !! "expireAfterSeconds" with
                  | Some (GInt32 expireAfterSeconds) =>
                      SetExpireAfterSeconds expireAfterSeconds options
                  | _ => options
                  end in
                let options :=
                  match index !! "partialFilterExpression" with
                  | Some partialFilterExpression =>
                      SetPartialFilterExpression partialFilterExpression options
                  | None => options
                  end in
                index_loop env (S i) rest
                  (indexes ++ [{| Keys := keyD; Options := Some options |}])
            | _ => inl (ErrMsg "invalid index key format")
            end
      end
  end.

Definition getCollectionIndexes (env : Env) (collection : string) (w : World)
  : (Error + list IndexModel) * World :=
  let w := emit (EvListIndexes collection) w in
  match list_indexes_fault env with
  | Some e => (inl (ErrWrap "failed to list indexes" (ErrDriver e)), w)
  | None =>
      let '(items, cursor_err) :=
        cursor_run (index_cursor_fault env)
                   (coll_indexes (source_collection collection w)) in
      match index_loop env 0 items [] with
      | inl e => (inl e, w)
      | inr indexes =>
          match cursor_err with
          | Some e => (inl (ErrWrap "cursor error" (ErrDriver e)), w)
          | None => (inr indexes, w)
          end
      end
  end.

(** ** transferCollection *)

(** What the copy loop carries from one iteration to the next. *)
Record CopyState : Type := mkCopyState {
  st_total : Z;          (* totalTransferred *)
  st_batch : list bsonM; (* batch *)
  st_calls : nat;        (* InsertMany calls issued so far *)
}.

(** [for cursor.Next(ctx) { ... }] over the documents the cursor delivers;
    [i] is the position of the next document.  The left result is a
    [return] from inside the loop, the right one is falling out of it. *)
Fixpoint copy_loop (env : Env) (coll : string) (batchSize : Z) (i : nat)
    (docs : list bdoc) (st : CopyState) (w : World)
  : (Z * option Error) * World + CopyState * World :=
  match docs with
  | [] => inr (st, w)
  | raw :: rest =>
      match doc_decode_fault env i with
      | Some e =>
          inl ((st_total st,
                Some (ErrWrap "failed to decode document" (ErrDriver e))), w)
      | None =>
          let document := decodeM raw in
          let batch := st_batch st ++ [document] in
          (* Insert batch when it reaches the batch size *)
          if batchSize <=? GoInt.len batch then
            let '(err, w) := InsertMany env coll (st_calls st) batch w in
            match err with
            | Some e =>
                inl ((st_total st,
                      Some (ErrWrap "failed to insert batch" (ErrDriver e))), w)
            | None =>
                copy_loop env coll batchSize (S i) rest
                  {| st_total := GoInt.add (st_total st) (GoInt.len batch);
                     st_batch := [];
                     st_calls := S (st_calls st) |} w
            end
          else
            copy_loop env coll batchSize (S i) rest
              {| st_total := st_total st;
                 st_batch := batch;
                 st_calls := st_calls st |} w
      end
  end.

(** The body of the loop that prepares the fetched models for creation. *)
Definition in_background (m : IndexModel) : IndexModel :=
  let options := match Options m with
                 | None => options_Index
                 | Some o => o
                 end in
  {| Keys := Keys m; Options := Some (SetBackground true options) |}.

Definition conflict_error (collectionName : string) : Error :=
  ErrMsg ("destination collection " +:+ collectionName
          +:+ " already exists and overwrite is not enabled").

(** [transferCollection]: the returned count and error, and the world the
    calls leave behind.  The two clients and database names are the two
    sides of the [World]; logging, the progress lines of the loop included,
    is not modelled. *)
Definition transferCollection (env : Env) (collectionName : string)
    (batchSize : Z) (overwriteDestination : bool) (w : World)
  : (Z * option Error) * World :=
  let batchSize := if batchSize <=? 0 then 100 else batchSize in
  (* Check if destination collection exists *)
  let '(r, w) := ListCollectionNames env collectionName w in
  match r with
  | inl e =>
      ((0, Some (ErrWrap "failed to check destination collection" (ErrDriver e))), w)
  | inr collections =>
  let collectionExists := (0 <? length collections)%nat in
  if collectionExists && negb overwriteDestination then
    ((0, Some (conflict_error collectionName)), w)
  else
  (* Get source collection indexes *)
  let '(r, w) := getCollectionIndexes env collectionName w in
  match r with
  | inl e => ((0, Some (ErrWrap "failed to get source collection indexes" e)), w)
  | inr indexes =>
  (* Drop the destination collection if it exists and overwrite is enabled *)
  let '(r, w) :=
    if collectionExists && overwriteDestination
    then Drop env collectionName w
    else (None, w) in
  match r with
  | Some e =>
      ((0, Some (ErrWrap "failed to drop destination collection" (ErrDriver e))), w)
  | None =>
  (* Create indexes in background *)
  let '(r, w) :=
    if (0 <? length indexes)%nat
    then CreateMany env collectionName (in_background <$> indexes) w
    else (None, w) in
  match r with
  | Some e => ((0, Some (ErrWrap "failed to create indexes" (ErrDriver e))), w)
  | None =>
  (* Count documents for reporting *)
  let '(r, w) := CountDocuments env collectionName w in
  match r with
  | inl e => ((0, Some (ErrWrap "failed to count documents" (ErrDriver e))), w)
  | inr count =>
  if count =? 0 then ((0, None), w) (* Nothing to transfer *)
  else
  (* Retrieve and insert documents in batches *)
  let '(r, w) := Find env collectionName w in
  match r with
  | inl e => ((0, Some (ErrWrap "failed to execute find" (ErrDriver e))), w)
  | inr (docs, cursor_err) =>
  match
    copy_loop env collectionName batchSize 0 docs
      {| st_total := 0; st_batch := []; st_calls := 0 |} w
  with
  | inl returned => returned
  | inr (st, w) =>
  (* Insert the remaining documents *)
  let '(r, totalTransferred, w) :=
    if 0 <? GoInt.len (st_batch st) then
      let '(err, w) := InsertMany env collectionName (st_calls st) (st_batch st) w in
      match err with
      | Some e => (Some e, st_total st, w)
      | None =>
          (None, GoInt.add (st_total st) (GoInt.len (st_batch st)), w)
      end
    else (None, st_total st, w) in
  match r with
  | Some e =>
      ((totalTransferred,
        Some (ErrWrap "failed to insert final batch" (ErrDriver e))), w)
  | None =>
  match cursor_err with
  | Some e => ((totalTransferred, Some (ErrWrap "cursor error" (ErrDriver e))), w)
  | None => ((totalTransferred, None), w)
  end end end end end end end end end.

(** ** Models (pkg/models) *)

(** Modelled from the spec: the [OverwriteDestination] field.  The
    declaration of [TransferParams] at hand lacks it, while [main] sets it
    from the [--overwrite] flag and [TransferCollection] reads it; it is the
    overwrite flag of the transfer request.  The other fields are the
    declared ones; the URIs and database names select the two databases
    of the [World]. *)
Record TransferParams : Type := mkTransferParams {
  SourceURI : string;
  DestinationURI : string;
  SourceDB : string;
  DestinationDB : string;
  Collections : list string;
  BatchSize : Z;
  OverwriteDestination : bool;
}.

Record CollectionTransferResult : Type := mkCollectionTransferResult {
  CollectionName : string;
  DocumentsCount : Z;
  Success : bool;
  ErrorMessage : string;
}.

Record TransferResult : Type := mkTransferResult {
  CollectionResults : list CollectionTransferResult;
  OverallSuccess : bool;
  TotalDocuments : Z;
}.

(** ** Activities (pkg/activities/transfer_activities.go) *)

Definition with_error (msg : string) (r : CollectionTransferResult)
  : CollectionTransferResult :=
  {| CollectionName := CollectionName r; DocumentsCount := DocumentsCount r;
     Success := Success r; ErrorMessage := msg |}.

Definition TransferCollection (env : Env) (params : TransferParams)
    (collectionName : string) (w : World)
  : (CollectionTransferResult * option Error) * World :=
  let result :=
    {| CollectionName := collectionName; DocumentsCount := 0;
       Success := false; ErrorMessage := EmptyString |} in
  (* Connect to source MongoDB *)
  match connectToMongoDB (connect_source env) with
  | Some err =>
      ((with_error ("Failed to connect to source MongoDB: " +:+ Error_string err)
          result, Some err), w)
  | None =>
  (* Connect to destination MongoDB *)
  match connectToMongoDB (connect_dest env) with
  | Some err =>
      ((with_error ("Failed to connect to destination MongoDB: " +:+ Error_string err)
          result, Some err), w)
  | None =>
  (* Transfer the collection *)
  let '((count, err), w) :=
    transferCollection env collectionName (BatchSize params)
      (OverwriteDestination params) w in
  match err with
  | Some err =>
      ((with_error ("Failed to transfer collection: " +:+ Error_string err) result,
        Some err), w)
  | None =>
      (({| CollectionName := collectionName; DocumentsCount := count;
           Success := true; ErrorMessage := EmptyString |}, None), w)
  end end end.

(** The environment of the run controller's own driver calls. *)
Record RunEnv : Type := mkRunEnv {
  validate_source : ConnFault;
  validate_dest : ConnFault;
  collections_connect : ConnFault;
  list_source_fault : option DriverError;
}.

Definition run_ok : RunEnv :=
  {| validate_source := ConnOk; validate_dest := ConnOk;
     collections_connect := ConnOk; list_source_fault := None |}.

Definition ValidateConnections (renv : RunEnv) : option Error :=
  match connectToMongoDB (validate_source renv) with
  | Some err => Some (ErrWrap "failed to connect to source MongoDB" err)
  | None =>
      match connectToMongoDB (validate_dest renv) with
      | Some err => Some (ErrWrap "failed to connect to destination MongoDB" err)
      | None => None
      end
  end.

(** [db.ListCollectionNames(ctx, bson.D{})] on the source. *)
Definition getCollectionsList (renv : RunEnv) (w : World) : Error + list string :=
  match list_source_fault renv with
  | Some e => inl (ErrWrap "failed to list collections" (ErrDriver e))
  | None => inr (map_to_list (source w)).*1
  end.

Definition GetCollections (renv : RunEnv) (params : TransferParams) (w : World)
  : Error + list string :=
  match connectToMongoDB (collections_connect renv) with
  | Some err => inl (ErrWrap "failed to connect to source MongoDB" err)
  | None =>
      if (0 <? length (Collections params))%nat then
        (* User specified collections to transfer *)
        inr (Collections params)
      else
        (* Get all collections from the database *)
        match getCollectionsList renv w with
        | inl err => inl (ErrWrap "failed to get collections list" err)
        | inr collections => inr collections
        end
  end.

(** ** The worker pool of runTransfer (cmd/mongotransfert/main.go)

    The goroutines are modelled by an interleaving semantics.  A worker is
    at one of three points of [for collName := range collectionCh { ... }];
    a scheduling decision names the worker that moves next and, when that
    move is a transfer, the environment the transfer meets.  A transfer is
    one move: the driver calls of two workers are not interleaved with each
    other. *)

Inductive Worker : Type :=
  | Receiving                        (* at the head of the loop *)
  | Transferring (collName : string) (* received a name, result not yet sent *)
  | Returned.                        (* left the loop; wg.Done() has run *)

Record Pool : Type := mkPool {
  collectionCh : list string;   (* filled and closed before the workers start *)
  resultCh : list CollectionTransferResult;
  workers : list Worker;
  pool_world : World;
}.

Abbreviation Schedule := (list (nat * Env)).

Definition set_worker (i : nat) (s : Worker) (p : Pool) : Pool :=
  {| collectionCh := collectionCh p; resultCh := resultCh p;
     workers := <[i := s]> (workers p); pool_world := pool_world p |}.

Definition pool_step (params : TransferParams) (d : nat * Env) (p : Pool)
  : option Pool :=
  let '(workerId, env) := d in
  match workers p !! workerId with
  | Some Receiving =>
      match collectionCh p with
      | collName :: rest =>
          Some {| collectionCh := rest; resultCh := resultCh p;
                  workers := <[workerId := Transferring collName]> (workers p);
                  pool_world := pool_world p |}
      | [] => Some (set_worker workerId Returned p)
      end
  | Some (Transferring collName) =>
      let '((res, _), w) := TransferCollection env params collName (pool_world p) in
      Some {| collectionCh := collectionCh p; resultCh := resultCh p ++ [res];
              workers := <[workerId := Receiving]> (workers p);
              pool_world := w |}
  | Some Returned | None => None
  end.

Fixpoint pool_run (params : TransferParams) (sched : Schedule) (p : Pool)
  : option Pool :=
  match sched with
  | [] => Some p
  | d :: sched' =>
      match pool_step params d p with
      | Some p' => pool_run params sched' p'
      | None => None
      end
  end.

Definition is_returned (s : Worker) : bool :=
  match s with Returned => true | _ => false end.

(** [wg.Wait()] returns once every worker has returned. *)
Definition all_returned (p : Pool) : bool := forallb is_returned (workers p).

Definition start_pool (collections : list string) (workerCount : Z) (w : World)
  : Pool :=
  {| collectionCh := collections; resultCh := [];
     workers := replicate (Z.to_nat workerCount) Receiving;
     pool_world := w |}.

(** [for res := range resultCh { ... }] *)
Fixpoint collect_loop (results : list CollectionTransferResult)
    (collected : list CollectionTransferResult) (totalDocs : Z)
    (allSuccessful : bool)
  : list CollectionTransferResult * Z * bool :=
  match results with
  | [] => (collected, totalDocs, allSuccessful)
  | res :: rest =>
      collect_loop rest (collected ++ [res])
        (GoInt.add totalDocs (DocumentsCount res))
        (if negb (Success res) then false else allSuccessful)
  end.

(** The part of [runTransfer] after [close(resultCh)]. *)
Definition collect_results (results : list CollectionTransferResult)
    (result : TransferResult) : TransferResult :=
  let '(collected, totalDocs, allSuccessful) :=
    collect_loop results (CollectionResults result) 0 true in
  {| CollectionResults := collected;
     OverallSuccess := allSuccessful;
     TotalDocuments := totalDocs |}.

(** [runTransfer].  The result is [None] when [sched] is not a complete
    run of the worker pool: it schedules a worker that has returned or
    does not exist, or it ends before all workers have returned. *)
Definition runTransfer (renv : RunEnv) (sched : Schedule)
    (params : TransferParams) (workerCount : Z) (w : World)
  : option ((TransferResult * option Error) * World) :=
  let result :=
    {| CollectionResults := []; OverallSuccess := true; TotalDocuments := 0 |} in
  (* Validate connections *)
  match ValidateConnections renv with
  | Some err => Some ((result, Some (ErrWrap "connection validation failed" err)), w)
  | None =>
  (* Get collections list *)
  match GetCollections renv params w with
  | inl err => Some ((result, Some (ErrWrap "failed to get collections" err)), w)
  | inr collections =>
  if (length collections =? 0)%nat then Some ((result, None), w)
  else
  (* Set up worker pool for collection transfer *)
  let workerCount := if workerCount <=? 0 then 3 else workerCount in
  match pool_run params sched (start_pool collections workerCount w) with
  | None => None
  | Some p =>
      if all_returned p
      then Some ((collect_results (resultCh p) result, None), pool_world p)
      else None
  end end end.

(** ** Command line (cmd/mongotransfert/main.go) *)

(** Go strings are byte strings, and [range] walks them rune by rune.  The
    three runes the parser looks for are single bytes that occur in no
    multi-byte sequence of UTF-8, so on valid UTF-8 walking the bytes and
    re-appending them is what the loop does.  On bytes that are not valid
    UTF-8 the loop of the program differs: it appends the encoding of
    U+FFFD for each of them, where this model keeps the byte.  The
    properties that depend on the difference are stated for ASCII input. *)
Definition comma : ascii := Ascii.ascii_of_nat 44.
Definition space : ascii := Ascii.ascii_of_nat 32.
Definition tab : ascii := Ascii.ascii_of_nat 9.

(** The loop of [splitCommas]: [result] and [current] after the runes of
    [s]. *)
Fixpoint splitCommas_loop (s : string) (result : list string) (current : string)
  : list string * string :=
  match s with
  | EmptyString => (result, current)
  | String c s' =>
      if Ascii.eqb c comma then
        splitCommas_loop s' (result ++ [current]) EmptyString
      else if negb (Ascii.eqb c space) && negb (Ascii.eqb c tab) then
        splitCommas_loop s' result (current +:+ String c EmptyString)
      else splitCommas_loop s' result current
  end.

Definition splitCommas (s : string) : list string :=
  let '(result, current) := splitCommas_loop s [] EmptyString in
  if negb (String.eqb current EmptyString) then result ++ [current] else result.

(** The loop of [parseCommaSeparatedList]. *)
Fixpoint keep_nonempty (pieces : list string) (result : list string) : list string :=
  match pieces with
  | [] => result
  | s :: rest =>
      if negb (String.eqb s EmptyString) then keep_nonempty rest (result ++ [s])
      else keep_nonempty rest result
  end.

Definition parseCommaSeparatedList (input : string) : list string :=
  if String.eqb input EmptyString then []
  else keep_nonempty (splitCommas input) [].

(** ** printSummary and main (cmd/mongotransfert/main.go) *)

Definition newline : string := String (Ascii.ascii_of_nat 10) EmptyString.

(** [fmt]'s [%d] of an [int] and [%v] of a [bool]. *)
Definition format_int (n : Z) : string := pretty n.
Definition format_bool (b : bool) : string := if b then "true" else "false".

(** The loop of [printSummary]: [out] is what has been printed so far. *)
Fixpoint summary_loop (results : list CollectionTransferResult)
    (successCount : Z) (out : string) : Z * string :=
  match results with
  | [] => (successCount, out)
  | collResult :: rest =>
      let status := "✓ Success" in
      let '(status, successCount) :=
        if negb (Success collResult)
        then ("✗ Failed: " +:+ ErrorMessage collResult, successCount)
        else (status, GoInt.add successCount 1) in
      summary_loop rest successCount
        (out +:+ "  - " +:+ CollectionName collResult +:+ ": "
             +:+ format_int (DocumentsCount collResult) +:+ " documents, "
             +:+ status +:+ newline)
  end.

(** [printSummary]: the text written to the standard output. *)
Definition printSummary (result : TransferResult) : string :=
  let out := newline +:+ "=== MongoDB Transfer Summary ===" +:+ newline in
  let out := out +:+ "Total documents transferred: "
                 +:+ format_int (TotalDocuments result) +:+ newline in
  let out := out +:+ "Success: " +:+ format_bool (OverallSuccess result) +:+ newline in
  let out := out +:+ newline +:+ "Collection details:" +:+ newline in
  let '(successCount, out) := summary_loop (CollectionResults result) 0 out in
  out +:+ newline +:+ "Successfully transferred " +:+ format_int successCount
      +:+ " out of " +:+ format_int (GoInt.len (CollectionResults result))
      +:+ " collections" +:+ newline.

(** The values of the command-line flags, the defaults where the command
    line does not set them. *)
Record Flags : Type := mkFlags {
  flag_source : string;      (* --source *)
  flag_dest : string;        (* --dest *)
  flag_source_db : string;   (* --source-db *)
  flag_dest_db : string;     (* --dest-db *)
  flag_collections : string; (* --collections *)
  flag_batch_size : Z;       (* --batch-size *)
  flag_workers : Z;          (* --workers *)
  flag_overwrite : bool;     (* --overwrite *)
}.

(** The transfer parameters [main] builds from the flags. *)
Definition main_params (flags : Flags) : TransferParams :=
  let params :=
    {| SourceURI := flag_source flags;
       DestinationURI := flag_dest flags;
       SourceDB := flag_source_db flags;
       DestinationDB := flag_dest_db flags;
       Collections := [];
       BatchSize := flag_batch_size flags;
       OverwriteDestination := flag_overwrite flags |} in
  (* Parse collections if provided *)
  if negb (String.eqb (flag_collections flags) EmptyString) then
    {| SourceURI := SourceURI params;
       DestinationURI := DestinationURI params;
       SourceDB := SourceDB params;
       DestinationDB := DestinationDB params;
       Collections := parseCommaSeparatedList (flag_collections flags);
       BatchSize := BatchSize params;
       OverwriteDestination := OverwriteDestination params |}
  else params.

(** What [flag.Parse] makes of the command line.  The flag set of the
    program has the policy [flag.ExitOnError]: asked for help ([-h],
    [-help]) it prints the usage and ends the process with status 0; on
    a flag that is not defined or a value that does not parse it prints
    the error and the usage and ends the process with status 2; otherwise
    the flags have their values. *)
Inductive CommandLine : Type :=
  | HelpRequested
  | Malformed
  | Parsed (flags : Flags).

(** [main]: the exit status of the process, what it writes to the standard
    output, and the world it leaves.  The usage text of the flags and the
    log go to the standard error and are left out; [log.Fatalf] exits with
    status 1. *)
Definition main (args : CommandLine) (renv : RunEnv) (sched : Schedule) (w : World)
  : option ((Z * string) * World) :=
  (* Parse command-line flags *)
  match args with
  | HelpRequested => Some ((0, EmptyString), w)
  | Malformed => Some ((2, EmptyString), w)
  | Parsed flags =>
  (* Validate required flags *)
  if String.eqb (flag_source flags) EmptyString
     || String.eqb (flag_dest flags) EmptyString
     || String.eqb (flag_source_db flags) EmptyString
     || String.eqb (flag_dest_db flags) EmptyString
  then
    Some ((1, "Error: missing required arguments" +:+ newline
              +:+ "Usage:" +:+ newline), w)
  else
  let params := main_params flags in
  (* Run the transfer process *)
  match runTransfer renv sched params (flag_workers flags) w with
  | None => None
  | Some ((result, Some err), w) => Some ((1, EmptyString), w)
  | Some ((result, None), w) =>
      (* Print summary *)
      let out := printSummary result in
      if negb (OverallSuccess result) then Some ((1, out), w)
      else Some ((0, out), w)
  end end.

(** * The vocabulary of the properties *)

(** ** Logs and batches *)

(** The driver calls issued between two worlds. *)
Definition issued (w w' : World) : list Event :=
  drop (length (oplog w)) (oplog w').

(** The number of [InsertMany] calls in a log. *)
Definition inserts_issued (evs : list Event) : nat :=
  length (List.filter is_insert evs).

(** The successful insert of a full batch. *)
Definition full_insert (coll : string) (batchSize : Z) : Event :=
  EvInsertMany coll (Z.to_nat batchSize) true.

(** [ceil(a / b)] for [0 <= a] and [0 < b]. *)
Definition ceil_div (a b : Z) : Z := (a + b - 1) / b.

(** The batch size after the default has been applied. *)
Definition effective_batch (batchSize : Z) : Z :=
  if batchSize <=? 0 then 100 else batchSize.

(** What the copy loop keeps true from one iteration to the next: the
    batch is short of a full one, and the running total fits a Go [int]
    even after every document still to come has been added. *)
Definition loop_inv (batchSize : Z) (docs : list bdoc) (st : CopyState) : Prop :=
  0 <= st_total st /\
  GoInt.len (st_batch st) < batchSize /\
  st_total st + GoInt.len (st_batch st) + GoInt.len docs <= GoInt.max_int.

(** The documents the loop sees: the pending batch, then the decoded
    rest of the cursor. *)
Definition stream (docs : list bdoc) (st : CopyState) : list bsonM :=
  st_batch st ++ (decodeM <$> docs).

(** ** The phases of transferCollection

    For the proofs the body of [transferCollection] is cut at its comments:
    the statements up to the creation of the indexes, the flush after the
    loop, and the statements from the document count on.
    [transferCollection_phases] shows that the pieces put together are the
    function. *)

(** Steps 1 to 5: the left result is a [return], the right one the world
    in which the document count starts. *)
Definition prepare_destination (env : Env) (collectionName : string)
    (overwriteDestination : bool) (w : World)
  : (Z * option Error) * World + World :=
  let '(r, w) := ListCollectionNames env collectionName w in
  match r with
  | inl e =>
      inl ((0, Some (ErrWrap "failed to check destination collection" (ErrDriver e))), w)
  | inr collections =>
  let collectionExists := (0 <? length collections)%nat in
  if collectionExists && negb overwriteDestination then
    inl ((0, Some (conflict_error collectionName)), w)
  else
  let '(r, w) := getCollectionIndexes env collectionName w in
  match r with
  | inl e => inl ((0, Some (ErrWrap "failed to get source collection indexes" e)), w)
  | inr indexes =>
  let '(r, w) :=
    if collectionExists && overwriteDestination
    then Drop env collectionName w
    else (None, w) in
  match r with
  | Some e =>
      inl ((0, Some (ErrWrap "failed to drop destination collection" (ErrDriver e))), w)
  | None =>
  let '(r, w) :=
    if (0 <? length indexes)%nat
    then CreateMany env collectionName (in_background <$> indexes) w
    else (None, w) in
  match r with
  | Some e => inl ((0, Some (ErrWrap "failed to create indexes" (ErrDriver e))), w)
  | None => inr w
  end end end end.

(** The statements after the loop. *)
Definition flush_and_finish (env : Env) (collectionName : string)
    (st : CopyState) (cursor_err : option DriverError) (w : World)
  : (Z * option Error) * World :=
  let '(r, totalTransferred, w) :=
    if 0 <? GoInt.len (st_batch st) then
      let '(err, w) := InsertMany env collectionName (st_calls st) (st_batch st) w in
      match err with
      | Some e => (Some e, st_total st, w)
      | None =>
          (None, GoInt.add (st_total st) (GoInt.len (st_batch st)), w)
      end
    else (None, st_total st, w) in
  match r with
  | Some e =>
      ((totalTransferred,
        Some (ErrWrap "failed to insert final batch" (ErrDriver e))), w)
  | None =>
  match cursor_err with
  | Some e => ((totalTransferred, Some (ErrWrap "cursor error" (ErrDriver e))), w)
  | None => ((totalTransferred, None), w)
  end end.

(** The loop and what follows it, on the documents the cursor delivers. *)
Definition stream_documents (env : Env) (collectionName : string) (batchSize : Z)
    (docs : list bdoc) (cursor_err : option DriverError) (w : World)
  : (Z * option Error) * World :=
  match
    copy_loop env collectionName batchSize 0 docs
      {| st_total := 0; st_batch := []; st_calls := 0 |} w
  with
  | inl returned => returned
  | inr (st, w) => flush_and_finish env collectionName st cursor_err w
  end.

(** Steps 6 and 7. *)
Definition copy_documents (env : Env) (collectionName : string) (batchSize : Z)
    (w : World) : (Z * option Error) * World :=
  let '(r, w) := CountDocuments env collectionName w in
  match r with
  | inl e => ((0, Some (ErrWrap "failed to count documents" (ErrDriver e))), w)
  | inr count =>
  if count =? 0 then ((0, None), w)
  else
  let '(r, w) := Find env collectionName w in
  match r with
  | inl e => ((0, Some (ErrWrap "failed to execute find" (ErrDriver e))), w)
  | inr (docs, cursor_err) =>
      stream_documents env collectionName batchSize docs cursor_err w
  end end.

(** ** What streaming the documents does

    [streamed coll B all cursor_err evs stored count err]: on a cursor that
    delivers [all] and ends with [cursor_err], the loop and the flush issue
    the calls [evs], store [stored] at the destination and return
    [(count, err)]. *)
Inductive streamed (coll : string) (B : Z) (all : list bsonM)
    (cursor_err : option DriverError)
  : list Event -> list bsonM -> Z -> option Error -> Prop :=
  | streamed_decode_fails (k : nat) e :
      (k * Z.to_nat B <= length all)%nat ->
      streamed coll B all cursor_err
        (replicate k (full_insert coll B))
        (take (k * Z.to_nat B) all)
        (B * Z.of_nat k)
        (Some (ErrWrap "failed to decode document" (ErrDriver e)))
  | streamed_batch_fails (k : nat) f :
      (k * Z.to_nat B <= length all)%nat ->
      streamed coll B all cursor_err
        (replicate k (full_insert coll B) ++ [EvInsertMany coll (Z.to_nat B) false])
        (take (k * Z.to_nat B) all
           ++ accepted (rejected f) 0 (take (Z.to_nat B) (drop (k * Z.to_nat B) all)))
        (B * Z.of_nat k)
        (Some (ErrWrap "failed to insert batch" (ErrDriver (insert_error f))))
  | streamed_final_fails (k r : nat) f :
      length all = (k * Z.to_nat B + r)%nat ->
      (0 < r < Z.to_nat B)%nat ->
      streamed coll B all cursor_err
        (replicate k (full_insert coll B) ++ [EvInsertMany coll r false])
        (take (k * Z.to_nat B) all
           ++ accepted (rejected f) 0 (drop (k * Z.to_nat B) all))
        (B * Z.of_nat k)
        (Some (ErrWrap "failed to insert final batch" (ErrDriver (insert_error f))))
  | streamed_all (k r : nat) :
      length all = (k * Z.to_nat B + r)%nat ->
      (r < Z.to_nat B)%nat ->
      streamed coll B all cursor_err
        (replicate k (full_insert coll B)
           ++ (if (0 <? r)%nat then [EvInsertMany coll r true] else []))
        all
        (Z.of_nat (length all))
        (match cursor_err with
         | Some e => Some (ErrWrap "cursor error" (ErrDriver e))
         | None => None
         end).

(** [documents_of coll w]: the documents of the source collection. *)
Definition documents_of (coll : string) (w : World) : list bdoc :=
  coll_docs (source_collection coll w).

(** ** The outcomes of the preparation *)

(** The outcome of reading the source indexes depends on the source and
    on the environment only. *)
Definition index_read (env : Env) (coll : string) (w : World)
  : Error + list IndexModel :=
  (getCollectionIndexes env coll w).1.

(** The calls of the destructive step: a drop, when the collection exists
    and overwriting is enabled. *)
Definition drop_events (coll : string) (overwrite : bool) (w : World) : list Event :=
  match dest w !! coll with
  | Some _ => if overwrite then [EvDrop coll] else []
  | None => []
  end.

(** [prepared env coll overwrite w r]: the ways in which steps 1 to 5 can
    end, with the calls issued and the state of the destination. *)
Inductive prepared (env : Env) (coll : string) (overwrite : bool) (w : World)
  : (Z * option Error) * World + World -> Prop :=
  | prepared_check_fails e :
      list_collections_fault env = Some e ->
      prepared env coll overwrite w
        (inl ((0, Some (ErrWrap "failed to check destination collection"
                          (ErrDriver e))),
              emit (EvListCollectionNames coll) w))
  | prepared_conflict :
      list_collections_fault env = None ->
      is_Some (dest w !! coll) ->
      overwrite = false ->
      prepared env coll overwrite w
        (inl ((0, Some (conflict_error coll)), emit (EvListCollectionNames coll) w))
  | prepared_read_fails e :
      list_collections_fault env = None ->
      index_read env coll w = inl e ->
      prepared env coll overwrite w
        (inl ((0, Some (ErrWrap "failed to get source collection indexes" e)),
              emit (EvListIndexes coll) (emit (EvListCollectionNames coll) w)))
  | prepared_drop_fails indexes e w' :
      index_read env coll w = inr indexes ->
      is_Some (dest w !! coll) ->
      overwrite = true ->
      source w' = source w ->
      dest w' = dest w ->
      oplog w' = oplog w ++ [EvListCollectionNames coll; EvListIndexes coll; EvDrop coll] ->
      prepared env coll overwrite w
        (inl ((0, Some (ErrWrap "failed to drop destination collection"
                          (ErrDriver e))), w'))
  | prepared_create_fails indexes e w' :
      index_read env coll w = inr indexes ->
      source w' = source w ->
      dest w' = (if overwrite then delete coll (dest w) else dest w) ->
      oplog w' = oplog w ++ [EvListCollectionNames coll; EvListIndexes coll]
                   ++ drop_events coll overwrite w
                   ++ [EvCreateMany coll (in_background <$> indexes)] ->
      prepared env coll overwrite w
        (inl ((0, Some (ErrWrap "failed to create indexes" (ErrDriver e))), w'))
  | prepared_ready indexes w' :
      list_collections_fault env = None ->
      index_read env coll w = inr indexes ->
      source w' = source w ->
      dest w' =
        (let d := if overwrite then delete coll (dest w) else dest w in
         match indexes with
         | [] => d
         | _ => <[coll := mkCollection (coll_docs (default empty_dest (d !! coll)))
                            (coll_indexes (default empty_dest (d !! coll))
                               ++ (in_background <$> indexes))]> d
         end) ->
      oplog w' = oplog w ++ [EvListCollectionNames coll; EvListIndexes coll]
                   ++ drop_events coll overwrite w
                   ++ match indexes with
                      | [] => []
                      | _ => [EvCreateMany coll (in_background <$> indexes)]
                      end ->
      prepared env coll overwrite w (inr w').

(** ** Kinds of calls *)

(** The calls the document phase can issue. *)
Definition copy_event (e : Event) : bool :=
  match e with
  | EvCountDocuments _ | EvFind _ | EvInsertMany _ _ _ => true
  | _ => false
  end.

Definition result_world (r : (Z * option Error) * World + CopyState * World) : World :=
  match r with inl (_, w) => w | inr (_, w) => w end.

(** The documents that the successful inserts of a log carried. *)
Fixpoint documents_inserted (evs : list Event) : nat :=
  match evs with
  | [] => 0
  | EvInsertMany _ n true :: evs' => n + documents_inserted evs'
  | _ :: evs' => documents_inserted evs'
  end.

Definition is_failed_insert (e : Event) : bool :=
  match e with EvInsertMany _ _ false => true | _ => false end.

(** A log without any [InsertMany]. *)
Definition quiet (evs : list Event) : Prop := List.filter is_insert evs = [].

(** ** States of the worker pool *)

(** The names the workers have received and not yet answered. *)
Fixpoint in_flight (ws : list Worker) : list string :=
  match ws with
  | [] => []
  | Transferring collName :: ws' => collName :: in_flight ws'
  | _ :: ws' => in_flight ws'
  end.

(** The moves a worker still has to make when no name is left for it. *)
Definition moves_left (s : Worker) : nat :=
  match s with
  | Transferring _ => 2
  | Receiving => 1
  | Returned => 0
  end.

(** The moves the pool still has to make: two for each name in the
    channel (receive it, send its result), and those of the workers. *)
Fixpoint workers_moves (ws : list Worker) : nat :=
  match ws with
  | [] => 0
  | s :: ws' => moves_left s + workers_moves ws'
  end.

Definition pending (p : Pool) : nat :=
  2 * length (collectionCh p) + workers_moves (workers p).

(** What every reachable state of the pool satisfies, for the names
    [collections] the pool was started with: every name is in the channel,
    in flight, or answered, exactly once; and a worker has returned only
    when the channel was empty. *)
Definition pool_inv (collections : list string) (p : Pool) : Prop :=
  (CollectionName <$> resultCh p) ++ in_flight (workers p) ++ collectionCh p
    ≡ₚ collections /\
  (Returned ∈ workers p -> collectionCh p = []).

(** ** Results of a run *)

(** The sum of the document counts of a list of outcomes, as a number. *)
Definition sum_documents (rs : list CollectionTransferResult) : Z :=
  foldr (fun r acc => DocumentsCount r + acc) 0 rs.

(** The result [runTransfer] starts from. *)
Definition empty_result : TransferResult :=
  {| CollectionResults := []; OverallSuccess := true; TotalDocuments := 0 |}.

(** ** Index descriptions *)

(** The field [name] of a raw document. *)
Fixpoint raw_field (name : string) (d : bdoc) : option bval :=
  match d with
  | [] => None
  | (k, v) :: d' => if String.eqb k name then Some v else raw_field name d'
  end.

(** The key sequence of an index description, in the order in which the
    database stores it. *)
Definition declared_keys (description : bdoc) : option bsonD :=
  match raw_field "key" description with
  | Some (BDoc keys) => Some (prod_map id decode <$> keys)
  | _ => None
  end.

(** ** The image of a source collection *)

(** What a successful transfer leaves at the destination under the name of
    the collection: nothing when there is neither a document nor an index
    to create, and otherwise the decoded documents with the fetched index
    models, marked for background creation. *)
Definition image (docs : list bsonM) (indexes : list IndexModel)
  : option (Collection bsonM IndexModel) :=
  match docs, indexes with
  | [], [] => None
  | _, _ => Some (mkCollection docs (in_background <$> indexes))
  end.

(** The documents of a destination collection; none when it is missing. *)
Definition stored_documents (coll : string) (w : World) : list bsonM :=
  coll_docs (default empty_dest (dest w !! coll)).

(** ** Reading one index description *)

(** Go's [range] over a map yields every entry once, in an order of its
    own choosing. *)
Definition range_admissible (range : bsonM -> bsonD) : Prop :=
  forall m, range m ≡ₚ map_to_list m.

(** The test of the index loop for the identity index, on a decoded
    description. *)
Definition is_identity (index : bsonM) : bool :=
  match index !! "name" with
  | Some (GString s) => String.eqb s "_id_"
  | _ => false
  end.

(** The options the loop body sets from a decoded description. *)
Definition read_options (index : bsonM) : IndexOptions :=
  let options := options_Index in
  let options :=
    match index !! "unique" with
    | Some (GBool unique) => SetUnique unique options
    | _ => options
    end in
  let options :=
    match index !! "sparse" with
    | Some (GBool sparse) => SetSparse sparse options
    | _ => options
    end in
  let options :=
    match index !! "expireAfterSeconds" with
    | Some (GInt32 expireAfterSeconds) =>
        SetExpireAfterSeconds expireAfterSeconds options
    | _ => options
    end in
  match index !! "partialFilterExpression" with
  | Some partialFilterExpression =>
      SetPartialFilterExpression partialFilterExpression options
  | None => options
  end.

(** The model the loop body appends for a decoded description, if its key
    is a document. *)
Definition read_model (env : Env) (index : bsonM) : option IndexModel :=
  match index !! "key" with
  | Some (GM keyM) => Some {| Keys := map_range env keyM; Options := Some (read_options index) |}
  | _ => None
  end.

(** What a stored description declares: whether it is the identity index,
    and the attributes the tool looks at. *)
Definition declared_identity (description : bdoc) : bool :=
  match raw_field "name" description with
  | Some (BString s) => String.eqb s "_id_"
  | _ => false
  end.

Definition declared_options (description : bdoc) : IndexOptions :=
  {| Background := None;
     ExpireAfterSeconds :=
       match raw_field "expireAfterSeconds" description with
       | Some (BInt32 s) => Some s
       | _ => None
       end;
     Sparse :=
       match raw_field "sparse" description with
       | Some (BBool b) => Some b
       | _ => None
       end;
     Unique :=
       match raw_field "unique" description with
       | Some (BBool b) => Some b
       | _ => None
       end;
     PartialFilterExpression := decode <$> raw_field "partialFilterExpression" description |}.

(** The descriptions of a source collection other than the identity index. *)
Definition secondary_indexes (coll : string) (w : World) : list bdoc :=
  List.filter (fun d => negb (is_identity (decodeM d)))
    (coll_indexes (source_collection coll w)).

(** ** Copied collections *)

(** [index_kept d m]: the index model [m] is what the index loop reads
    from the description [d], marked for background creation, with the
    keys of the description in some order. *)
Definition index_kept (d : bdoc) (m : IndexModel) : Prop :=
  Options m = Some (SetBackground true (read_options (decodeM d))) /\
  exists keyM,
    decodeM d !! "key" = Some (GM keyM) /\ Keys m ≡ₚ map_to_list keyM.

(** [replica w0 name c]: the destination collection [c] ([None]: there is
    none) is an image of the source collection [name] of [w0]: it holds
    the source documents, decoded, in their order, and one index for each
    description other than the identity index, in their order; there is
    no collection exactly when the source has nothing to show. *)
Definition replica (w0 : World) (name : string)
    (c : option (Collection bsonM IndexModel)) : Prop :=
  match c with
  | None => documents_of name w0 = [] /\ secondary_indexes name w0 = []
  | Some c =>
      coll_docs c = (decodeM <$> documents_of name w0) /\
      Forall2 index_kept (secondary_indexes name w0) (coll_indexes c) /\
      (documents_of name w0 <> [] \/ secondary_indexes name w0 <> [])
  end.





(** ** Lists of names *)

(** A byte that is a rune by itself. *)
Definition is_ascii (c : ascii) : bool := (Ascii.nat_of_ascii c <? 128)%nat.

(** A rune the parser treats specially. *)
Definition is_blank (c : ascii) : bool := Ascii.eqb c space || Ascii.eqb c tab.
Definition is_special (c : ascii) : bool := Ascii.eqb c comma || is_blank c.

Fixpoint string_forallb (f : ascii -> bool) (s : string) : bool :=
  match s with
  | EmptyString => true
  | String c s' => f c && string_forallb f s'
  end.

Fixpoint string_filter (f : ascii -> bool) (s : string) : string :=
  match s with
  | EmptyString => EmptyString
  | String c s' => if f c then String c (string_filter f s') else string_filter f s'
  end.

(** A name the parser returns as it is: not empty, without comma, space
    or tab. *)
Definition plain_name (s : string) : bool :=
  negb (String.eqb s EmptyString) && string_forallb (fun c => negb (is_special c)) s.

(** [strings.Join(names, ",")] *)
Definition join_commas (names : list string) : string := String.concat "," names.

(** The pieces the loop of [splitCommas] has cut, the current one
    included. *)
Definition pieces (s : string) (result : list string) (current : string)
  : list string :=
  let '(r, c) := splitCommas_loop s result current in r ++ [c].

Definition nonempty (s : string) : bool := negb (String.eqb s EmptyString).

(** A string of ASCII characters: its bytes are its runes. *)
Definition ascii_string (s : string) : bool := string_forallb is_ascii s.

(** The flags with another value for [--collections]. *)
Definition with_collections (collections : string) (flags : Flags) : Flags :=
  {| flag_source := flag_source flags; flag_dest := flag_dest flags;
     flag_source_db := flag_source_db flags; flag_dest_db := flag_dest_db flags;
     flag_collections := collections;
     flag_batch_size := flag_batch_size flags; flag_workers := flag_workers flags;
     flag_overwrite := flag_overwrite flags |}.

(** Whether the four required flags are set. *)
Definition required_flags (flags : Flags) : bool :=
  nonempty (flag_source flags) && nonempty (flag_dest flags)
  && nonempty (flag_source_db flags) && nonempty (flag_dest_db flags).

(** The line [printSummary] prints for one outcome. *)
Definition outcome_line (r : CollectionTransferResult) : string :=
  "  - " +:+ CollectionName r +:+ ": " +:+ format_int (DocumentsCount r)
  +:+ " documents, "
  +:+ (if Success r then "✓ Success" else "✗ Failed: " +:+ ErrorMessage r)
  +:+ newline.

(** * A sample deployment *)

Module Sample.

Definition doc (n : Z) : bdoc := [("_id", BInt32 n); ("email", BString "a@b.c")].

Definition id_index : bdoc :=
  [("v", BInt32 2); ("key", BDoc [("_id", BInt32 1)]); ("name", BString "_id_")].

Definition email_index : bdoc :=
  [("v", BInt32 2); ("key", BDoc [("email", BInt32 1)]);
   ("name", BString "email_1"); ("unique", BBool true)].

(** A compound index on [zip] descending, then [age] ascending. *)
Definition zip_age_index : bdoc :=
  [("v", BInt32 2); ("key", BDoc [("zip", BInt32 (-1)); ("age", BInt32 1)]);
   ("name", BString "zip_-1_age_1"); ("sparse", BBool true)].

(** The compound index on the same fields in the other order. *)
Definition age_zip_index : bdoc :=
  [("v", BInt32 2); ("key", BDoc [("age", BInt32 1); ("zip", BInt32 (-1))]);
   ("name", BString "age_1_zip_-1"); ("sparse", BBool true)].

(** A TTL index whose expiry is stored as a 64-bit integer. *)
Definition ttl_index : bdoc :=
  [("v", BInt32 2); ("key", BDoc [("seen", BInt32 1)]);
   ("name", BString "seen_1"); ("expireAfterSeconds", BInt64 3600)].

Definition users : Collection bdoc bdoc :=
  mkCollection [doc 1; doc 2; doc 3] [id_index; email_index].

Definition source_db : SourceData := {[ "users" := users ]}.

Definition stale_users : Collection bsonM IndexModel :=
  mkCollection [decodeM (doc 7)] [].

(** The destination has no collection yet. *)
Definition fresh : World :=
  {| source := source_db; dest := ∅; oplog := [] |}.

(** The destination already has a [users] collection. *)
Definition occupied : World :=
  {| source := source_db; dest := {[ "users" := stale_users ]}; oplog := [] |}.

(** The second [InsertMany] of a transfer fails; the server rejects
    every document of that batch. *)
Definition second_insert_fails : Env :=
  {| connect_source := ConnOk; connect_dest := ConnOk;
     list_collections_fault := None;
     list_indexes_fault := None;
     index_decode_fault := fun _ => None;
     index_cursor_fault := None;
     drop_fault := None;
     create_indexes_fault := None;
     count_fault := None;
     find_fault := None;
     doc_decode_fault := fun _ => None;
     doc_cursor_fault := None;
     insert_fault := fun k =>
       match k with
       | 1%nat => Some {| insert_error := "write error"; rejected := fun _ => true |}
       | _ => None
       end;
     map_range := map_to_list |}.

(** Listing the source indexes fails. *)
Definition index_list_fails : Env :=
  {| connect_source := ConnOk; connect_dest := ConnOk;
     list_collections_fault := None;
     list_indexes_fault := Some "not authorized";
     index_decode_fault := fun _ => None;
     index_cursor_fault := None;
     drop_fault := None;
     create_indexes_fault := None;
     count_fault := None;
     find_fault := None;
     doc_decode_fault := fun _ => None;
     doc_cursor_fault := None;
     insert_fault := fun _ => None;
     map_range := map_to_list |}.

Definition params (collections : list string) (batchSize : Z) (overwrite : bool)
  : TransferParams :=
  {| SourceURI := "mongodb://source:27017"; DestinationURI := "mongodb://dest:27017";
     SourceDB := "app"; DestinationDB := "app";
     Collections := collections; BatchSize := batchSize;
     OverwriteDestination := overwrite |}.

(** A source and a destination without any collection. *)
Definition nothing : World := {| source := ∅; dest := ∅; oplog := [] |}.

(** A source collection [places] with the identity index and one more. *)
Definition places (index : bdoc) : World :=
  {| source := {[ "places" := mkCollection [doc 1] [id_index; index] ]};
     dest := ∅; oplog := [] |}.

(** The scenario of the specification: [users] with 150 documents and an
    empty [orders], batches of 50, two workers, an empty destination. *)
Definition shop : World :=
  {| source := {[ "users" := mkCollection (doc <$> seqZ 1 150) [id_index; email_index];
                  "orders" := mkCollection [] [id_index] ]};
     dest := ∅; oplog := [] |}.

(** Both workers receive a name before either of them is done; [orders]
    is answered first. *)
Definition interleaved : Schedule :=
  [(0%nat, no_faults); (1%nat, no_faults); (1%nat, no_faults);
   (0%nat, no_faults); (0%nat, no_faults); (1%nat, no_faults)].

(** One worker does all the work; the others find the channel empty. *)
Definition one_by_one (env : Env) : Schedule :=
  [(0%nat, env); (0%nat, env); (0%nat, env); (1%nat, env); (2%nat, env)].

(** The calls that follow the drop when [users] is overwritten in
    batches of two. *)
Definition calls_after_drop : list Event :=
  [EvCreateMany "users"
     [{| Keys := [("email", GInt32 1)];
         Options := Some (SetBackground true (SetUnique true options_Index)) |}];
   EvCountDocuments "users"; EvFind "users";
   EvInsertMany "users" 2 true; EvInsertMany "users" 1 true].

End Sample.

(** * More sample cases *)

Module Cases.

(** The document cursor breaks when the third document is fetched. *)
Definition cursor_breaks : Env :=
  {| connect_source := ConnOk; connect_dest := ConnOk;
     list_collections_fault := None;
     list_indexes_fault := None;
     index_decode_fault := fun _ => None;
     index_cursor_fault := None;
     drop_fault := None;
     create_indexes_fault := None;
     count_fault := None;
     find_fault := None;
     doc_decode_fault := fun _ => None;
     doc_cursor_fault := Some (2%nat, "cursor lost");
     insert_fault := fun _ => None;
     map_range := map_to_list |}.

(** The destination has a stale [users] and an [archive] the source does
    not know. *)
Definition crowded : World :=
  {| source := Sample.source_db;
     dest := {[ "users" := Sample.stale_users; "archive" := Sample.stale_users ]};
     oplog := [] |}.

(** An index description whose key is not a document. *)
Definition broken_index : bdoc :=
  [("v", BInt32 2); ("key", BString "loc_2dsphere"); ("name", BString "loc")].

(** The command line of a run over the sample deployment. *)
Definition flags (collections : string) : Flags :=
  {| flag_source := "mongodb://source:27017";
     flag_dest := "mongodb://dest:27017";
     flag_source_db := "app";
     flag_dest_db := "app";
     flag_collections := collections;
     flag_batch_size := 2;
     flag_workers := 3;
     flag_overwrite := false |}.

(** The result of a run in which [orders] failed. *)
Definition mixed_result : TransferResult :=
  {| CollectionResults :=
       [{| CollectionName := "users"; DocumentsCount := 150; Success := true;
           ErrorMessage := EmptyString |};
        {| CollectionName := "orders"; DocumentsCount := 0; Success := false;
           ErrorMessage := "Failed to transfer collection: failed to count documents: timeout" |}];
     OverallSuccess := false;
     TotalDocuments := 150 |}.

(** An environment in which Go walks every key map backwards. *)
Definition backwards : Env :=
  {| connect_source := ConnOk; connect_dest := ConnOk;
     list_collections_fault := None;
     list_indexes_fault := None;
     index_decode_fault := fun _ => None;
     index_cursor_fault := None;
     drop_fault := None;
     create_indexes_fault := None;
     count_fault := None;
     find_fault := None;
     doc_decode_fault := fun _ => None;
     doc_cursor_fault := None;
     insert_fault := fun _ => None;
     map_range := fun m => reverse (map_to_list m) |}.

(** The document cursor delivers the three documents of [users] and
    fails when it looks for more. *)
Definition cursor_breaks_at_end : Env :=
  {| connect_source := ConnOk; connect_dest := ConnOk;
     list_collections_fault := None;
     list_indexes_fault := None;
     index_decode_fault := fun _ => None;
     index_cursor_fault := None;
     drop_fault := None;
     create_indexes_fault := None;
     count_fault := None;
     find_fault := None;
     doc_decode_fault := fun _ => None;
     doc_cursor_fault := Some (3%nat, "deadline exceeded");
     insert_fault := fun _ => None;
     map_range := map_to_list |}.

(** A small deployment with two collections: [users] with three documents
    and an empty [orders]. *)
Definition two_collections : World :=
  {| source := {[ "users" := Sample.users;
                  "orders" := mkCollection [] [Sample.id_index] ]};
     dest := ∅; oplog := [] |}.

(** The schedule of [Sample.interleaved], with a transfer of [orders] that
    cannot list the source indexes. *)
Definition orders_fail : Schedule :=
  [(0%nat, no_faults); (1%nat, no_faults); (1%nat, Sample.index_list_fails);
   (0%nat, no_faults); (0%nat, no_faults); (1%nat, no_faults)].

End Cases.

(** * Properties *)

(** ** Go integers and decoding *)

(** An embedded document decodes to the map of its fields. *)
Lemma decode_document fields : decode (BDoc fields) = GM (decodeM fields).
Proof. reflexivity. Qed.

(** Numbers in range are not changed by wrapping. *)
Lemma wrap_in_range z : GoInt.in_range z -> GoInt.wrap z = z.
Proof.
  unfold GoInt.in_range, GoInt.min_int, GoInt.max_int, GoInt.wrap. intros Hz.
  rewrite Z.mod_small; lia.
Qed.

Lemma add_in_range a b : GoInt.in_range (a + b) -> GoInt.add a b = a + b.
Proof. apply wrap_in_range. Qed.

(** ** The operation log and the stores *)

(** The calls issued are what was appended to the log. *)
Lemma issued_app w w' evs : oplog w' = oplog w ++ evs -> issued w w' = evs.
Proof. unfold issued. intros ->. by rewrite drop_app_length. Qed.

Lemma store_nil coll d : store coll [] d = d.
Proof. reflexivity. Qed.

(** Two stores into a collection are one store of the concatenation. *)
Lemma store_store coll a b d :
  store coll a (store coll b d) = store coll (b ++ a) d.
Proof.
  destruct b as [|x b]; [done|].
  destruct a as [|y a]; [by rewrite app_nil_r|].
  unfold store at 2. cbn [app]. unfold store.
  rewrite lookup_insert_eq. cbn. rewrite insert_insert_eq.
  by rewrite <- app_assoc.
Qed.

Lemma InsertMany_ok env coll k batch w :
  insert_fault env k = None ->
  InsertMany env coll k batch w =
    (None, {| source := source w; dest := store coll batch (dest w);
              oplog := oplog w ++ [EvInsertMany coll (length batch) true] |}).
Proof. unfold InsertMany. by intros ->. Qed.

Lemma InsertMany_fails env coll k batch w f :
  insert_fault env k = Some f ->
  InsertMany env coll k batch w =
    (Some (insert_error f),
     {| source := source w;
        dest := store coll (accepted (rejected f) 0 batch) (dest w);
        oplog := oplog w ++ [EvInsertMany coll (length batch) false] |}).
Proof. unfold InsertMany. by intros ->. Qed.

(** ** The copy loop *)

Section CopyLoop.

Variables (env : Env) (coll : string) (batchSize : Z).
Hypothesis batchSize_pos : 0 < batchSize.

(** Falling out of the loop: [k] full batches went through, each by one
    successful insert; their documents are in the destination, the rest
    of the stream is the pending batch, and the total is [k] batch sizes. *)
Lemma copy_loop_falls_out docs : forall i st w st' w',
  loop_inv batchSize docs st ->
  copy_loop env coll batchSize i docs st w = inr (st', w') ->
  exists k : nat,
    oplog w' = oplog w ++ replicate k (full_insert coll batchSize) /\
    source w' = source w /\
    dest w' = store coll (take (k * Z.to_nat batchSize) (stream docs st)) (dest w) /\
    st_batch st' = drop (k * Z.to_nat batchSize) (stream docs st) /\
    st_total st' = st_total st + batchSize * Z.of_nat k /\
    st_calls st' = (st_calls st + k)%nat /\
    GoInt.len (st_batch st') < batchSize /\
    (k * Z.to_nat batchSize <= length (stream docs st))%nat.
Proof.
  unfold loop_inv, stream, GoInt.len.
  induction docs as [|raw rest IH]; intros i st w st' w' (Htot & Hlen & Hmax) Hrun;
    cbn [copy_loop] in Hrun.
  - injection Hrun as <- <-. exists 0%nat. cbn [replicate Nat.mul take drop fmap list_fmap].
    rewrite !app_nil_r, Z.mul_0_r, Z.add_0_r, Nat.add_0_r. repeat split; try done. lia.
  - destruct (doc_decode_fault env i) as [e|]; [discriminate|].
    cbn zeta in Hrun. unfold GoInt.len in Hrun.
    rewrite length_app in Hrun. cbn [length] in Hrun, Hmax.
    destruct (Z.leb_spec batchSize (Z.of_nat (length (st_batch st) + 1))) as [Hfull|Hshort].
    + (* the batch is full: it has exactly [batchSize] documents *)
      assert (Hsize : length (st_batch st ++ [decodeM raw]) = Z.to_nat batchSize)
        by (rewrite length_app; cbn [length]; lia).
      destruct (insert_fault env (st_calls st)) as [f|] eqn:Hf.
      { rewrite (InsertMany_fails _ _ _ _ _ _ Hf) in Hrun. discriminate. }
      rewrite (InsertMany_ok _ _ _ _ _ Hf) in Hrun.
      apply IH in Hrun; cbn [st_total st_batch st_calls length] in *.
      2:{ rewrite add_in_range; unfold GoInt.in_range, GoInt.min_int; lia. }
      destruct Hrun as (k & Hlog & Hsrc & Hdst & Hbatch & Htotal & Hcalls & Hlt & Hle).
      cbn [source dest oplog app] in *.
      exists (S k). rewrite Hsize in Hlog.
      replace (st_batch st ++ (decodeM <$> (raw :: rest)))
        with ((st_batch st ++ [decodeM raw]) ++ (decodeM <$> rest))
        by (by rewrite <- app_assoc).
      replace (S k * Z.to_nat batchSize)%nat
        with (length (st_batch st ++ [decodeM raw]) + k * Z.to_nat batchSize)%nat
        by (rewrite Hsize; lia).
      rewrite take_app_add, drop_app_add, length_app.
      repeat split.
      * rewrite Hlog, <- app_assoc. reflexivity.
      * exact Hsrc.
      * rewrite Hdst, store_store. reflexivity.
      * exact Hbatch.
      * rewrite Htotal, add_in_range;
          unfold GoInt.in_range, GoInt.min_int; lia.
      * lia.
      * exact Hlt.
      * rewrite !length_app in *. cbn [length] in *. lia.
    + apply IH in Hrun; cbn [st_total st_batch st_calls] in *.
      2:{ rewrite length_app. cbn [length]. lia. }
      destruct Hrun as (k & Hlog & Hsrc & Hdst & Hbatch & Htotal & Hcalls & Hlt & Hle).
      exists k. rewrite <- app_assoc in Hdst, Hbatch, Hle. cbn [app] in *.
      repeat split; assumption.
Qed.

(** A [return] from inside the loop: after [k] full batches went
    through, either a document failed to decode, or the insert of the
    next full batch failed. *)
Lemma copy_loop_returns docs : forall i st w count err w',
  loop_inv batchSize docs st ->
  copy_loop env coll batchSize i docs st w = inl ((count, err), w') ->
  exists k : nat,
    count = st_total st + batchSize * Z.of_nat k /\
    source w' = source w /\
    (k * Z.to_nat batchSize <= length (stream docs st))%nat /\
    ((exists e,
        err = Some (ErrWrap "failed to decode document" (ErrDriver e)) /\
        oplog w' = oplog w ++ replicate k (full_insert coll batchSize) /\
        dest w' = store coll (take (k * Z.to_nat batchSize) (stream docs st)) (dest w))
     \/
     (exists f,
        err = Some (ErrWrap "failed to insert batch" (ErrDriver (insert_error f))) /\
        insert_fault env (st_calls st + k) = Some f /\
        oplog w' = oplog w ++ replicate k (full_insert coll batchSize)
                     ++ [EvInsertMany coll (Z.to_nat batchSize) false] /\
        dest w' =
          store coll
            (accepted (rejected f) 0
               (take (Z.to_nat batchSize)
                  (drop (k * Z.to_nat batchSize) (stream docs st))))
            (store coll (take (k * Z.to_nat batchSize) (stream docs st)) (dest w)))).
Proof.
  unfold loop_inv, stream, GoInt.len.
  induction docs as [|raw rest IH]; intros i st w count err w' (Htot & Hlen & Hmax) Hrun;
    cbn [copy_loop] in Hrun; [discriminate|].
  destruct (doc_decode_fault env i) as [e|].
  { injection Hrun as <- <- <-. exists 0%nat.
    cbn [replicate Nat.mul take]. rewrite Z.mul_0_r, Z.add_0_r, app_nil_r.
    repeat split; try done; [lia|]. left. by exists e. }
  cbn zeta in Hrun. unfold GoInt.len in Hrun.
  rewrite length_app in Hrun. cbn [length] in Hrun, Hmax.
  destruct (Z.leb_spec batchSize (Z.of_nat (length (st_batch st) + 1))) as [Hfull|Hshort].
  - assert (Hsize : length (st_batch st ++ [decodeM raw]) = Z.to_nat batchSize)
      by (rewrite length_app; cbn [length]; lia).
    replace (st_batch st ++ (decodeM <$> (raw :: rest)))
      with ((st_batch st ++ [decodeM raw]) ++ (decodeM <$> rest))
      by (by rewrite <- app_assoc).
    destruct (insert_fault env (st_calls st)) as [f|] eqn:Hf.
    + rewrite (InsertMany_fails _ _ _ _ _ _ Hf) in Hrun.
      injection Hrun as <- <- <-. exists 0%nat.
      cbn [replicate Nat.mul app source dest oplog].
      rewrite Z.mul_0_r, Z.add_0_r, Nat.add_0_r, take_0, drop_0, store_nil.
      repeat split; try done; [lia|]. right. exists f.
      rewrite <- Hsize at 2. rewrite take_app_length, Hsize. done.
    + rewrite (InsertMany_ok _ _ _ _ _ Hf) in Hrun.
      apply IH in Hrun; cbn [st_total st_batch st_calls length] in *.
      2:{ rewrite add_in_range; unfold GoInt.in_range, GoInt.min_int; lia. }
      destruct Hrun as (k & Hcount & Hsrc & Hle & Hcase).
      cbn [source dest oplog app] in *. rewrite Hsize in Hcase.
      exists (S k).
      replace (S k * Z.to_nat batchSize)%nat
        with (length (st_batch st ++ [decodeM raw]) + k * Z.to_nat batchSize)%nat
        by (rewrite Hsize; lia).
      rewrite take_app_add, drop_app_add.
      split; [|split; [exact Hsrc|split]].
      * rewrite Hcount, add_in_range;
          unfold GoInt.in_range, GoInt.min_int; lia.
      * rewrite !length_app in *. cbn [length] in *. lia.
      * destruct Hcase as [(e & -> & Hlog & Hdst)|(f & -> & Hflt & Hlog & Hdst)].
        -- left. exists e. split; [done|]. split.
           ++ rewrite Hlog, <- app_assoc. reflexivity.
           ++ rewrite Hdst, store_store. reflexivity.
        -- right. exists f. split; [done|]. split; [|split].
           ++ rewrite <- Hflt. f_equal. lia.
           ++ rewrite Hlog, <- app_assoc. reflexivity.
           ++ rewrite Hdst. f_equal. apply store_store.
  - apply IH in Hrun; cbn [st_total st_batch st_calls] in *.
    2:{ rewrite length_app. cbn [length]. lia. }
    rewrite <- app_assoc in Hrun. exact Hrun.
Qed.

End CopyLoop.

(** ** The phases of transferCollection *)

(** [transferCollection] is the preparation followed by the document phase. *)
Lemma transferCollection_phases env collectionName batchSize overwrite w :
  transferCollection env collectionName batchSize overwrite w =
    match prepare_destination env collectionName overwrite w with
    | inl returned => returned
    | inr w1 => copy_documents env collectionName (effective_batch batchSize) w1
    end.
Proof.
  unfold transferCollection, prepare_destination, copy_documents,
    stream_documents, flush_and_finish, effective_batch.
  destruct (ListCollectionNames env collectionName w) as [[e|collections] w1]; [done|].
  destruct (_ && negb _); [done|].
  destruct (getCollectionIndexes env collectionName w1) as [[e|indexes] w2]; [done|].
  destruct (if _ && overwrite then _ else _) as [[e|] w3]; [done|].
  destruct (if (0 <? length indexes)%nat then _ else _) as [[e|] w4]; [done|].
  destruct (CountDocuments env collectionName w4) as [[e|count] w5]; [done|].
  destruct (count =? 0); [done|].
  destruct (Find env collectionName w5) as [[e|[docs cursor_err]] w6]; [done|].
  destruct (copy_loop _ _ _ _ _ _ _) as [returned|[st w7]]; [done|].
  reflexivity.
Qed.

(** The loop and the flush behave as [streamed] says, as long as the
    number of delivered documents fits a Go [int]. *)
Lemma stream_documents_streamed env coll B docs cursor_err w count err w' :
  0 < B ->
  GoInt.len docs <= GoInt.max_int ->
  stream_documents env coll B docs cursor_err w = ((count, err), w') ->
  exists evs stored,
    oplog w' = oplog w ++ evs /\
    source w' = source w /\
    dest w' = store coll stored (dest w) /\
    streamed coll B (decodeM <$> docs) cursor_err evs stored count err.
Proof.
  intros HB Hmax. unfold stream_documents.
  set (st0 := {| st_total := 0; st_batch := []; st_calls := 0 |}).
  assert (Hinv : loop_inv B docs st0).
  { unfold loop_inv, GoInt.len. cbn. unfold GoInt.len in Hmax. lia. }
  assert (Hall : stream docs st0 = decodeM <$> docs) by reflexivity.
  destruct (copy_loop env coll B 0 docs st0 w) as [[[c e] w1]|[st w1]] eqn:Hloop.
  - intros [= -> -> ->].
    destruct (copy_loop_returns env coll B HB docs _ _ _ _ _ _ Hinv Hloop)
      as (k & -> & Hsrc & Hle & Hcase).
    rewrite Hall in *. cbn [st_total st_calls] in *. rewrite Z.add_0_l.
    destruct Hcase as [(de & -> & Hlog & Hdst)|(f & -> & _ & Hlog & Hdst)].
    + eexists _, _. repeat split; [exact Hlog|exact Hsrc|exact Hdst|].
      by apply streamed_decode_fails.
    + rewrite store_store in Hdst.
      eexists _, _. repeat split; [exact Hlog|exact Hsrc|exact Hdst|].
      by apply streamed_batch_fails.
  - destruct (copy_loop_falls_out env coll B HB docs _ _ _ _ _ Hinv Hloop)
      as (k & Hlog & Hsrc & Hdst & Hbatch & Htotal & _ & Hlt & Hle).
    rewrite Hall in *. cbn [st_total] in Htotal. rewrite Z.add_0_l in Htotal.
    set (all := decodeM <$> docs) in *.
    assert (Hlen : length all = length docs) by apply length_fmap.
    set (r := length (st_batch st)).
    assert (Hr : length all = (k * Z.to_nat B + r)%nat).
    { unfold r. rewrite Hbatch, length_drop. lia. }
    assert (HrB : (r < Z.to_nat B)%nat) by (unfold GoInt.len in Hlt; lia).
    unfold flush_and_finish, GoInt.len. fold r.
    destruct (Z.ltb_spec 0 (Z.of_nat r)) as [Hpos|Hzero].
    + destruct (insert_fault env (st_calls st)) as [f|] eqn:Hf.
      * rewrite (InsertMany_fails _ _ _ _ _ _ Hf). intros [= <- <- <-].
        cbn [source dest oplog]. fold r. rewrite Hdst, store_store, Hlog, Htotal, Hbatch.
        eexists _, _. repeat split; [by rewrite <- app_assoc|exact Hsrc|].
        apply (streamed_final_fails _ _ _ _ k r f); [exact Hr|lia].
      * rewrite (InsertMany_ok _ _ _ _ _ Hf).
        assert (Hcount : GoInt.add (st_total st) (Z.of_nat r) = Z.of_nat (length all)).
        { rewrite add_in_range; unfold GoInt.in_range, GoInt.min_int, GoInt.len in *;
            rewrite Htotal; nia. }
        assert (Hev : [EvInsertMany coll r true]
                      = if (0 <? r)%nat then [EvInsertMany coll r true] else []).
        { destruct (Nat.ltb_spec 0 r); [done|lia]. }
        rewrite Hcount.
        destruct cursor_err as [ce|]; intros [= <- <- <-];
          cbn [source dest oplog]; fold r;
          rewrite Hdst, store_store, Hlog, Hbatch, take_drop, Hev, <- app_assoc;
          eexists _, _; (repeat split; [exact Hsrc|]);
          match goal with
          | |- streamed _ _ _ ?c _ _ _ _ => exact (streamed_all coll B all c k r Hr HrB)
          end.
    + assert (Hr0 : r = 0%nat) by lia.
      assert (Hcount : st_total st = Z.of_nat (length all)).
      { rewrite Htotal, Hr, Hr0. nia. }
      assert (Hev : [] = if (0 <? r)%nat then [EvInsertMany coll r true] else [])
        by (by rewrite Hr0).
      rewrite Hcount.
      destruct cursor_err as [ce|]; intros [= <- <- <-];
        rewrite Hdst, Hlog, (take_ge all) by lia;
        rewrite <- (app_nil_r (replicate k _)), Hev;
        eexists _, _; (repeat split; [exact Hsrc|]);
        match goal with
        | |- streamed _ _ _ ?c _ _ _ _ => exact (streamed_all coll B all c k r Hr HrB)
        end.
Qed.

(** ** What the document phase does *)

Lemma cursor_run_length {A} fault (items delivered : list A) cursor_err :
  cursor_run fault items = (delivered, cursor_err) ->
  (length delivered <= length items)%nat.
Proof.
  unfold cursor_run. destruct fault as [[n e]|]; [|by intros [= <- <-]].
  destruct (n <=? length items)%nat; intros [= <- <-]; [|done].
  rewrite length_take. lia.
Qed.

Lemma cursor_run_prefix {A} fault (items delivered : list A) cursor_err :
  cursor_run fault items = (delivered, cursor_err) ->
  delivered = take (length delivered) items.
Proof.
  unfold cursor_run. destruct fault as [[n e]|];
    [destruct (Nat.leb_spec n (length items))|]; intros [= <- <-].
  - by rewrite length_take, Nat.min_l by lia.
  - by rewrite firstn_all.
  - by rewrite firstn_all.
Qed.

Lemma cursor_run_complete {A} fault (items delivered : list A) :
  cursor_run fault items = (delivered, None) -> delivered = items.
Proof.
  unfold cursor_run. destruct fault as [[n e]|]; [|by intros [= <-]].
  by destruct (n <=? length items)%nat; intros [= <-].
Qed.

(** The first documents of the decoded stream are the first documents of
    the collection. *)
Lemma delivered_prefix fault (docs delivered : list bdoc) cursor_err m :
  cursor_run fault docs = (delivered, cursor_err) ->
  (m <= length (decodeM <$> delivered))%nat ->
  take m (decodeM <$> delivered) = decodeM <$> take m docs.
Proof.
  intros Hcur Hm. rewrite length_fmap in Hm.
  rewrite <- fmap_take. rewrite (cursor_run_prefix _ _ _ _ Hcur) at 1.
  by rewrite take_take, Nat.min_l by lia.
Qed.

(** The document phase stops after the count (on a count error or an
    empty collection), after a failing [Find], or streams what the cursor
    delivers. *)
Lemma copy_documents_spec env coll B w count err w' :
  0 < B ->
  GoInt.len (documents_of coll w) <= GoInt.max_int ->
  copy_documents env coll B w = ((count, err), w') ->
  source w' = source w /\
  ((oplog w' = oplog w ++ [EvCountDocuments coll] /\ dest w' = dest w /\ count = 0 /\
    ((exists e, err = Some (ErrWrap "failed to count documents" (ErrDriver e)))
     \/ (documents_of coll w = [] /\ err = None)))
   \/
   (oplog w' = oplog w ++ [EvCountDocuments coll; EvFind coll] /\
    dest w' = dest w /\ count = 0 /\
    exists e, err = Some (ErrWrap "failed to execute find" (ErrDriver e)))
   \/
   (exists delivered cursor_err evs stored,
      documents_of coll w <> [] /\
      cursor_run (doc_cursor_fault env) (documents_of coll w) = (delivered, cursor_err) /\
      oplog w' = oplog w ++ [EvCountDocuments coll; EvFind coll] ++ evs /\
      dest w' = store coll stored (dest w) /\
      streamed coll B (decodeM <$> delivered) cursor_err evs stored count err)).
Proof.
  intros HB Hmax. unfold copy_documents, CountDocuments, Find.
  destruct (count_fault env) as [e|].
  { intros [= <- <- <-]. split; [done|]. left. repeat split. left. by exists e. }
  change (source_collection coll (emit (EvCountDocuments coll) w))
    with (source_collection coll w).
  fold (documents_of coll w).
  destruct (Z.eqb_spec (GoInt.len (documents_of coll w)) 0) as [Hzero|Hpos].
  { intros [= <- <- <-]. split; [done|]. left. repeat split. right.
    split; [|done]. unfold GoInt.len in Hzero. destruct (documents_of coll w); [done|].
    cbn in Hzero. lia. }
  destruct (find_fault env) as [e|].
  { intros [= <- <- <-]. split; [done|]. right. left.
    cbn [oplog emit]. rewrite <- app_assoc. repeat split. by exists e. }
  change (source_collection coll (emit (EvFind coll) (emit (EvCountDocuments coll) w)))
    with (source_collection coll w).
  fold (documents_of coll w).
  destruct (cursor_run (doc_cursor_fault env) (documents_of coll w))
    as [delivered cursor_err] eqn:Hcur.
  intros Hrun. apply stream_documents_streamed in Hrun; [|done|].
  2:{ apply cursor_run_length in Hcur. unfold GoInt.len in *. lia. }
  destruct Hrun as (evs & stored & Hlog & Hsrc & Hdst & Hstr).
  split; [exact Hsrc|]. right. right.
  exists delivered, cursor_err, evs, stored. repeat split; try done.
  - intros Hnil. rewrite Hnil in Hpos. by apply Hpos.
  - rewrite Hlog. cbn [oplog emit]. by rewrite <- !app_assoc.
Qed.

(** ** What the preparation of the destination does *)

(** Reading the indexes logs one call and changes nothing else. *)
Lemma getCollectionIndexes_eq env coll w :
  getCollectionIndexes env coll w = (index_read env coll w, emit (EvListIndexes coll) w).
Proof.
  unfold index_read, getCollectionIndexes.
  destruct (list_indexes_fault env); [done|].
  destruct (cursor_run _ _) as [items cursor_err].
  destruct (index_loop env 0 items []); [done|].
  by destruct cursor_err.
Qed.

Lemma index_read_same_source env coll w1 w2 :
  source w1 = source w2 -> index_read env coll w1 = index_read env coll w2.
Proof.
  unfold index_read, getCollectionIndexes, source_collection. cbn [emit source].
  intros ->. destruct (list_indexes_fault env); [done|].
  destruct (cursor_run _ _) as [items cursor_err].
  destruct (index_loop env 0 items []); [done|].
  by destruct cursor_err.
Qed.

(** Steps 1 to 5 end in one of the ways [prepared] lists. *)
Lemma prepare_destination_prepared env coll overwrite w :
  prepared env coll overwrite w (prepare_destination env coll overwrite w).
Proof.
  unfold prepare_destination, ListCollectionNames. cbn zeta. cbn [emit dest].
  destruct (list_collections_fault env) as [e|] eqn:Hlist.
  { by apply prepared_check_fails. }
  assert (Hdel : dest w !! coll = None -> delete coll (dest w) = dest w)
    by apply delete_id.
  destruct (dest w !! coll) as [c|] eqn:Hc; cbn [length Nat.ltb Nat.leb andb];
    destruct overwrite; cbn [negb andb].
  2:{ by apply prepared_conflict. }
  all: rewrite getCollectionIndexes_eq;
    rewrite (index_read_same_source env coll _ w) by reflexivity;
    destruct (index_read env coll w) as [e|indexes] eqn:Hread;
    [by apply prepared_read_fails|].
  all: unfold Drop, CreateMany; cbn [emit dest oplog source].
  1: destruct (drop_fault env) as [e|];
      [eapply prepared_drop_fails; eauto; cbn; by rewrite <- !app_assoc|].
  all: destruct indexes as [|index indexes]; cbn [length Nat.ltb Nat.leb].
  all: try (eapply prepared_ready; eauto; unfold drop_events;
            rewrite ?Hdel by done; rewrite ?Hc; cbn; by rewrite <- ?app_assoc).
  all: destruct (create_indexes_fault env) as [e|].
  all: try (eapply prepared_create_fails; eauto; unfold drop_events;
            rewrite ?Hdel by done; rewrite ?Hc; cbn; by rewrite <- ?app_assoc).
  all: eapply prepared_ready; eauto; unfold drop_events;
    rewrite ?Hdel by done; rewrite ?Hc; cbn; by rewrite <- ?app_assoc.
Qed.

(** ** The calls of the document phase, whatever the sizes *)

Lemma InsertMany_log env coll k batch w :
  exists ok, oplog (InsertMany env coll k batch w).2
             = oplog w ++ [EvInsertMany coll (length batch) ok].
Proof.
  unfold InsertMany. destruct (insert_fault env k); cbn; eauto.
Qed.

(** The loop only appends inserts to the log. *)
Lemma copy_loop_log env coll B docs : forall i st w,
  exists evs,
    oplog (result_world (copy_loop env coll B i docs st w)) = oplog w ++ evs /\
    forallb copy_event evs = true.
Proof.
  induction docs as [|raw rest IH]; intros i st w; cbn [copy_loop].
  { exists []. by rewrite app_nil_r. }
  destruct (doc_decode_fault env i).
  { exists []. by rewrite app_nil_r. }
  cbn zeta. destruct (B <=? _); [|apply IH].
  destruct (InsertMany_log env coll (st_calls st) (st_batch st ++ [decodeM raw]) w)
    as [ok Hlog].
  destruct (InsertMany _ _ _ _ _) as [[e|] w1]; cbn [snd] in Hlog.
  { exists [EvInsertMany coll (length (st_batch st ++ [decodeM raw])) ok]. by split. }
  edestruct IH as (evs & Hevs & Hall). rewrite Hevs, Hlog, <- app_assoc.
  eexists. split; [done|]. cbn. exact Hall.
Qed.

(** The document phase only appends counts, finds and inserts to the log. *)
Lemma copy_documents_log env coll B w :
  exists evs,
    oplog (copy_documents env coll B w).2 = oplog w ++ evs /\
    forallb copy_event evs = true.
Proof.
  unfold copy_documents, CountDocuments, Find, stream_documents, flush_and_finish.
  destruct (count_fault env).
  { by exists [EvCountDocuments coll]. }
  destruct (_ =? 0).
  { by exists [EvCountDocuments coll]. }
  destruct (find_fault env).
  { exists [EvCountDocuments coll; EvFind coll]. cbn. by rewrite <- app_assoc. }
  destruct (cursor_run _ _) as [docs cursor_err].
  match goal with
  | |- context [copy_loop env coll B 0 docs ?st ?w0] =>
      destruct (copy_loop_log env coll B docs 0 st w0) as (evs & Hevs & Hall);
      destruct (copy_loop env coll B 0 docs st w0) as [[[c e] w1]|[st1 w1]]
  end; cbn [result_world oplog emit] in Hevs.
  { exists (EvCountDocuments coll :: EvFind coll :: evs). cbn [snd].
    rewrite Hevs, <- !app_assoc. by split. }
  destruct (0 <? _).
  - destruct (InsertMany_log env coll (st_calls st1) (st_batch st1) w1) as [ok Hlog].
    exists (EvCountDocuments coll :: EvFind coll :: evs
              ++ [EvInsertMany coll (length (st_batch st1)) ok]).
    split; [|cbn; rewrite forallb_app, Hall; done].
    destruct (InsertMany _ _ _ _ _) as [[e|] w2]; cbn [snd] in *;
      [|destruct cursor_err]; cbn [snd]; rewrite Hlog, Hevs, <- !app_assoc; done.
  - exists (EvCountDocuments coll :: EvFind coll :: evs).
    split; [|done].
    destruct cursor_err; cbn [snd]; rewrite Hevs, <- !app_assoc; done.
Qed.

Lemma documents_inserted_app evs evs' :
  documents_inserted (evs ++ evs')
  = (documents_inserted evs + documents_inserted evs')%nat.
Proof.
  induction evs as [|[| | | | | |c n []] evs IH]; cbn; lia.
Qed.

Lemma documents_inserted_replicate coll B k :
  documents_inserted (replicate k (full_insert coll B)) = (k * Z.to_nat B)%nat.
Proof. induction k as [|k IH]; cbn; lia. Qed.

Lemma failed_insert_replicate coll B k :
  forallb (fun e => negb (is_failed_insert e)) (replicate k (full_insert coll B)) = true.
Proof. by induction k. Qed.

(** ** The calls of a whole transfer *)

(** The calls of a transfer: the existence check alone; or the existence
    check and a failed index read; or the existence check, the index read,
    the drop if there is one, and calls none of which is a drop. *)
Lemma transfer_log env coll batchSize overwrite w :
  let r := transferCollection env coll batchSize overwrite w in
  source r.2 = source w /\
  ((issued w r.2 = [EvListCollectionNames coll] /\
    dest r.2 = dest w /\ r.1.1 = 0 /\ r.1.2 <> None)
   \/
   (exists e, index_read env coll w = inl e /\
      issued w r.2 = [EvListCollectionNames coll; EvListIndexes coll] /\
      dest r.2 = dest w /\ r.1.1 = 0 /\ r.1.2 <> None)
   \/
   (exists indexes tail, index_read env coll w = inr indexes /\
      issued w r.2 =
        EvListCollectionNames coll :: EvListIndexes coll
          :: drop_events coll overwrite w ++ tail /\
      forallb (fun e => negb (is_drop e)) tail = true)).
Proof.
  cbn zeta. rewrite transferCollection_phases.
  pose proof (prepare_destination_prepared env coll overwrite w) as Hprep.
  remember (prepare_destination env coll overwrite w) as r eqn:Hr. clear Hr.
  destruct Hprep as [e Hlist|Hlist Hex Hov|e Hlist Hread|indexes e w' Hread Hex Hov Hsrc Hdst Hlog
                    |indexes e w' Hread Hsrc Hdst Hlog|indexes w' Hlist Hread Hsrc Hdst Hlog];
    cbn [fst snd].
  - split; [done|]. left. rewrite (issued_app w _ [EvListCollectionNames coll]) by done. done.
  - split; [done|]. left. rewrite (issued_app w _ [EvListCollectionNames coll]) by done. done.
  - split; [done|]. right. left. exists e.
    rewrite (issued_app w _ [EvListCollectionNames coll; EvListIndexes coll])
      by (cbn; by rewrite <- app_assoc). done.
  - split; [done|]. right. right. exists indexes, [].
    rewrite (issued_app _ _ _ Hlog). unfold drop_events.
    destruct Hex as [c ->]. rewrite Hov. done.
  - split; [done|]. right. right.
    exists indexes, [EvCreateMany coll (in_background <$> indexes)].
    rewrite (issued_app _ _ _ Hlog). done.
  - destruct (copy_documents_log env coll (effective_batch batchSize) w') as (evs & Hevs & Hall).
    assert (Hsrc' : source (copy_documents env coll (effective_batch batchSize) w').2
                    = source w').
    { unfold copy_documents, CountDocuments, Find, stream_documents, flush_and_finish.
      destruct (count_fault env); [done|]. destruct (_ =? 0); [done|].
      destruct (find_fault env); [done|]. destruct (cursor_run _ _) as [docs cursor_err].
      match goal with
      | |- context [copy_loop env coll ?B 0 docs ?st ?w0] =>
          assert (Hloop : source (result_world (copy_loop env coll B 0 docs st w0)) = source w');
          [|destruct (copy_loop env coll B 0 docs st w0) as [[[c0 e0] w1]|[st1 w1]]]
      end.
      { generalize 0%nat at 1. generalize {| st_total := 0; st_batch := []; st_calls := 0 |}.
        change (source w') with
          (source (emit (EvFind coll) (emit (EvCountDocuments coll) w'))).
        generalize (emit (EvFind coll) (emit (EvCountDocuments coll) w')).
        induction docs as [|raw rest IH]; intros w0 st i; cbn [copy_loop result_world]; [done|].
        destruct (doc_decode_fault env i); [done|]. cbn zeta.
        destruct (_ <=? _); [|apply IH].
        unfold InsertMany. destruct (insert_fault env (st_calls st)); [done|].
        rewrite IH. done. }
      { done. }
      cbn [result_world] in Hloop. unfold InsertMany.
      destruct (0 <? _); [destruct (insert_fault env (st_calls st1))|];
        by destruct cursor_err. }
    split; [by rewrite Hsrc'|]. right. right.
    set (created := match indexes with
                    | [] => []
                    | _ => [EvCreateMany coll (in_background <$> indexes)]
                    end) in *.
    exists indexes, (created ++ evs). split; [done|].
    split.
    { apply issued_app. rewrite Hevs, Hlog, <- !app_assoc. done. }
    rewrite forallb_app. apply andb_true_intro. split.
    + unfold created. by destruct indexes.
    + clear -Hall. induction evs as [|ev evs IH]; [done|].
      cbn in *. apply andb_prop in Hall as [Hev Hall]. rewrite (IH Hall).
      by destruct ev.
Qed.

(** Where a drop can stand in the calls of a transfer. *)
Lemma drop_position coll c dropev tail pre post :
  EvListCollectionNames coll :: EvListIndexes coll :: dropev ++ tail
    = pre ++ EvDrop c :: post ->
  dropev = [] \/ dropev = [EvDrop coll] ->
  forallb (fun e => negb (is_drop e)) tail = true ->
  dropev = [EvDrop coll] /\
  pre = [EvListCollectionNames coll; EvListIndexes coll] /\ c = coll.
Proof.
  intros Heq Hdrop Htail.
  assert (Hno : forall l1 l2, tail <> l1 ++ EvDrop c :: l2).
  { intros l1 l2 ->. rewrite forallb_app in Htail. cbn in Htail.
    by rewrite andb_false_r in Htail. }
  destruct pre as [|a [|b pre]]; [done|done|].
  injection Heq as <- <- Heq.
  destruct Hdrop as [->| ->]; cbn in Heq.
  - by apply Hno in Heq.
  - destruct pre as [|x pre]; cbn in Heq.
    + by injection Heq as <- _.
    + injection Heq as _ Heq. by apply Hno in Heq.
Qed.

(** * Sample runs *)

Example sample_fresh_transfer :
  (transferCollection no_faults "users" 2 false Sample.fresh).1 = (3, None).
Proof. vm_compute. reflexivity. Qed.

Example sample_fresh_transfer_calls :
  issued Sample.fresh (transferCollection no_faults "users" 2 false Sample.fresh).2
  = [EvListCollectionNames "users"; EvListIndexes "users";
     EvCreateMany "users"
       [{| Keys := [("email", GInt32 1)];
           Options := Some (SetBackground true (SetUnique true options_Index)) |}];
     EvCountDocuments "users"; EvFind "users";
     EvInsertMany "users" 2 true; EvInsertMany "users" 1 true].
Proof. vm_compute. reflexivity. Qed.

Example sample_overwrite_transfer_calls :
  List.filter is_mutation
    (issued Sample.occupied (transferCollection no_faults "users" 0 true Sample.occupied).2)
  = [EvDrop "users";
     EvCreateMany "users"
       [{| Keys := [("email", GInt32 1)];
           Options := Some (SetBackground true (SetUnique true options_Index)) |}];
     EvInsertMany "users" 3 true].
Proof. vm_compute. reflexivity. Qed.

(** The scenario of the specification: 150 documents in batches of 50
    are three inserts of 50; the empty collection is a success with count
    0; the total is 150. *)
Example sample_scenario :
  fst <$> runTransfer run_ok Sample.interleaved
            (Sample.params ["users"; "orders"] 50 false) 2 Sample.shop
  = Some ({| CollectionResults :=
               [{| CollectionName := "orders"; DocumentsCount := 0;
                   Success := true; ErrorMessage := EmptyString |};
                {| CollectionName := "users"; DocumentsCount := 150;
                   Success := true; ErrorMessage := EmptyString |}];
             OverallSuccess := true;
             TotalDocuments := 150 |}, None).
Proof. vm_compute. reflexivity. Qed.

Example sample_scenario_inserts :
  List.filter is_insert
    (issued Sample.shop (transferCollection no_faults "users" 50 false Sample.shop).2)
  = [EvInsertMany "users" 50 true; EvInsertMany "users" 50 true;
     EvInsertMany "users" 50 true].
Proof. vm_compute. reflexivity. Qed.

(** * The claims about one collection transfer *)

(** C4 (conflict atomicity): when the destination has a collection of the
    given name and the overwrite flag is false, [transferCollection]
    returns zero documents and an error, which is the "already exists and
    overwrite is not enabled" error whenever the existence check itself
    answers; the only driver call is that existence check, and the source
    and the destination are left as they were: no drop, no index creation,
    no insert. *)
Theorem conflict_atomicity env collectionName batchSize w :
  is_Some (dest w !! collectionName) ->
  let r := transferCollection env collectionName batchSize false w in
  r.1.1 = 0 /\
  r.1.2 <> None /\
  (list_collections_fault env = None ->
   r.1.2 = Some (conflict_error collectionName)) /\
  issued w r.2 = [EvListCollectionNames collectionName] /\
  dest r.2 = dest w /\
  source r.2 = source w.
Proof.
  intros [c Hc]. unfold transferCollection, ListCollectionNames.
  cbn zeta. cbn [emit dest].
  destruct (list_collections_fault env) as [e|]; cbn [fst snd].
  - repeat split; try done. by apply issued_app.
  - rewrite Hc. cbn. repeat split; try done. by apply issued_app.
Qed.

Lemma conflict_atomicity_witness :
  is_Some (dest Sample.occupied !! "users") /\
  let r := transferCollection no_faults "users" 2 false Sample.occupied in
  r.1.1 = 0 /\
  r.1.2 <> None /\
  (list_collections_fault no_faults = None ->
   r.1.2 = Some (conflict_error "users")) /\
  issued Sample.occupied r.2 = [EvListCollectionNames "users"] /\
  dest r.2 = dest Sample.occupied /\
  source r.2 = source Sample.occupied.
Proof.
  assert (H : is_Some (dest Sample.occupied !! "users"))
    by (eexists; vm_compute; reflexivity).
  split; [exact H|].
  exact (conflict_atomicity no_faults "users" 2 Sample.occupied H).
Defined.

(** C5 (read before drop): in the calls of a collection transfer, a drop
    of the destination collection is immediately preceded by the existence
    check and the source index read, which succeeded; it happens only with
    the overwrite flag set and the destination collection present.  When
    the index read fails, the transfer returns zero documents and an error
    without any call that changes the destination. *)
Theorem read_before_drop env collectionName batchSize overwrite w :
  let r := transferCollection env collectionName batchSize overwrite w in
  (forall pre post c,
     issued w r.2 = pre ++ EvDrop c :: post ->
     c = collectionName /\
     pre = [EvListCollectionNames collectionName; EvListIndexes collectionName] /\
     (exists indexes, index_read env collectionName w = inr indexes) /\
     overwrite = true /\
     is_Some (dest w !! collectionName))
  /\
  (forall e,
     index_read env collectionName w = inl e ->
     r.1.1 = 0 /\
     r.1.2 <> None /\
     forallb (fun ev => negb (is_mutation ev)) (issued w r.2) = true /\
     dest r.2 = dest w).
Proof.
  cbn zeta.
  destruct (transfer_log env collectionName batchSize overwrite w)
    as (_ & [(Hlog & Hdst & Hcount & Herr)
            |[(e & Hread & Hlog & Hdst & Hcount & Herr)
             |(indexes & tail & Hread & Hlog & Htail)]]).
  - split.
    + intros [|a [|b pre]] post c Heq; rewrite Hlog in Heq; done.
    + intros _ _. by rewrite Hlog.
  - split.
    + intros [|a [|b [|x pre]]] post c Heq; rewrite Hlog in Heq; done.
    + intros _ _. by rewrite Hlog.
  - split.
    + intros pre post c Heq. rewrite Hlog in Heq.
      assert (Hcases : drop_events collectionName overwrite w = [] \/
                       drop_events collectionName overwrite w = [EvDrop collectionName]).
      { unfold drop_events. destruct (dest w !! collectionName); [|by left].
        destruct overwrite; [by right|by left]. }
      destruct (drop_position _ _ _ _ _ _ Heq Hcases Htail) as (Hdrop & -> & ->).
      repeat split; [by exists indexes|..]; unfold drop_events in Hdrop;
        destruct (dest w !! collectionName); try done; by destruct overwrite.
    + intros e He. congruence.
Qed.

Lemma read_before_drop_witness :
  let r := transferCollection no_faults "users" 2 true Sample.occupied in
  let r' := transferCollection Sample.index_list_fails "users" 2 true Sample.occupied in
  (issued Sample.occupied r.2
   = [EvListCollectionNames "users"; EvListIndexes "users"]
       ++ (EvDrop "users" :: Sample.calls_after_drop)) /\
  ("users" = "users" /\
   [EvListCollectionNames "users"; EvListIndexes "users"]
   = [EvListCollectionNames "users"; EvListIndexes "users"] /\
   (exists indexes, index_read no_faults "users" Sample.occupied = inr indexes) /\
   true = true /\
   is_Some (dest Sample.occupied !! "users")) /\
  (index_read Sample.index_list_fails "users" Sample.occupied
   = inl (ErrWrap "failed to list indexes" (ErrDriver "not authorized"))) /\
  (r'.1.1 = 0 /\
   r'.1.2 <> None /\
   forallb (fun ev => negb (is_mutation ev)) (issued Sample.occupied r'.2) = true /\
   dest r'.2 = dest Sample.occupied).
Proof.
  cbn zeta.
  assert (H1 : issued Sample.occupied
                 (transferCollection no_faults "users" 2 true Sample.occupied).2
               = [EvListCollectionNames "users"; EvListIndexes "users"]
                   ++ EvDrop "users" :: Sample.calls_after_drop)
    by (vm_compute; reflexivity).
  assert (H2 : index_read Sample.index_list_fails "users" Sample.occupied
               = inl (ErrWrap "failed to list indexes" (ErrDriver "not authorized")))
    by (vm_compute; reflexivity).
  split; [exact H1|]. split.
  - exact (proj1 (read_before_drop no_faults "users" 2 true Sample.occupied) _ _ _ H1).
  - split; [exact H2|].
    exact (proj2 (read_before_drop Sample.index_list_fails "users" 2 true Sample.occupied)
             _ H2).
Defined.

(** C10 (the overwrite flag does not interfere without a conflict): when
    the destination has no collection of the given name,
    [transferCollection] returns the same count and error and leaves the
    same world behind, calls included, whether the overwrite flag is true
    or false; and in neither run is there a drop among the calls. *)
Theorem overwrite_noninterference env collectionName batchSize w :
  dest w !! collectionName = None ->
  transferCollection env collectionName batchSize true w
  = transferCollection env collectionName batchSize false w /\
  forall overwrite,
    forallb (fun e => negb (is_drop e))
      (issued w (transferCollection env collectionName batchSize overwrite w).2)
    = true.
Proof.
  intros Hnone. split.
  - unfold transferCollection, ListCollectionNames.
    cbn zeta. cbn [emit dest].
    destruct (list_collections_fault env) as [e|]; [done|].
    rewrite Hnone. reflexivity.
  - intros overwrite.
    destruct (transfer_log env collectionName batchSize overwrite w)
      as (_ & [(Hlog & _)|[(e & _ & Hlog & _)|(indexes & tail & _ & Hlog & Htail)]]);
      rewrite Hlog; [done|done|].
    unfold drop_events. rewrite Hnone. exact Htail.
Qed.

Lemma overwrite_noninterference_witness :
  dest Sample.fresh !! "users" = None /\
  transferCollection Sample.second_insert_fails "users" 2 true Sample.fresh
  = transferCollection Sample.second_insert_fails "users" 2 false Sample.fresh.
Proof.
  assert (H : dest Sample.fresh !! "users" = None) by (vm_compute; reflexivity).
  split; [exact H|].
  exact (proj1 (overwrite_noninterference Sample.second_insert_fails "users" 2
                  Sample.fresh H)).
Defined.

(** ** Counting inserts *)

Lemma quiet_app evs evs' : quiet evs -> quiet evs' -> quiet (evs ++ evs').
Proof. unfold quiet. rewrite List.filter_app. by intros -> ->. Qed.

Lemma quiet_drop_events coll overwrite w : quiet (drop_events coll overwrite w).
Proof. unfold drop_events. destruct (dest w !! coll); by destruct overwrite. Qed.

Lemma quiet_documents_inserted evs : quiet evs -> documents_inserted evs = 0%nat.
Proof.
  unfold quiet. induction evs as [|[] evs IH]; cbn; try done; auto.
Qed.

Lemma quiet_not_failed evs :
  quiet evs -> forallb (fun ev => negb (is_failed_insert ev)) evs = true.
Proof.
  unfold quiet. induction evs as [|[] evs IH]; cbn; try done; auto.
Qed.

Lemma filter_insert_replicate coll B k :
  List.filter is_insert (replicate k (full_insert coll B))
  = replicate k (full_insert coll B).
Proof. induction k as [|k IH]; cbn; [done|]. by rewrite IH. Qed.

Lemma not_failed_elem evs c n :
  forallb (fun ev => negb (is_failed_insert ev)) evs = true ->
  EvInsertMany c n false ∉ evs.
Proof.
  intros Hall Hin. rewrite forallb_forall in Hall.
  apply list_elem_of_In, Hall in Hin. done.
Qed.

Lemma failed_insert_last pre c n c' n' :
  forallb (fun ev => negb (is_failed_insert ev)) pre = true ->
  EvInsertMany c n false ∈ pre ++ [EvInsertMany c' n' false] ->
  c = c' /\ n = n'.
Proof.
  intros Hall [Hin|Hin]%elem_of_app.
  - by apply not_failed_elem in Hin.
  - apply list_elem_of_singleton in Hin. by injection Hin as -> ->.
Qed.

Lemma effective_batch_pos batchSize : 0 < effective_batch batchSize.
Proof. unfold effective_batch. destruct (Z.leb_spec batchSize 0); lia. Qed.

(** [ceil] of a division with known quotient and remainder. *)
Lemma ceil_div_split B k r :
  0 < B -> 0 <= k -> 0 <= r < B ->
  ceil_div (B * k + r) B = k + (if 0 <? r then 1 else 0).
Proof.
  intros HB Hk Hr. unfold ceil_div.
  destruct (Z.ltb_spec 0 r).
  - symmetry. apply (Z.div_unique_pos _ _ _ (r - 1)); lia.
  - symmetry. apply (Z.div_unique_pos _ _ _ (B - 1)); lia.
Qed.

(** The calls of steps 1 to 5 contain no insert. *)
Lemma quiet_prelude coll overwrite w (created : list Event) :
  quiet created ->
  quiet ([EvListCollectionNames coll; EvListIndexes coll]
           ++ drop_events coll overwrite w ++ created).
Proof.
  intros Hc. apply quiet_app; [done|]. apply quiet_app; [apply quiet_drop_events|done].
Qed.

Lemma documents_of_same_source coll w w' :
  source w' = source w -> documents_of coll w' = documents_of coll w.
Proof. unfold documents_of, source_collection. by intros ->. Qed.

(** A transfer either issues no insert and returns zero documents, or it
    streams the documents the cursor delivers. *)
Lemma transfer_cases env coll batchSize overwrite w :
  GoInt.len (documents_of coll w) <= GoInt.max_int ->
  let r := transferCollection env coll batchSize overwrite w in
  (quiet (issued w r.2) /\ r.1.1 = 0 /\
   (r.1.2 = None -> documents_of coll w = []))
  \/
  (exists prefix delivered cursor_err evs stored d0,
     quiet prefix /\
     documents_of coll w <> [] /\
     cursor_run (doc_cursor_fault env) (documents_of coll w) = (delivered, cursor_err) /\
     issued w r.2 = prefix ++ evs /\
     dest r.2 = store coll stored d0 /\
     streamed coll (effective_batch batchSize) (decodeM <$> delivered) cursor_err
       evs stored r.1.1 r.1.2).
Proof.
  intros Hmax. cbn zeta. rewrite transferCollection_phases.
  pose proof (prepare_destination_prepared env coll overwrite w) as Hprep.
  remember (prepare_destination env coll overwrite w) as r eqn:Hr. clear Hr.
  destruct Hprep as [e Hlist|Hlist Hex Hov|e Hlist Hread|indexes e w' Hread Hex Hov Hsrc Hdst Hlog
                    |indexes e w' Hread Hsrc Hdst Hlog|indexes w' Hlist Hread Hsrc Hdst Hlog];
    cbn [fst snd].
  - left. rewrite (issued_app w _ [EvListCollectionNames coll]) by done. done.
  - left. rewrite (issued_app w _ [EvListCollectionNames coll]) by done. done.
  - left. rewrite (issued_app w _ [EvListCollectionNames coll; EvListIndexes coll])
      by (cbn; by rewrite <- app_assoc). done.
  - left. rewrite (issued_app _ _ _ Hlog). done.
  - left. rewrite (issued_app _ _ _ Hlog). split; [|done].
    apply (quiet_prelude coll overwrite w [EvCreateMany coll (in_background <$> indexes)]).
    done.
  - set (created := match indexes with
                    | [] => []
                    | _ => [EvCreateMany coll (in_background <$> indexes)]
                    end) in *.
    set (prefix := [EvListCollectionNames coll; EvListIndexes coll]
                     ++ drop_events coll overwrite w ++ created) in *.
    assert (Hquiet : quiet prefix).
    { apply quiet_prelude. unfold created. by destruct indexes. }
    pose proof (documents_of_same_source coll w w' Hsrc) as Hdocs.
    destruct (copy_documents env coll (effective_batch batchSize) w')
      as [[count err] w''] eqn:Hcopy. cbn [fst snd].
    apply copy_documents_spec in Hcopy;
      [|apply effective_batch_pos|by rewrite Hdocs].
    rewrite Hdocs in Hcopy.
    destruct Hcopy as (_ & [(Hlog' & _ & -> & Herr)
                           |[(Hlog' & _ & -> & e & ->)
                            |(delivered & cursor_err & evs & stored & Hne & Hcur & Hlog' & Hdst' & Hstr)]]).
    + left. rewrite (issued_app w w'' (prefix ++ [EvCountDocuments coll]))
        by (rewrite Hlog', Hlog, <- app_assoc; done).
      split; [by apply quiet_app|]. split; [done|].
      destruct Herr as [(e & ->)|[Hnil _]]; done.
    + left. rewrite (issued_app w w'' (prefix ++ [EvCountDocuments coll; EvFind coll]))
        by (rewrite Hlog', Hlog, <- app_assoc; done).
      split; [by apply quiet_app|]. done.
    + right.
      exists (prefix ++ [EvCountDocuments coll; EvFind coll]), delivered, cursor_err, evs,
        stored, (dest w').
      split; [by apply quiet_app|]. split; [done|]. split; [done|].
      split; [|by split].
      apply issued_app. rewrite Hlog', Hlog, <- !app_assoc. done.
Qed.

(** C6 (batch arithmetic): a successful transfer of a collection of [D]
    documents with batch size [B] (100 when the given size is not
    positive) returns the count [D] and issues exactly [ceil(D / B)]
    [InsertMany] calls; for [D = 0] it issues none, and for [0 < D < B] it
    issues exactly one, which carries all [D] documents.  The [D] documents
    have been appended to the destination collection.  [D] is assumed to
    fit a Go [int]. *)
Theorem batch_arithmetic env collectionName batchSize overwrite w count w' :
  let D := GoInt.len (documents_of collectionName w) in
  let B := effective_batch batchSize in
  D <= GoInt.max_int ->
  transferCollection env collectionName batchSize overwrite w = ((count, None), w') ->
  count = D /\
  Z.of_nat (inserts_issued (issued w w')) = ceil_div D B /\
  (D = 0 -> List.filter is_insert (issued w w') = []) /\
  (0 < D < B ->
   List.filter is_insert (issued w w')
   = [EvInsertMany collectionName (Z.to_nat D) true]) /\
  (exists d0,
     dest w' = store collectionName (decodeM <$> documents_of collectionName w) d0).
Proof.
  intros D B Hmax Hrun.
  pose proof (effective_batch_pos batchSize) as HB. fold B in HB.
  destruct (transfer_cases env collectionName batchSize overwrite w Hmax)
    as [(Hquiet & Hcount & Hdocs)
       |(prefix & delivered & cursor_err & evs & stored & d0 & Hquiet & Hne & Hcur
         & Hlog & Hdst & Hstr)];
    rewrite Hrun in *; cbn [fst snd] in *.
  - assert (HD : D = 0) by (unfold D; by rewrite Hdocs).
    rewrite HD. unfold inserts_issued. rewrite Hquiet, Hdocs by done.
    split; [done|]. split; [|split; [done|split; [lia|by exists (dest w')]]].
    unfold ceil_div. cbn [length]. symmetry. apply Z.div_small. lia.
  - fold B in Hstr. rewrite Hlog.
    unfold inserts_issued. rewrite List.filter_app, Hquiet. cbn [app].
    inversion Hstr as [| | |k r Hlen Hr Hevs Hstored Hcnt Herr]; subst evs stored.
    destruct cursor_err as [e|]; [done|].
    apply cursor_run_complete in Hcur. subst delivered.
    rewrite length_fmap in Hlen.
    assert (HDk : D = B * Z.of_nat k + Z.of_nat r).
    { unfold D, GoInt.len. rewrite Hlen. lia. }
    rewrite List.filter_app, filter_insert_replicate, length_app, length_replicate.
    split; [by rewrite length_fmap|]. split; [|split; [|split]].
    + rewrite HDk, ceil_div_split by lia.
      destruct (Nat.ltb_spec 0 r), (Z.ltb_spec 0 (Z.of_nat r)); cbn; lia.
    + intros HD0. assert (k = 0%nat) by nia. assert (r = 0%nat) by nia. by subst.
    + intros HDB. assert (k = 0%nat) by nia. subst k.
      assert (r = Z.to_nat D) by lia. subst r.
      destruct (Nat.ltb_spec 0 (Z.to_nat D)); [done|lia].
    + by exists d0.
Qed.

Lemma batch_arithmetic_witness :
  let D := GoInt.len (documents_of "users" Sample.fresh) in
  let r := transferCollection no_faults "users" 2 false Sample.fresh in
  D <= GoInt.max_int /\
  r = ((3, None), r.2) /\
  3 = D /\
  Z.of_nat (inserts_issued (issued Sample.fresh r.2)) = ceil_div D (effective_batch 2).
Proof.
  cbn zeta.
  assert (H1 : GoInt.len (documents_of "users" Sample.fresh) <= GoInt.max_int)
    by (vm_compute; discriminate).
  assert (H2 : transferCollection no_faults "users" 2 false Sample.fresh
               = ((3, None), (transferCollection no_faults "users" 2 false Sample.fresh).2))
    by (vm_compute; reflexivity).
  split; [exact H1|]. split; [exact H2|].
  destruct (batch_arithmetic no_faults "users" 2 false Sample.fresh 3 _ H1 H2)
    as (Hcount & Hinserts & _).
  split; [exact Hcount|exact Hinserts].
Defined.

(** C3 (count returned when a batch insert fails): in a transfer in which
    an [InsertMany] fails, the failing call is the last call of the
    transfer, every insert before it stored a full batch, the returned
    count is the number of documents those inserts stored, that is, the
    batch size times their number, and the returned error is the insert
    error.  The first [count] documents of the collection have been
    appended to the destination collection, followed by whatever the
    server accepted of the failing batch.  The document count of the
    collection is assumed to fit a Go [int]. *)
Theorem failed_insert_count env collectionName batchSize overwrite w c n :
  let r := transferCollection env collectionName batchSize overwrite w in
  let B := effective_batch batchSize in
  GoInt.len (documents_of collectionName w) <= GoInt.max_int ->
  EvInsertMany c n false ∈ issued w r.2 ->
  exists pre e rest d0,
    issued w r.2 = pre ++ [EvInsertMany collectionName n false] /\
    List.filter is_insert pre
    = replicate (inserts_issued pre) (full_insert collectionName B) /\
    r.1.1 = Z.of_nat (documents_inserted pre) /\
    r.1.1 = B * Z.of_nat (inserts_issued pre) /\
    (r.1.2 = Some (ErrWrap "failed to insert batch" (ErrDriver e)) \/
     r.1.2 = Some (ErrWrap "failed to insert final batch" (ErrDriver e))) /\
    dest r.2
    = store collectionName
        ((decodeM <$> take (Z.to_nat r.1.1) (documents_of collectionName w)) ++ rest) d0.
Proof.
  intros r B Hmax Hin. subst r.
  pose proof (effective_batch_pos batchSize) as HB. fold B in HB.
  destruct (transfer_cases env collectionName batchSize overwrite w Hmax)
    as [(Hquiet & Hcount & Hdocs)
       |(prefix & delivered & cursor_err & evs & stored & d0 & Hquiet & Hne & Hcur
         & Hlog & Hdst & Hstr)].
  { apply quiet_not_failed in Hquiet. by apply not_failed_elem in Hin. }
  fold B in Hstr. rewrite Hlog in Hin |- *.
  assert (Hpre : forall k,
             forallb (fun ev => negb (is_failed_insert ev))
               (prefix ++ replicate k (full_insert collectionName B)) = true).
  { intros k. rewrite forallb_app, (quiet_not_failed _ Hquiet).
    apply failed_insert_replicate. }
  assert (Hfilter : forall k,
             List.filter is_insert (prefix ++ replicate k (full_insert collectionName B))
             = replicate k (full_insert collectionName B)).
  { intros k. by rewrite List.filter_app, Hquiet, filter_insert_replicate. }
  assert (Hdocs : forall k,
             documents_inserted (prefix ++ replicate k (full_insert collectionName B))
             = (k * Z.to_nat B)%nat).
  { intros k. by rewrite documents_inserted_app, (quiet_documents_inserted _ Hquiet),
      documents_inserted_replicate. }
  assert (Hnat : forall k : nat, Z.to_nat (B * Z.of_nat k) = (k * Z.to_nat B)%nat) by nia.
  inversion Hstr as [k e Hle Hevs Hstored Hcnt Herr
                    |k f Hle Hevs Hstored Hcnt Herr
                    |k r f Hlen Hr Hevs Hstored Hcnt Herr
                    |k r Hlen Hr Hevs Hstored Hcnt Herr]; subst evs.
  - by apply not_failed_elem in Hin.
  - rewrite app_assoc in Hin |- *.
    destruct (failed_insert_last _ _ _ _ _ (Hpre k) Hin) as [-> ->].
    eexists (prefix ++ replicate k (full_insert collectionName B)), (insert_error f), _, d0.
    unfold inserts_issued. rewrite Hfilter, Hdocs, length_replicate.
    repeat split; [lia|by left|].
    rewrite Hdst, <- Hstored, Hnat, (delivered_prefix _ _ _ _ _ Hcur Hle). done.
  - rewrite app_assoc in Hin |- *.
    destruct (failed_insert_last _ _ _ _ _ (Hpre k) Hin) as [-> ->].
    eexists (prefix ++ replicate k (full_insert collectionName B)), (insert_error f), _, d0.
    unfold inserts_issued. rewrite Hfilter, Hdocs, length_replicate.
    repeat split; [lia|by right|].
    rewrite Hdst, <- Hstored, Hnat, (delivered_prefix _ _ _ _ _ Hcur) by lia. done.
  - exfalso. revert Hin. apply not_failed_elem.
    rewrite app_assoc, forallb_app, Hpre. by destruct (0 <? r)%nat.
Qed.

Lemma failed_insert_count_witness :
  let r := transferCollection Sample.second_insert_fails "users" 2 false Sample.fresh in
  GoInt.len (documents_of "users" Sample.fresh) <= GoInt.max_int /\
  EvInsertMany "users" 1 false ∈ issued Sample.fresh r.2 /\
  exists pre e rest d0,
    issued Sample.fresh r.2 = pre ++ [EvInsertMany "users" 1 false] /\
    List.filter is_insert pre
    = replicate (inserts_issued pre) (full_insert "users" (effective_batch 2)) /\
    r.1.1 = Z.of_nat (documents_inserted pre) /\
    r.1.1 = effective_batch 2 * Z.of_nat (inserts_issued pre) /\
    (r.1.2 = Some (ErrWrap "failed to insert batch" (ErrDriver e)) \/
     r.1.2 = Some (ErrWrap "failed to insert final batch" (ErrDriver e))) /\
    dest r.2
    = store "users"
        ((decodeM <$> take (Z.to_nat r.1.1) (documents_of "users" Sample.fresh)) ++ rest) d0.
Proof.
  cbn zeta.
  assert (H1 : GoInt.len (documents_of "users" Sample.fresh) <= GoInt.max_int)
    by (vm_compute; discriminate).
  assert (H2 : EvInsertMany "users" 1 false
               ∈ issued Sample.fresh
                   (transferCollection Sample.second_insert_fails "users" 2 false
                      Sample.fresh).2).
  { apply list_elem_of_In. vm_compute. tauto. }
  split; [exact H1|]. split; [exact H2|].
  exact (failed_insert_count Sample.second_insert_fails "users" 2 false Sample.fresh
           "users" 1%nat H1 H2).
Defined.

(** * The worker pool *)

(** An outcome carries the name it was asked for, whatever the world. *)
Lemma TransferCollection_name env params collName w :
  CollectionName (TransferCollection env params collName w).1.1 = collName.
Proof.
  unfold TransferCollection.
  destruct (connectToMongoDB (connect_source env)); [done|].
  destruct (connectToMongoDB (connect_dest env)); [done|].
  destruct (transferCollection _ _ _ _ _) as [[count [err|]] w']; done.
Qed.

Lemma in_flight_receive ws i collName :
  ws !! i = Some Receiving ->
  in_flight (<[i := Transferring collName]> ws) ≡ₚ collName :: in_flight ws.
Proof.
  revert i. induction ws as [|s ws IH]; intros [|i] Hi; try done.
  - cbn in Hi. injection Hi as ->. done.
  - cbn in Hi. apply IH in Hi. destruct s; cbn; rewrite ?Hi; try done.
    apply perm_swap.
Qed.

Lemma in_flight_send ws i collName :
  ws !! i = Some (Transferring collName) ->
  in_flight ws ≡ₚ collName :: in_flight (<[i := Receiving]> ws).
Proof.
  revert i. induction ws as [|s ws IH]; intros [|i] Hi; try done.
  - cbn in Hi. injection Hi as ->. done.
  - cbn in Hi. apply IH in Hi. destruct s; cbn; rewrite ?Hi; try done.
    apply perm_swap.
Qed.

Lemma in_flight_return ws i :
  ws !! i = Some Receiving ->
  in_flight (<[i := Returned]> ws) = in_flight ws.
Proof.
  revert i. induction ws as [|s ws IH]; intros [|i] Hi; try done.
  - cbn in Hi. injection Hi as ->. done.
  - cbn in Hi. apply IH in Hi. destruct s; cbn; first [exact Hi|f_equal; exact Hi].
Qed.

Lemma moves_left_insert ws i s s' :
  ws !! i = Some s ->
  (workers_moves (<[i := s']> ws) + moves_left s
   = workers_moves ws + moves_left s')%nat.
Proof.
  revert i. induction ws as [|x ws IH]; intros [|i] Hi; try done.
  - cbn in Hi. injection Hi as ->.
    change (<[0%nat := s']> (s :: ws)) with (s' :: ws). cbn [workers_moves]. lia.
  - cbn in Hi. apply IH in Hi.
    change (<[S i := s']> (x :: ws)) with (x :: <[i := s']> ws).
    cbn [workers_moves]. lia.
Qed.

Lemma elem_of_insert_inv {A} (l : list A) i x y :
  x ∈ <[i := y]> l -> x = y \/ x ∈ l.
Proof.
  revert i. induction l as [|a l IH]; intros [|i]; cbn; try by right.
  - intros [->|Hin]%elem_of_cons; [by left|]. right. by apply elem_of_cons; right.
  - intros [->|Hin]%elem_of_cons; [right; by apply elem_of_cons; left|].
    destruct (IH _ Hin) as [->|Hl]; [by left|]. right. by apply elem_of_cons; right.
Qed.

(** A move keeps the invariant, makes exactly one step of progress and
    keeps the number of workers. *)
Lemma pool_step_inv params collections d p p' :
  pool_inv collections p ->
  pool_step params d p = Some p' ->
  pool_inv collections p' /\ pending p = S (pending p') /\
  length (workers p') = length (workers p).
Proof.
  intros [Hperm Hret]. destruct d as [workerId env]. unfold pool_step.
  destruct (workers p !! workerId) as [[|collName|]|] eqn:Hw; [| |done|done].
  - destruct (collectionCh p) as [|collName rest] eqn:Hch; intros [= <-];
      unfold pool_inv, pending, set_worker; cbn [collectionCh resultCh workers];
      rewrite ?Hch, length_insert.
    + pose proof (moves_left_insert _ _ _ Returned Hw) as Hsum.
      cbn [moves_left] in Hsum. rewrite in_flight_return by done.
      repeat split; [done|cbn [length]; lia].
    + pose proof (moves_left_insert _ _ _ (Transferring collName) Hw) as Hsum.
      cbn [moves_left] in Hsum. rewrite in_flight_receive by done.
      repeat split; [| |cbn [length]; lia].
      * rewrite <- Hperm. apply Permutation_app_head. cbn.
        by rewrite Permutation_middle.
      * intros [?|Hin]%elem_of_insert_inv; [done|]. by apply Hret in Hin.
  - pose proof (TransferCollection_name env params collName (pool_world p)) as Hname.
    destruct (TransferCollection env params collName (pool_world p)) as [[res err] w'].
    cbn [fst] in Hname. intros [= <-].
    unfold pool_inv, pending; cbn [collectionCh resultCh workers].
    rewrite length_insert.
    pose proof (moves_left_insert _ _ _ Receiving Hw) as Hsum. cbn [moves_left] in Hsum.
    repeat split; [| |lia].
    + rewrite fmap_app. cbn [fmap list_fmap]. rewrite Hname, <- Hperm.
      rewrite (in_flight_send _ _ _ Hw), <- !app_assoc. cbn.
      apply Permutation_app_head. done.
    + intros [?|Hin]%elem_of_insert_inv; [done|]. by apply Hret.
Qed.

Lemma pool_run_inv params collections sched : forall p p',
  pool_inv collections p ->
  pool_run params sched p = Some p' ->
  pool_inv collections p' /\ pending p = (length sched + pending p')%nat /\
  length (workers p') = length (workers p).
Proof.
  induction sched as [|d sched IH]; intros p p' Hinv; cbn [pool_run].
  - by intros [= <-].
  - destruct (pool_step params d p) as [p1|] eqn:Hstep; [|done].
    destruct (pool_step_inv _ _ _ _ _ Hinv Hstep) as (Hinv1 & Hpend & Hlen).
    intros Hrun. destruct (IH _ _ Hinv1 Hrun) as (Hinv' & Hpend' & Hlen').
    split; [done|]. cbn [length]. split; lia.
Qed.

(** Running a schedule in two parts. *)
Lemma pool_run_app params sched sched' p :
  pool_run params (sched ++ sched') p
  = match pool_run params sched p with
    | Some p1 => pool_run params sched' p1
    | None => None
    end.
Proof.
  revert p. induction sched as [|d sched IH]; intros p; cbn [pool_run app]; [done|].
  destruct (pool_step params d p); [apply IH|done].
Qed.

Lemma start_pool_inv collections workerCount w :
  pool_inv collections (start_pool collections workerCount w).
Proof.
  unfold pool_inv, start_pool. cbn [resultCh workers collectionCh fmap list_fmap app].
  assert (Hidle : forall n, in_flight (replicate n Receiving) = []
                            /\ Returned ∉ replicate n Receiving).
  { induction n as [|n [IH1 IH2]]; cbn; [split; [done|apply not_elem_of_nil]|].
    split; [done|]. by intros [?|?]%elem_of_cons. }
  destruct (Hidle (Z.to_nat workerCount)) as [-> Hnot]. done.
Qed.

Lemma start_pool_pending collections workerCount w :
  pending (start_pool collections workerCount w)
  = (2 * length collections + Z.to_nat workerCount)%nat.
Proof.
  unfold pending, start_pool. cbn [collectionCh workers]. f_equal.
  induction (Z.to_nat workerCount) as [|n IH]; cbn; [done|]. by rewrite IH.
Qed.

Lemma all_returned_spec ws :
  forallb is_returned ws = true ->
  in_flight ws = [] /\ workers_moves ws = 0%nat /\
  (ws <> [] -> Returned ∈ ws).
Proof.
  induction ws as [|[] ws IH]; cbn; try done.
  intros H. destruct (IH H) as (-> & -> & _).
  repeat split. intros _. by apply elem_of_cons; left.
Qed.

Lemma not_all_returned ws :
  forallb is_returned ws = false ->
  exists i s, ws !! i = Some s /\ s <> Returned.
Proof.
  induction ws as [|s ws IH]; cbn; [done|].
  destruct s; cbn.
  - intros _. by exists 0%nat, Receiving.
  - intros _. by exists 0%nat, (Transferring collName).
  - intros H. destruct (IH H) as (i & s & Hi & Hs). by exists (S i), s.
Qed.

(** From every state the pool can run until all workers have returned,
    whatever environment the transfers meet. *)
Lemma pool_can_finish params (env : Env) : forall n p,
  (pending p <= n)%nat ->
  exists sched p',
    pool_run params sched p = Some p' /\ all_returned p' = true.
Proof.
  induction n as [|n IH]; intros p Hn.
  - exists [], p. split; [done|]. unfold all_returned, pending in *.
    assert (Hsum : workers_moves (workers p) = 0%nat) by lia.
    clear -Hsum. induction (workers p) as [|[] ws IHws]; cbn in *; try done; try lia.
    apply IHws. lia.
  - destruct (all_returned p) eqn:Hall.
    { exists [], p. done. }
    destruct (not_all_returned _ Hall) as (i & s & Hi & Hs).
    assert (Hstep : exists p1, pool_step params (i, env) p = Some p1
                               /\ pending p = S (pending p1)).
    { unfold pool_step, pending. rewrite Hi. destruct s as [|collName|]; [| |done].
      - destruct (collectionCh p) as [|c rest] eqn:Hch; eexists; (split; [done|]);
          cbn [collectionCh workers set_worker length]; rewrite ?Hch; cbn [length].
        + pose proof (moves_left_insert _ _ _ Returned Hi) as Hsum.
          cbn [moves_left] in Hsum. lia.
        + pose proof (moves_left_insert _ _ _ (Transferring c) Hi) as Hsum.
          cbn [moves_left] in Hsum. lia.
      - destruct (TransferCollection env params collName (pool_world p)) as [[res err] w'].
        eexists. split; [done|]. cbn [collectionCh workers].
        pose proof (moves_left_insert _ _ _ Receiving Hi) as Hsum.
        cbn [moves_left] in Hsum. lia. }
    destruct Hstep as (p1 & Hstep & Hpend).
    destruct (IH p1 ltac:(lia)) as (sched & p' & Hrun & Hdone).
    exists ((i, env) :: sched), p'. cbn [pool_run]. by rewrite Hstep.
Qed.

(** * The claims about a run *)

Lemma wrap_add_wrap a b : GoInt.wrap (GoInt.wrap a + b) = GoInt.wrap (a + b).
Proof.
  unfold GoInt.wrap. f_equal.
  replace ((a + 2 ^ 63) mod 2 ^ 64 - 2 ^ 63 + b + 2 ^ 63)
    with ((a + 2 ^ 63) mod 2 ^ 64 + b) by lia.
  rewrite Zplus_mod_idemp_l. f_equal. lia.
Qed.

(** The aggregation loop appends the outcomes, adds their counts modulo
    2^64 and conjoins their success flags. *)
Lemma collect_loop_spec rs : forall collected t b,
  collect_loop rs collected (GoInt.wrap t) b
  = (collected ++ rs, GoInt.wrap (t + sum_documents rs), b && forallb Success rs).
Proof.
  induction rs as [|r rs IH]; intros collected t b; cbn [collect_loop sum_documents foldr forallb].
  - by rewrite app_nil_r, Z.add_0_r, andb_true_r.
  - unfold GoInt.add. rewrite wrap_add_wrap, IH, <- app_assoc.
    fold (sum_documents rs). f_equal; [f_equal; f_equal; lia|].
    by destruct (Success r), b.
Qed.

Lemma collect_results_spec rs :
  collect_results rs empty_result
  = {| CollectionResults := rs;
       OverallSuccess := forallb Success rs;
       TotalDocuments := GoInt.wrap (sum_documents rs) |}.
Proof.
  unfold collect_results, empty_result. cbn [CollectionResults].
  change 0 with (GoInt.wrap 0) at 1. by rewrite collect_loop_spec.
Qed.

(** The two ways in which [runTransfer] returns. *)
Lemma runTransfer_returns renv sched params workerCount w res err w' :
  runTransfer renv sched params workerCount w = Some ((res, err), w') ->
  (res = empty_result /\ w' = w /\
   (err = None -> GetCollections renv params w = inr []))
  \/
  (exists collections p,
     ValidateConnections renv = None /\
     GetCollections renv params w = inr collections /\
     collections <> [] /\
     pool_run params sched
       (start_pool collections (if workerCount <=? 0 then 3 else workerCount) w)
     = Some p /\
     all_returned p = true /\
     res = collect_results (resultCh p) empty_result /\
     err = None /\ w' = pool_world p).
Proof.
  unfold runTransfer. fold empty_result.
  destruct (ValidateConnections renv) as [e|]; [intros [= <- <- <-]; by left|].
  destruct (GetCollections renv params w) as [e|collections];
    [intros [= <- <- <-]; by left|].
  destruct collections as [|c collections]; cbn [length Nat.eqb].
  { intros [= <- <- <-]. by left. }
  destruct (pool_run _ _ _) as [p|] eqn:Hrun; [|done].
  destruct (all_returned p) eqn:Hall; [|done].
  intros [= <- <- <-]. right. by exists (c :: collections), p.
Qed.

(** A pool with at least one worker that has wound down has answered
    every name. *)
Lemma pool_finished params collections workerCount w sched p :
  0 < workerCount ->
  pool_run params sched (start_pool collections workerCount w) = Some p ->
  all_returned p = true ->
  CollectionName <$> resultCh p ≡ₚ collections /\
  length sched = (2 * length collections + Z.to_nat workerCount)%nat.
Proof.
  intros HW Hrun Hall.
  destruct (pool_run_inv _ _ _ _ _ (start_pool_inv collections workerCount w) Hrun)
    as ([Hperm Hret] & Hpend & Hlen).
  destruct (all_returned_spec _ Hall) as (Hflight & Hmoves & Hne).
  assert (Hch : collectionCh p = []).
  { apply Hret, Hne. intros Hnil. rewrite Hnil in Hlen. cbn in Hlen.
    rewrite length_replicate in Hlen. lia. }
  rewrite Hflight, Hch, !app_nil_r in Hperm. split; [done|].
  rewrite start_pool_pending in Hpend. unfold pending in Hpend.
  rewrite Hch, Hmoves in Hpend. cbn in Hpend. lia.
Qed.

(** C7 (the dispatcher answers every name exactly once): let the
    connections be valid and [collections] be the resolved list of names,
    and let the worker count be replaced by 3 when it is not positive.
    Every run of the pool is finite: a schedule has at most two moves per
    name and one per worker, and can always be continued until all
    workers have returned, so [runTransfer] returns for some schedule.
    Whenever [runTransfer] returns, it returns without error, with as many
    outcomes as there are names, and the names of the outcomes are the
    given names up to order, whatever the environments of the transfers
    were: a failed transfer is an outcome like any other. *)
Theorem dispatcher_exactly_once renv params workerCount w collections :
  ValidateConnections renv = None ->
  GetCollections renv params w = inr collections ->
  let W := if workerCount <=? 0 then 3 else workerCount in
  (forall sched p,
     pool_run params sched (start_pool collections W w) = Some p ->
     (length sched <= 2 * length collections + Z.to_nat W)%nat /\
     exists sched' p',
       pool_run params (sched ++ sched') (start_pool collections W w) = Some p' /\
       all_returned p' = true)
  /\
  (exists sched, is_Some (runTransfer renv sched params workerCount w))
  /\
  (forall sched res err w',
     runTransfer renv sched params workerCount w = Some ((res, err), w') ->
     err = None /\
     length (CollectionResults res) = length collections /\
     CollectionName <$> CollectionResults res ≡ₚ collections).
Proof.
  intros Hval Hget W.
  assert (HW : 0 < W) by (unfold W; destruct (Z.leb_spec workerCount 0); lia).
  split; [|split].
  - intros sched p Hrun.
    destruct (pool_run_inv _ _ _ _ _ (start_pool_inv collections W w) Hrun)
      as (_ & Hpend & _).
    rewrite start_pool_pending in Hpend. split; [lia|].
    destruct (pool_can_finish params no_faults (pending p) p (le_n _))
      as (sched' & p' & Hrun' & Hall).
    exists sched', p'. by rewrite pool_run_app, Hrun.
  - unfold runTransfer. rewrite Hval, Hget.
    destruct (length collections =? 0)%nat; [by exists []|]. fold W.
    destruct (pool_can_finish params no_faults _ (start_pool collections W w) (le_n _))
      as (sched & p & Hrun & Hall).
    exists sched. by rewrite Hrun, Hall.
  - intros sched res err w'. unfold runTransfer. rewrite Hval, Hget. fold W.
    destruct collections as [|c collections]; cbn [length Nat.eqb].
    { by intros [= <- <- <-]. }
    destruct (pool_run _ _ _) as [p|] eqn:Hrun; [|done].
    destruct (all_returned p) eqn:Hall; [|done].
    intros [= <- <- <-]. fold empty_result. rewrite collect_results_spec.
    cbn [CollectionResults].
    destruct (pool_finished _ _ _ _ _ _ HW Hrun Hall) as [Hperm _].
    split; [done|]. split; [|done].
    apply Permutation_length in Hperm. by rewrite length_fmap in Hperm.
Qed.

Lemma dispatcher_exactly_once_witness :
  ValidateConnections run_ok = None /\
  GetCollections run_ok (Sample.params ["users"; "orders"] 50 false) Sample.shop
  = inr ["users"; "orders"] /\
  exists res w',
    runTransfer run_ok Sample.interleaved
      (Sample.params ["users"; "orders"] 50 false) 2 Sample.shop
    = Some ((res, None), w') /\
    CollectionName <$> CollectionResults res = ["orders"; "users"] /\
    length (CollectionResults res) = length ["users"; "orders"] /\
    CollectionName <$> CollectionResults res ≡ₚ ["users"; "orders"].
Proof.
  assert (H1 : ValidateConnections run_ok = None) by reflexivity.
  assert (H2 : GetCollections run_ok (Sample.params ["users"; "orders"] 50 false)
                 Sample.shop = inr ["users"; "orders"]) by reflexivity.
  split; [exact H1|]. split; [exact H2|].
  destruct (runTransfer run_ok Sample.interleaved
              (Sample.params ["users"; "orders"] 50 false) 2 Sample.shop)
    as [[[res err] w']|] eqn:Hrun; [|vm_compute in Hrun; discriminate Hrun].
  destruct (proj2 (proj2 (dispatcher_exactly_once run_ok
                            (Sample.params ["users"; "orders"] 50 false) 2 Sample.shop
                            ["users"; "orders"] H1 H2))
              Sample.interleaved res err w' Hrun) as (Herr & Hlen & Hperm).
  subst err. exists res, w'. split; [reflexivity|].
  split; [|split; [exact Hlen|exact Hperm]].
  vm_compute in Hrun. injection Hrun as <- _. reflexivity.
Defined.

(** What the workers of a pool send is what [TransferCollection] returns
    for a name, and nothing else. *)
Lemma pool_step_results params (P : CollectionTransferResult -> Prop) d p p' :
  (forall env collName w, P (TransferCollection env params collName w).1.1) ->
  Forall P (resultCh p) ->
  pool_step params d p = Some p' ->
  Forall P (resultCh p').
Proof.
  intros HP Hres. destruct d as [i env]. unfold pool_step.
  destruct (workers p !! i) as [[|collName|]|]; try done.
  { destruct (collectionCh p); intros [= <-]; done. }
  specialize (HP env collName (pool_world p)).
  destruct (TransferCollection env params collName (pool_world p)) as [[res err] w'].
  intros [= <-]. cbn. apply Forall_app. split; [done|]. by constructor.
Qed.

Lemma pool_run_results params (P : CollectionTransferResult -> Prop) sched :
  (forall env collName w, P (TransferCollection env params collName w).1.1) ->
  forall p p',
  Forall P (resultCh p) ->
  pool_run params sched p = Some p' ->
  Forall P (resultCh p').
Proof.
  intros HP. induction sched as [|d sched IH]; intros p p' Hres; cbn [pool_run].
  { by intros [= <-]. }
  destruct (pool_step params d p) as [p1|] eqn:Hstep; [|done].
  apply IH. by eapply pool_step_results.
Qed.

(** C8 (aggregation contract): whenever [runTransfer] returns, the outcomes
    of its result are the outcomes the workers sent, all of them and in the
    order of the result channel (none when no pool was started), each of
    them the outcome [TransferCollection] returned for its name; the
    overall success flag is true exactly when every one of these outcomes
    has a true success flag, and the total is the sum of their document
    counts, computed in Go's 64-bit [int]: it is that sum whenever the sum
    fits. *)
Theorem aggregation_contract renv sched params workerCount w res err w' :
  runTransfer renv sched params workerCount w = Some ((res, err), w') ->
  ((CollectionResults res = [] /\ w' = w /\
    (err = None -> GetCollections renv params w = inr []))
   \/
   (exists collections p,
      GetCollections renv params w = inr collections /\
      pool_run params sched
        (start_pool collections (if workerCount <=? 0 then 3 else workerCount) w)
      = Some p /\
      all_returned p = true /\
      CollectionResults res = resultCh p /\
      w' = pool_world p)) /\
  (forall r, r ∈ CollectionResults res ->
     exists env w0, r = (TransferCollection env params (CollectionName r) w0).1.1) /\
  (OverallSuccess res = true <->
   forall r, r ∈ CollectionResults res -> Success r = true) /\
  TotalDocuments res = GoInt.wrap (sum_documents (CollectionResults res)) /\
  (GoInt.in_range (sum_documents (CollectionResults res)) ->
   TotalDocuments res = sum_documents (CollectionResults res)).
Proof.
  intros Hrun.
  assert (Hres : exists rs,
             res = collect_results rs empty_result /\
             Forall (fun r => exists env w0,
                       r = (TransferCollection env params (CollectionName r) w0).1.1) rs /\
             ((rs = [] /\ w' = w /\
               (err = None -> GetCollections renv params w = inr []))
              \/
              (exists collections p,
                 GetCollections renv params w = inr collections /\
                 pool_run params sched
                   (start_pool collections
                      (if workerCount <=? 0 then 3 else workerCount) w)
                 = Some p /\
                 all_returned p = true /\ rs = resultCh p /\ w' = pool_world p))).
  { apply runTransfer_returns in Hrun
      as [(-> & -> & Hnone)|(collections & p & _ & Hget & _ & Hpool & Hall & -> & _ & ->)].
    - exists []. split; [done|]. split; [constructor|]. by left.
    - exists (resultCh p). split; [done|]. split.
      + apply (pool_run_results params _ sched) with (p := start_pool collections
          (if workerCount <=? 0 then 3 else workerCount) w); [|by constructor|done].
        intros env collName w0. exists env, w0.
        by rewrite TransferCollection_name.
      + right. by exists collections, p. }
  destruct Hres as (rs & -> & Hsent & Hwhich). rewrite collect_results_spec.
  cbn [OverallSuccess TotalDocuments CollectionResults].
  split; [exact Hwhich|]. split; [by apply Forall_forall|].
  split; [|split; [done|apply wrap_in_range]].
  rewrite forallb_forall. split; intros H r Hin; apply H; by apply list_elem_of_In.
Qed.

Lemma aggregation_contract_witness :
  let params := Sample.params ["users"; "orders"] 50 false in
  exists res w' p,
    runTransfer run_ok Cases.orders_fail params 2 Cases.two_collections = Some ((res, None), w') /\
    pool_run params Cases.orders_fail (start_pool ["users"; "orders"] 2 Cases.two_collections)
    = Some p /\
    CollectionResults res = resultCh p /\
    Success <$> CollectionResults res = [false; true] /\
    DocumentsCount <$> CollectionResults res = [0; 3] /\
    OverallSuccess res = false /\
    TotalDocuments res = 3 /\
    (OverallSuccess res = true <->
     forall r, r ∈ CollectionResults res -> Success r = true) /\
    TotalDocuments res = GoInt.wrap (sum_documents (CollectionResults res)).
Proof.
  cbn zeta.
  destruct (runTransfer run_ok Cases.orders_fail
              (Sample.params ["users"; "orders"] 50 false) 2 Cases.two_collections)
    as [[[res [err|]] w']|] eqn:Hrun;
    [vm_compute in Hrun; discriminate Hrun| |vm_compute in Hrun; discriminate Hrun].
  destruct (aggregation_contract _ _ _ _ _ _ _ _ Hrun)
    as (Hwhich & _ & Hiff & Hwrap & _).
  destruct Hwhich as [(Hnil & _)|(collections & p & Hget & Hpool & _ & Hsent & _)].
  { vm_compute in Hrun. injection Hrun as <- _. discriminate Hnil. }
  injection Hget as <-.
  exists res, w', p. split; [reflexivity|]. split; [exact Hpool|].
  split; [exact Hsent|].
  vm_compute in Hrun. injection Hrun as <- _.
  split; [reflexivity|]. split; [reflexivity|]. split; [reflexivity|].
  split; [reflexivity|]. split; [exact Hiff|exact Hwrap].
Defined.

(** The resolved list of names is empty only when the request names no
    collection and the source database has none. *)
Lemma GetCollections_empty renv params w :
  GetCollections renv params w = inr [] ->
  Collections params = [] /\ source w = ∅.
Proof.
  unfold GetCollections, getCollectionsList.
  destruct (connectToMongoDB _); [done|].
  destruct (Collections params) as [|c cs]; cbn [length Nat.ltb Nat.leb]; [|done].
  destruct (list_source_fault renv); [done|].
  intros [= Hnames]. split; [done|].
  apply fmap_nil_inv in Hnames. by apply map_to_list_empty_iff.
Qed.

(** C9, as the code has it (empty resolved list): when the connections are
    valid and the resolved list of collection names is empty, that is, the
    request names no collection and the source database lists none,
    [runTransfer] returns, under every schedule and without touching the
    world, a result with no outcome, total 0 and overall success true, and
    no error. *)
Theorem empty_resolved_run renv sched params workerCount w :
  ValidateConnections renv = None ->
  GetCollections renv params w = inr [] ->
  runTransfer renv sched params workerCount w
  = Some (({| CollectionResults := []; OverallSuccess := true; TotalDocuments := 0 |},
           None), w).
Proof.
  intros Hval Hget. unfold runTransfer. by rewrite Hval, Hget.
Qed.

Lemma empty_resolved_run_witness :
  ValidateConnections run_ok = None /\
  GetCollections run_ok (Sample.params [] 50 false) Sample.nothing = inr [] /\
  runTransfer run_ok Sample.interleaved (Sample.params [] 50 false) 2 Sample.nothing
  = Some (({| CollectionResults := []; OverallSuccess := true; TotalDocuments := 0 |},
           None), Sample.nothing).
Proof.
  assert (H1 : ValidateConnections run_ok = None) by reflexivity.
  assert (H2 : GetCollections run_ok (Sample.params [] 50 false) Sample.nothing = inr [])
    by (vm_compute; reflexivity).
  split; [exact H1|]. split; [exact H2|].
  exact (empty_resolved_run run_ok Sample.interleaved (Sample.params [] 50 false) 2
           Sample.nothing H1 H2).
Defined.

(** C9 as stated fails: a request with an empty collection-name set stands
    for all collections of the source database.  With [users] holding
    three documents, the run has one outcome and a total of 3. *)
Lemma empty_request_copies_everything :
  let request := Sample.params [] 2 false in
  let run := runTransfer run_ok (Sample.one_by_one no_faults) request 3 Sample.fresh in
  Collections request = [] /\
  fst <$> run
  = Some ({| CollectionResults :=
               [{| CollectionName := "users"; DocumentsCount := 3;
                   Success := true; ErrorMessage := EmptyString |}];
             OverallSuccess := true;
             TotalDocuments := 3 |}, None) /\
  ~ (exists res err w',
       run = Some ((res, err), w') /\
       TotalDocuments res = 0 /\ CollectionResults res = []).
Proof.
  cbn zeta. split; [reflexivity|]. split; [vm_compute; reflexivity|].
  intros (res & err & w' & Hrun & Htotal & _).
  vm_compute in Hrun. injection Hrun as <- _ _. discriminate Htotal.
Qed.

(** ** Partial counts *)

(** A failed outcome always carries a document count of zero. *)
Lemma TransferCollection_failed_count env params collectionName w :
  let r := (TransferCollection env params collectionName w).1.1 in
  Success r = false -> DocumentsCount r = 0.
Proof.
  unfold TransferCollection.
  destruct (connectToMongoDB (connect_source env)); [done|].
  destruct (connectToMongoDB (connect_dest env)); [done|].
  destruct (transferCollection _ _ _ _ _) as [[count [err|]] w']; done.
Qed.

(** A failed outcome adds nothing to the total of a run. *)
Lemma failed_outcomes_add_nothing rs :
  Forall (fun r => Success r = false -> DocumentsCount r = 0) rs ->
  sum_documents rs = sum_documents (List.filter Success rs).
Proof.
  induction 1 as [|r rs Hr _ IH]; [done|].
  change (sum_documents (r :: rs)) with (DocumentsCount r + sum_documents rs).
  cbn [List.filter]. destruct (Success r).
  - change (sum_documents (r :: List.filter Success rs))
      with (DocumentsCount r + sum_documents (List.filter Success rs)).
    by rewrite IH.
  - rewrite Hr by done. by rewrite IH.
Qed.

(** C2, evaluated: [users] has three documents, the batch size is 2 and
    the second [InsertMany], the one of the final batch, fails.
    [transferCollection] returns the partial count 2 with the insert
    error, and two documents are in the destination collection; but the
    outcome built by [TransferCollection] has a document count of 0, and so
    has the total of the run. *)
Theorem partial_count_not_reported :
  let env := Sample.second_insert_fails in
  let params := Sample.params ["users"] 2 false in
  (transferCollection env "users" 2 false Sample.fresh).1
  = (2, Some (ErrWrap "failed to insert final batch" (ErrDriver "write error"))) /\
  length ∘ coll_docs
    <$> dest (transferCollection env "users" 2 false Sample.fresh).2 !! "users"
  = Some 2%nat /\
  (TransferCollection env params "users" Sample.fresh).1.1
  = {| CollectionName := "users"; DocumentsCount := 0; Success := false;
       ErrorMessage :=
         "Failed to transfer collection: failed to insert final batch: write error" |} /\
  fst <$> runTransfer run_ok (Sample.one_by_one env) params 3 Sample.fresh
  = Some ({| CollectionResults :=
               [{| CollectionName := "users"; DocumentsCount := 0; Success := false;
                   ErrorMessage :=
                     "Failed to transfer collection: failed to insert final batch: write error" |}];
             OverallSuccess := false;
             TotalDocuments := 0 |}, None).
Proof. cbn zeta. repeat split; vm_compute; reflexivity. Qed.

(** ** Index fidelity *)

(** One iteration of the index loop cannot tell the two compound indexes
    apart: they decode to the same key map. *)
Lemma index_loop_key_order_lost env i indexes :
  index_loop env i [Sample.zip_age_index] indexes
  = index_loop env i [Sample.age_zip_index] indexes.
Proof.
  cbn [index_loop]. destruct (index_decode_fault env i); [done|].
  replace (decodeM Sample.zip_age_index !! "name")
    with (Some (GString "zip_-1_age_1")) by (vm_compute; reflexivity).
  replace (decodeM Sample.age_zip_index !! "name")
    with (Some (GString "age_1_zip_-1")) by (vm_compute; reflexivity).
  replace (String.eqb "zip_-1_age_1" "_id_") with false by reflexivity.
  replace (String.eqb "age_1_zip_-1" "_id_") with false by reflexivity.
  replace (decodeM Sample.zip_age_index !! "key")
    with (decodeM Sample.age_zip_index !! "key") by (vm_compute; reflexivity).
  replace (decodeM Sample.zip_age_index !! "unique")
    with (decodeM Sample.age_zip_index !! "unique") by (vm_compute; reflexivity).
  replace (decodeM Sample.zip_age_index !! "sparse")
    with (decodeM Sample.age_zip_index !! "sparse") by (vm_compute; reflexivity).
  replace (decodeM Sample.zip_age_index !! "expireAfterSeconds")
    with (decodeM Sample.age_zip_index !! "expireAfterSeconds")
    by (vm_compute; reflexivity).
  replace (decodeM Sample.zip_age_index !! "partialFilterExpression")
    with (decodeM Sample.age_zip_index !! "partialFilterExpression")
    by (vm_compute; reflexivity).
  reflexivity.
Qed.

Lemma index_loop_skips_identity env i rest indexes :
  index_decode_fault env i = None ->
  index_loop env i (Sample.id_index :: rest) indexes
  = index_loop env (S i) rest indexes.
Proof.
  intros Hi. cbn [index_loop]. rewrite Hi.
  replace (decodeM Sample.id_index !! "name")
    with (Some (GString "_id_")) by (vm_compute; reflexivity).
  reflexivity.
Qed.

(** C1, evaluated.  The key documents of the two compound indexes differ
    only in the order of their fields, so they decode to the same Go map:
    whatever the environment, and whatever order [range] walks a map in,
    the two indexes are read as the same model, although their key
    sequences differ.  In the run without faults, the index on [zip] then
    [age] is created at the destination as an index on [age] then [zip].
    An expiry stored as a 64-bit integer is not carried over either. *)
Theorem index_key_order_not_preserved :
  (forall env,
     index_read env "places" (Sample.places Sample.zip_age_index)
     = index_read env "places" (Sample.places Sample.age_zip_index)) /\
  declared_keys Sample.zip_age_index = Some [("zip", GInt32 (-1)); ("age", GInt32 1)] /\
  declared_keys Sample.age_zip_index = Some [("age", GInt32 1); ("zip", GInt32 (-1))] /\
  coll_indexes
    <$> dest (transferCollection no_faults "places" 100 false
                (Sample.places Sample.zip_age_index)).2 !! "places"
  = Some [{| Keys := [("age", GInt32 1); ("zip", GInt32 (-1))];
             Options := Some (SetBackground true (SetSparse true options_Index)) |}] /\
  index_read no_faults "places" (Sample.places Sample.ttl_index)
  = inr [{| Keys := [("seen", GInt32 1)]; Options := Some options_Index |}].
Proof.
  split; [|repeat split; vm_compute; reflexivity].
  intros env. unfold index_read, getCollectionIndexes. cbn [fst snd].
  destruct (list_indexes_fault env); [done|].
  replace (coll_indexes
             (source_collection "places"
                (emit (EvListIndexes "places") (Sample.places Sample.zip_age_index))))
    with [Sample.id_index; Sample.zip_age_index] by (vm_compute; reflexivity).
  replace (coll_indexes
             (source_collection "places"
                (emit (EvListIndexes "places") (Sample.places Sample.age_zip_index))))
    with [Sample.id_index; Sample.age_zip_index] by (vm_compute; reflexivity).
  assert (Hloop : index_loop env 0 [Sample.id_index; Sample.zip_age_index] []
                  = index_loop env 0 [Sample.id_index; Sample.age_zip_index] []).
  { destruct (index_decode_fault env 0) eqn:H0.
    - cbn [index_loop]. by rewrite H0.
    - rewrite !index_loop_skips_identity by done. apply index_loop_key_order_lost. }
  unfold cursor_run. destruct (index_cursor_fault env) as [[[|[|[|n]]] e]|];
    cbn [length Nat.ltb Nat.leb take]; rewrite ?Hloop;
    match goal with
    | |- context [index_loop env 0 ?items []] => destruct (index_loop env 0 items [])
    end; done.
Qed.

(** * More about one collection transfer *)

Lemma store_other_name coll coll' docs (d : DestData) :
  coll <> coll' -> store coll docs d !! coll' = d !! coll'.
Proof.
  intros Hne. destruct docs; [done|]. unfold store. by rewrite lookup_insert_ne.
Qed.

Lemma store_lookup coll docs (d : DestData) :
  docs <> [] ->
  store coll docs d !! coll
  = Some (mkCollection (coll_docs (default empty_dest (d !! coll)) ++ docs)
            (coll_indexes (default empty_dest (d !! coll)))).
Proof. intros Hne. destruct docs; [done|]. unfold store. by rewrite lookup_insert_eq. Qed.

(** The copy loop leaves the source and the other collections of the
    destination alone. *)
Lemma copy_loop_frame env coll B docs : forall i st w,
  source (result_world (copy_loop env coll B i docs st w)) = source w /\
  forall c, c <> coll ->
    dest (result_world (copy_loop env coll B i docs st w)) !! c = dest w !! c.
Proof.
  induction docs as [|raw rest IH]; intros i st w; cbn [copy_loop]; [done|].
  destruct (doc_decode_fault env i); [done|]. cbn zeta.
  destruct (B <=? _); [|apply IH].
  unfold InsertMany. destruct (insert_fault env (st_calls st)) as [f|].
  - cbn. split; [done|]. intros c Hc. by rewrite store_other_name.
  - match goal with |- context [copy_loop env coll B ?i rest ?st ?w] =>
      destruct (IH i st w) as [Hs Hd] end.
    split; [by rewrite Hs|]. intros c Hc. rewrite Hd by done. cbn.
    by rewrite store_other_name.
Qed.

Lemma copy_documents_frame env coll B w :
  source (copy_documents env coll B w).2 = source w /\
  forall c, c <> coll -> dest (copy_documents env coll B w).2 !! c = dest w !! c.
Proof.
  unfold copy_documents, CountDocuments, Find, stream_documents, flush_and_finish.
  destruct (count_fault env); [done|]. destruct (_ =? 0); [done|].
  destruct (find_fault env); [done|]. destruct (cursor_run _ _) as [docs cursor_err].
  match goal with |- context [copy_loop env coll B 0 docs ?st ?w0] =>
    destruct (copy_loop_frame env coll B docs 0 st w0) as [Hs Hd];
    destruct (copy_loop env coll B 0 docs st w0) as [[[c0 e0] w1]|[st1 w1]]
  end; cbn [result_world] in Hs, Hd; [done|].
  unfold InsertMany.
  destruct (0 <? _); [destruct (insert_fault env (st_calls st1))|];
    destruct cursor_err; cbn; (split; [done|]); intros c Hc;
    rewrite ?store_other_name by done; by apply Hd.
Qed.

Lemma prepared_frame env coll overwrite w :
  source (match prepare_destination env coll overwrite w with
          | inl (_, w1) => w1 | inr w1 => w1 end) = source w /\
  forall c, c <> coll ->
    dest (match prepare_destination env coll overwrite w with
          | inl (_, w1) => w1 | inr w1 => w1 end) !! c = dest w !! c.
Proof.
  destruct (prepare_destination_prepared env coll overwrite w)
    as [e Hlist|Hlist Hex Hov|e Hlist Hread|indexes e w' Hread Hex Hov Hsrc Hdst Hlog
       |indexes e w' Hread Hsrc Hdst Hlog|indexes w' Hlist Hread Hsrc Hdst Hlog];
    try done.
  - by rewrite Hsrc, Hdst.
  - rewrite Hsrc, Hdst. split; [done|]. intros c Hc.
    destruct overwrite; [by rewrite lookup_delete_ne|done].
  - rewrite Hsrc, Hdst. split; [done|]. intros c Hc. cbn zeta.
    destruct indexes; rewrite ?lookup_insert_ne by done;
      (destruct overwrite; [by rewrite lookup_delete_ne|done]).
Qed.

Lemma transfer_world env coll batchSize overwrite w :
  source (transferCollection env coll batchSize overwrite w).2 = source w /\
  forall c, c <> coll ->
    dest (transferCollection env coll batchSize overwrite w).2 !! c = dest w !! c.
Proof.
  rewrite transferCollection_phases.
  pose proof (prepared_frame env coll overwrite w) as [Hs Hd].
  destruct (prepare_destination env coll overwrite w) as [[r w1]|w1]; [done|].
  destruct (copy_documents_frame env coll (effective_batch batchSize) w1)
    as [Hs' Hd'].
  split; [by rewrite Hs'|]. intros c Hc. rewrite Hd' by done. by apply Hd.
Qed.

(** X1: at the destination a collection transfer touches no collection
    but the one it was asked for, whatever fails. *)
Theorem transfer_frame env collectionName batchSize overwrite w c :
  c <> collectionName ->
  dest (transferCollection env collectionName batchSize overwrite w).2 !! c
  = dest w !! c.
Proof.
  intros Hc. rewrite transferCollection_phases.
  pose proof (prepared_frame env collectionName overwrite w) as [_ Hd].
  destruct (prepare_destination env collectionName overwrite w) as [[r w1]|w1];
    [by apply Hd|].
  destruct (copy_documents_frame env collectionName (effective_batch batchSize) w1)
    as [_ Hd'].
  rewrite Hd' by done. by apply Hd.
Qed.

Lemma transfer_frame_witness :
  "archive" <> "users" /\
  is_Some (dest Cases.crowded !! "archive") /\
  dest (transferCollection no_faults "users" 2 true Cases.crowded).2 !! "archive"
  = dest Cases.crowded !! "archive".
Proof.
  assert (H1 : "archive" <> "users") by discriminate.
  split; [exact H1|]. split; [by eexists|].
  exact (transfer_frame no_faults "users" 2 true Cases.crowded "archive" H1).
Defined.

Lemma prepare_destination_ready env coll overwrite w w1 :
  prepare_destination env coll overwrite w = inr w1 ->
  exists indexes,
    index_read env coll w = inr indexes /\
    source w1 = source w /\
    dest w1 !! coll = image [] indexes.
Proof.
  intros Hprep.
  assert (Hclear : overwrite = true \/ dest w !! coll = None).
  { destruct overwrite; [by left|right]. revert Hprep.
    unfold prepare_destination, ListCollectionNames.
    destruct (list_collections_fault env); [done|]. cbn [dest emit].
    by destruct (dest w !! coll). }
  pose proof (prepare_destination_prepared env coll overwrite w) as Hp.
  rewrite Hprep in Hp. inversion Hp as [| | | | |indexes w' Hlist Hread Hsrc Hdst Hlog].
  subst w'. exists indexes. split; [done|]. split; [done|]. rewrite Hdst. cbn zeta.
  assert (Hnone : (if overwrite then delete coll (dest w) else dest w) !! coll = None).
  { destruct Hclear as [->| Hnone]; [apply lookup_delete_eq|].
    destruct overwrite; [apply lookup_delete_eq|done]. }
  destruct indexes as [|ix indexes]; [done|].
  rewrite lookup_insert_eq, Hnone. done.
Qed.

Lemma store_image coll stored (d : DestData) indexes :
  d !! coll = image [] indexes ->
  store coll stored d !! coll = image stored indexes.
Proof.
  intros Hd. destruct stored as [|x stored]; [done|].
  rewrite store_lookup by done. rewrite Hd.
  destruct indexes; done.
Qed.

(** What a transfer that got as far as the document count leaves under the
    name of the collection. *)
Lemma transfer_stored env coll batchSize overwrite w count err w' :
  GoInt.len (documents_of coll w) <= GoInt.max_int ->
  transferCollection env coll batchSize overwrite w = ((count, err), w') ->
  err = None \/ 0 < count \/
    (exists e, err = Some (ErrWrap "cursor error" (ErrDriver e))) ->
  exists indexes stored,
    index_read env coll w = inr indexes /\
    dest w' !! coll = image stored indexes /\
    ((documents_of coll w = [] /\ stored = [] /\ count = 0 /\ err = None) \/
     (exists delivered cursor_err evs,
        cursor_run (doc_cursor_fault env) (documents_of coll w)
        = (delivered, cursor_err) /\
        streamed coll (effective_batch batchSize) (decodeM <$> delivered) cursor_err
          evs stored count err)).
Proof.
  intros Hmax Hrun Hgood. rewrite transferCollection_phases in Hrun.
  destruct (prepare_destination env coll overwrite w) as [[r w1]|w1] eqn:Hprep.
  { pose proof (prepare_destination_prepared env coll overwrite w) as Hp.
    rewrite Hprep in Hp. injection Hrun as -> ->.
    inversion Hp; subst; destruct Hgood as [?|[?|[? ?]]]; first [done|lia]. }
  apply prepare_destination_ready in Hprep as (indexes & Hread & Hsrc & Hdst).
  pose proof (documents_of_same_source coll w w1 Hsrc) as Hdocs.
  apply copy_documents_spec in Hrun; [|apply effective_batch_pos|by rewrite Hdocs].
  rewrite Hdocs in Hrun.
  destruct Hrun as [_ [(_ & Hd & -> & [[e ->]|[Hnil ->]])
                      |[(_ & Hd & -> & e & ->)
                       |(delivered & cursor_err & evs & stored & Hne & Hcur & _ & Hd & Hst)]]].
  - destruct Hgood as [?|[?|[? ?]]]; first [done|lia].
  - exists indexes, []. rewrite Hd. split; [done|]. split; [done|]. by left.
  - destruct Hgood as [?|[?|[? ?]]]; first [done|lia].
  - exists indexes, stored. split; [done|]. split.
    + rewrite Hd. by apply store_image.
    + right. by exists delivered, cursor_err, evs.
Qed.

Lemma transfer_image env coll batchSize overwrite w count w' :
  GoInt.len (documents_of coll w) <= GoInt.max_int ->
  transferCollection env coll batchSize overwrite w = ((count, None), w') ->
  exists indexes,
    index_read env coll w = inr indexes /\
    dest w' !! coll = image (decodeM <$> documents_of coll w) indexes /\
    count = GoInt.len (documents_of coll w).
Proof.
  intros Hmax Hrun.
  destruct (transfer_stored _ _ _ _ _ _ _ _ Hmax Hrun) as (indexes & stored & Hread & Hd & Hcase);
    [by left|].
  exists indexes. split; [done|]. rewrite Hd.
  destruct Hcase as [(-> & -> & -> & _)|(delivered & cursor_err & evs & Hcur & Hst)]; [done|].
  inversion Hst as [| | |k r Hlen Hr Hevs Hstored Hcount Herr]; subst.
  destruct cursor_err; [done|].
  rewrite (cursor_run_complete _ _ _ Hcur). split; [done|].
  unfold GoInt.len. by rewrite length_fmap.
Qed.

(** X2: a successful transfer leaves an exact image of the source
    collection and touches nothing else: under the name of the collection
    the destination holds the source documents, decoded, in the order of
    the cursor, with the index models read from the source, marked for
    background creation, and nothing from before; there is no such
    collection when the source has neither a document nor an index other
    than the identity index; every other collection is as it was. *)
Theorem transfer_replica env collectionName batchSize overwrite w count w' :
  GoInt.len (documents_of collectionName w) <= GoInt.max_int ->
  transferCollection env collectionName batchSize overwrite w = ((count, None), w') ->
  exists indexes,
    index_read env collectionName w = inr indexes /\
    source w' = source w /\
    dest w' =
      match image (decodeM <$> documents_of collectionName w) indexes with
      | Some c => <[collectionName := c]> (dest w)
      | None => delete collectionName (dest w)
      end.
Proof.
  intros Hmax Hrun.
  pose proof (transfer_world env collectionName batchSize overwrite w) as [Hs Hd].
  rewrite Hrun in Hs, Hd. cbn [snd] in *.
  destruct (transfer_image _ _ _ _ _ _ _ Hmax Hrun) as (indexes & Hread & Hi & _).
  exists indexes. split; [done|]. split; [done|].
  apply map_eq. intros c. destruct (decide (c = collectionName)) as [->|Hne].
  - rewrite Hi. destruct (image _ _); [by rewrite lookup_insert_eq|by rewrite lookup_delete_eq].
  - rewrite Hd by done.
    destruct (image _ _); [by rewrite lookup_insert_ne|by rewrite lookup_delete_ne].
Qed.

Lemma transfer_replica_witness :
  let r := transferCollection no_faults "users" 2 true Sample.occupied in
  GoInt.len (documents_of "users" Sample.occupied) <= GoInt.max_int /\
  r = ((3, None), r.2) /\
  exists indexes,
    index_read no_faults "users" Sample.occupied = inr indexes /\
    source r.2 = source Sample.occupied /\
    dest r.2 =
      match image (decodeM <$> documents_of "users" Sample.occupied) indexes with
      | Some c => <["users" := c]> (dest Sample.occupied)
      | None => delete "users" (dest Sample.occupied)
      end.
Proof.
  cbn zeta.
  assert (H1 : GoInt.len (documents_of "users" Sample.occupied) <= GoInt.max_int)
    by (vm_compute; discriminate).
  assert (H2 : transferCollection no_faults "users" 2 true Sample.occupied
               = ((3, None), (transferCollection no_faults "users" 2 true
                                Sample.occupied).2))
    by (vm_compute; reflexivity).
  split; [exact H1|]. split; [exact H2|].
  exact (transfer_replica no_faults "users" 2 true Sample.occupied 3 _ H1 H2).
Defined.

(** X3: the batch size has no influence on what a successful transfer
    leaves behind: two successful transfers of the same collection from
    the same world with different batch sizes return the same count and
    leave the same databases. *)
Theorem batch_size_irrelevant env collectionName b1 b2 overwrite w c1 c2 w1 w2 :
  GoInt.len (documents_of collectionName w) <= GoInt.max_int ->
  transferCollection env collectionName b1 overwrite w = ((c1, None), w1) ->
  transferCollection env collectionName b2 overwrite w = ((c2, None), w2) ->
  c1 = c2 /\ source w1 = source w2 /\ dest w1 = dest w2.
Proof.
  intros Hmax H1 H2.
  pose proof (transfer_world env collectionName b1 overwrite w) as [Hs1 Hd1].
  pose proof (transfer_world env collectionName b2 overwrite w) as [Hs2 Hd2].
  rewrite H1 in Hs1, Hd1. rewrite H2 in Hs2, Hd2. cbn [snd] in *.
  destruct (transfer_image _ _ _ _ _ _ _ Hmax H1) as (ix1 & Hr1 & Hi1 & ->).
  destruct (transfer_image _ _ _ _ _ _ _ Hmax H2) as (ix2 & Hr2 & Hi2 & ->).
  split; [done|]. split; [congruence|].
  apply map_eq. intros c. destruct (decide (c = collectionName)) as [->|Hne].
  - rewrite Hi1, Hi2. congruence.
  - by rewrite Hd1, Hd2.
Qed.

Lemma batch_size_irrelevant_witness :
  let r1 := transferCollection no_faults "users" 2 false Sample.fresh in
  let r2 := transferCollection no_faults "users" 100 false Sample.fresh in
  GoInt.len (documents_of "users" Sample.fresh) <= GoInt.max_int /\
  r1 = ((3, None), r1.2) /\
  r2 = ((3, None), r2.2) /\
  3 = 3 /\ source r1.2 = source r2.2 /\ dest r1.2 = dest r2.2.
Proof.
  cbn zeta.
  assert (H1 : GoInt.len (documents_of "users" Sample.fresh) <= GoInt.max_int)
    by (vm_compute; discriminate).
  assert (H2 : transferCollection no_faults "users" 2 false Sample.fresh
               = ((3, None), (transferCollection no_faults "users" 2 false
                                Sample.fresh).2))
    by (vm_compute; reflexivity).
  assert (H3 : transferCollection no_faults "users" 100 false Sample.fresh
               = ((3, None), (transferCollection no_faults "users" 100 false
                                Sample.fresh).2))
    by (vm_compute; reflexivity).
  split; [exact H1|]. split; [exact H2|]. split; [exact H3|].
  exact (batch_size_irrelevant no_faults "users" 2 100 false Sample.fresh 3 3 _ _
           H1 H2 H3).
Defined.

Lemma index_read_nothing env coll w indexes :
  coll_indexes (source_collection coll w) = [] ->
  index_read env coll w = inr indexes -> indexes = [].
Proof.
  unfold index_read, getCollectionIndexes.
  change (source_collection coll (emit (EvListIndexes coll) w))
    with (source_collection coll w).
  intros ->.
  destruct (list_indexes_fault env); [done|].
  destruct (cursor_run (index_cursor_fault env) (@nil bdoc))
    as [items cursor_err] eqn:Hcur.
  assert (items = []) as ->.
  { apply cursor_run_length in Hcur. destruct items; [done|]. cbn in Hcur. lia. }
  cbn. destruct cursor_err; [done|]. cbn. congruence.
Qed.

(** X5: asking for a collection the source does not have is no error: the
    transfer succeeds with a count of 0, creates nothing, and leaves no
    collection of that name at the destination, so that with the overwrite
    flag an existing destination collection is deleted. *)
Theorem missing_source_collection env collectionName batchSize overwrite w count w' :
  source w !! collectionName = None ->
  transferCollection env collectionName batchSize overwrite w = ((count, None), w') ->
  count = 0 /\ dest w' = delete collectionName (dest w).
Proof.
  intros Hmiss Hrun.
  assert (Hcoll : source_collection collectionName w = empty_source).
  { unfold source_collection. by rewrite Hmiss. }
  assert (Hdocs : documents_of collectionName w = []).
  { unfold documents_of. by rewrite Hcoll. }
  assert (Hmax : GoInt.len (documents_of collectionName w) <= GoInt.max_int).
  { by rewrite Hdocs. }
  pose proof (transfer_world env collectionName batchSize overwrite w) as [Hs Hd].
  rewrite Hrun in Hs, Hd. cbn [snd] in *.
  destruct (transfer_image _ _ _ _ _ _ _ Hmax Hrun) as (indexes & Hread & Hi & ->).
  apply index_read_nothing in Hread as ->; [|by rewrite Hcoll].
  rewrite Hdocs in *. split; [done|].
  apply map_eq. intros c. destruct (decide (c = collectionName)) as [->|Hne].
  - by rewrite Hi, lookup_delete_eq.
  - by rewrite Hd, lookup_delete_ne.
Qed.

Lemma missing_source_collection_witness :
  let r := transferCollection no_faults "archive" 2 true Cases.crowded in
  source Cases.crowded !! "archive" = None /\
  is_Some (dest Cases.crowded !! "archive") /\
  r = ((0, None), r.2) /\
  0 = 0 /\ dest r.2 = delete "archive" (dest Cases.crowded).
Proof.
  cbn zeta.
  assert (H1 : source Cases.crowded !! "archive" = None) by (vm_compute; reflexivity).
  assert (H2 : transferCollection no_faults "archive" 2 true Cases.crowded
               = ((0, None), (transferCollection no_faults "archive" 2 true
                                Cases.crowded).2))
    by (vm_compute; reflexivity).
  split; [exact H1|]. split; [by eexists|]. split; [exact H2|].
  exact (missing_source_collection no_faults "archive" 2 true Cases.crowded 0 _ H1 H2).
Defined.

Lemma accepted_length rej batch : forall i,
  (length (accepted rej i batch) <= length batch)%nat.
Proof.
  induction batch as [|d ds IH]; intros i; cbn; [done|].
  destruct (rej i); cbn; specialize (IH (S i)); lia.
Qed.

Lemma image_documents stored indexes :
  coll_docs (default empty_dest (image stored indexes)) = stored.
Proof. destruct stored, indexes; done. Qed.

Lemma full_batches B k : 0 < B -> Z.to_nat (B * Z.of_nat k) = (k * Z.to_nat B)%nat.
Proof. intros HB. rewrite Z2Nat.inj_mul, Nat2Z.id by lia. lia. Qed.

(** X6: a positive count is backed by the destination: whenever the
    transfer returns a count above 0, with or without an error, the
    destination collection consists of exactly the first [count] documents
    of the source, in order, followed by at most one batch of further
    documents (those the server accepted of a failing insert). *)
Theorem returned_count_stored env collectionName batchSize overwrite w count err w' :
  let docs := documents_of collectionName w in
  GoInt.len docs <= GoInt.max_int ->
  transferCollection env collectionName batchSize overwrite w = ((count, err), w') ->
  0 < count ->
  count <= GoInt.len docs /\
  exists rest,
    stored_documents collectionName w'
    = (decodeM <$> take (Z.to_nat count) docs) ++ rest /\
    (length rest <= Z.to_nat (effective_batch batchSize))%nat.
Proof.
  cbn zeta. intros Hmax Hrun Hpos.
  pose proof (effective_batch_pos batchSize) as HB.
  destruct (transfer_stored _ _ _ _ _ _ _ _ Hmax Hrun) as (indexes & stored & Hread & Hd & Hcase);
    [by right; left|].
  unfold stored_documents. rewrite Hd, image_documents.
  destruct Hcase as [(_ & _ & -> & _)|(delivered & cursor_err & evs & Hcur & Hst)]; [lia|].
  pose proof (cursor_run_length _ _ _ _ Hcur) as Hlen.
  set (B := effective_batch batchSize) in *.
  inversion Hst as [k e Hk|k f Hk|k r f Hk Hr|k r Hk Hr]; subst;
    rewrite ?length_fmap in Hk.
  - rewrite full_batches by done. split; [unfold GoInt.len; nia|].
    exists []. rewrite app_nil_r. split; [|cbn; lia].
    apply (delivered_prefix _ _ _ _ _ Hcur). by rewrite length_fmap.
  - rewrite full_batches by done. split; [unfold GoInt.len; nia|].
    eexists. split.
    + f_equal. apply (delivered_prefix _ _ _ _ _ Hcur). by rewrite length_fmap.
    + etrans; [apply accepted_length|]. rewrite length_take. lia.
  - rewrite full_batches by done. split; [unfold GoInt.len; nia|].
    eexists. split.
    + f_equal. apply (delivered_prefix _ _ _ _ _ Hcur). rewrite length_fmap. lia.
    + etrans; [apply accepted_length|]. rewrite length_drop, length_fmap. lia.
  - rewrite length_fmap, Nat2Z.id. split; [unfold GoInt.len; lia|].
    exists []. rewrite app_nil_r. split; [|cbn; lia].
    by rewrite <- (cursor_run_prefix _ _ _ _ Hcur).
Qed.

Lemma returned_count_stored_witness :
  let docs := documents_of "users" Sample.fresh in
  let r := transferCollection Sample.second_insert_fails "users" 2 false Sample.fresh in
  GoInt.len docs <= GoInt.max_int /\
  r = ((2, Some (ErrWrap "failed to insert final batch" (ErrDriver "write error"))), r.2) /\
  0 < 2 /\
  2 <= GoInt.len docs /\
  exists rest,
    stored_documents "users" r.2 = (decodeM <$> take (Z.to_nat 2) docs) ++ rest /\
    (length rest <= Z.to_nat (effective_batch 2))%nat.
Proof.
  cbn zeta.
  assert (H1 : GoInt.len (documents_of "users" Sample.fresh) <= GoInt.max_int)
    by (vm_compute; discriminate).
  assert (H2 : transferCollection Sample.second_insert_fails "users" 2 false Sample.fresh
               = ((2, Some (ErrWrap "failed to insert final batch"
                              (ErrDriver "write error"))),
                  (transferCollection Sample.second_insert_fails "users" 2 false
                     Sample.fresh).2))
    by (vm_compute; reflexivity).
  assert (H3 : 0 < 2) by lia.
  split; [exact H1|]. split; [exact H2|]. split; [exact H3|].
  exact (returned_count_stored Sample.second_insert_fails "users" 2 false Sample.fresh
           2 _ _ H1 H2 H3).
Defined.

(** X7: when the document cursor breaks, be it in the middle of the
    collection or when it looks for more after the last document, the
    transfer reports the cursor error with the number of documents the
    cursor delivered before, and exactly those documents are at the
    destination: everything read was written before the error was looked
    at. *)
Theorem cursor_error_outcome env collectionName batchSize overwrite w count e w' :
  let docs := documents_of collectionName w in
  GoInt.len docs <= GoInt.max_int ->
  transferCollection env collectionName batchSize overwrite w
  = ((count, Some (ErrWrap "cursor error" (ErrDriver e))), w') ->
  exists n,
    doc_cursor_fault env = Some (n, e) /\
    (n <= length docs)%nat /\
    count = Z.of_nat n /\
    stored_documents collectionName w' = decodeM <$> take n docs.
Proof.
  cbn zeta. intros Hmax Hrun.
  destruct (transfer_stored _ _ _ _ _ _ _ _ Hmax Hrun) as (indexes & stored & Hread & Hd & Hcase);
    [right; right; by exists e|].
  unfold stored_documents. rewrite Hd, image_documents.
  destruct Hcase as [(_ & _ & _ & [=])|(delivered & cursor_err & evs & Hcur & Hst)].
  inversion Hst as [| | |k r Hk Hr Hevs Hstored Hcount Herr]; subst.
  destruct cursor_err as [e'|]; [|done]. injection Herr as ->.
  unfold cursor_run in Hcur. destruct (doc_cursor_fault env) as [[n e']|]; [|done].
  destruct (Nat.leb_spec n (length (documents_of collectionName w))) as [Hn|Hn]; [|done].
  injection Hcur as <- <-. exists n. split; [done|]. split; [done|].
  rewrite length_fmap, length_take. split; [f_equal; lia|done].
Qed.

Lemma cursor_error_outcome_witness :
  let docs := documents_of "users" Sample.fresh in
  let r := transferCollection Cases.cursor_breaks "users" 2 false Sample.fresh in
  let r' := transferCollection Cases.cursor_breaks_at_end "users" 2 false Sample.fresh in
  GoInt.len docs <= GoInt.max_int /\
  r = ((2, Some (ErrWrap "cursor error" (ErrDriver "cursor lost"))), r.2) /\
  r' = ((3, Some (ErrWrap "cursor error" (ErrDriver "deadline exceeded"))), r'.2) /\
  (exists n,
     doc_cursor_fault Cases.cursor_breaks = Some (n, "cursor lost") /\
     (n <= length docs)%nat /\
     2 = Z.of_nat n /\
     stored_documents "users" r.2 = decodeM <$> take n docs) /\
  (exists n,
     doc_cursor_fault Cases.cursor_breaks_at_end = Some (n, "deadline exceeded") /\
     (n <= length docs)%nat /\
     3 = Z.of_nat n /\
     stored_documents "users" r'.2 = decodeM <$> take n docs).
Proof.
  cbn zeta.
  assert (H1 : GoInt.len (documents_of "users" Sample.fresh) <= GoInt.max_int)
    by (vm_compute; discriminate).
  assert (H2 : transferCollection Cases.cursor_breaks "users" 2 false Sample.fresh
               = ((2, Some (ErrWrap "cursor error" (ErrDriver "cursor lost"))),
                  (transferCollection Cases.cursor_breaks "users" 2 false
                     Sample.fresh).2))
    by (vm_compute; reflexivity).
  assert (H3 : transferCollection Cases.cursor_breaks_at_end "users" 2 false Sample.fresh
               = ((3, Some (ErrWrap "cursor error" (ErrDriver "deadline exceeded"))),
                  (transferCollection Cases.cursor_breaks_at_end "users" 2 false
                     Sample.fresh).2))
    by (vm_compute; reflexivity).
  split; [exact H1|]. split; [exact H2|]. split; [exact H3|]. split.
  - exact (cursor_error_outcome Cases.cursor_breaks "users" 2 false Sample.fresh
             2 "cursor lost" _ H1 H2).
  - exact (cursor_error_outcome Cases.cursor_breaks_at_end "users" 2 false Sample.fresh
             3 "deadline exceeded" _ H1 H3).
Defined.

Lemma quiet_elem evs e : quiet evs -> e ∈ evs -> is_insert e = false.
Proof.
  unfold quiet. intros Hq He. destruct (is_insert e) eqn:Hi; [|done].
  assert (In e (List.filter is_insert evs)) as Hin.
  { apply filter_In. split; [by apply list_elem_of_In|done]. }
  rewrite Hq in Hin. done.
Qed.

(** X8: every [InsertMany] a transfer issues, whether it succeeds or not,
    goes to the collection of that name and carries at least one document
    and at most a batch: the tool never sends an empty batch. *)
Theorem insert_batches_bounded env collectionName batchSize overwrite w c n ok :
  let r := transferCollection env collectionName batchSize overwrite w in
  GoInt.len (documents_of collectionName w) <= GoInt.max_int ->
  EvInsertMany c n ok ∈ issued w r.2 ->
  c = collectionName /\ (1 <= n <= Z.to_nat (effective_batch batchSize))%nat.
Proof.
  cbn zeta. intros Hmax Hin.
  pose proof (effective_batch_pos batchSize) as HB.
  destruct (transfer_cases env collectionName batchSize overwrite w Hmax)
    as [(Hq & _)|(prefix & delivered & cursor_err & evs & stored & d0
                  & Hq & _ & _ & Hlog & _ & Hst)].
  { by apply (quiet_elem _ _ Hq) in Hin. }
  cbn zeta in Hlog. rewrite Hlog in Hin. apply elem_of_app in Hin as [Hin|Hin].
  { by apply (quiet_elem _ _ Hq) in Hin. }
  set (B := effective_batch batchSize) in *.
  assert (Hfull : forall k, EvInsertMany c n ok ∈ replicate k (full_insert collectionName B) ->
                    c = collectionName /\ (1 <= n <= Z.to_nat B)%nat).
  { intros k [[= -> -> ->] _]%elem_of_replicate. split; [done|lia]. }
  inversion Hst as [k e Hk|k f Hk|k r f Hk Hr|k r Hk Hr]; subst.
  - by apply (Hfull k).
  - apply elem_of_app in Hin as [Hin|Hin]; [by apply (Hfull k)|].
    apply list_elem_of_singleton in Hin as [= -> -> ->]. split; [done|lia].
  - apply elem_of_app in Hin as [Hin|Hin]; [by apply (Hfull k)|].
    apply list_elem_of_singleton in Hin as [= -> -> ->]. split; [done|lia].
  - apply elem_of_app in Hin as [Hin|Hin]; [by apply (Hfull k)|].
    destruct (Nat.ltb_spec 0 r); [|by apply elem_of_nil in Hin].
    apply list_elem_of_singleton in Hin as [= -> -> ->]. split; [done|lia].
Qed.

Lemma insert_batches_bounded_witness :
  let r := transferCollection no_faults "users" 2 false Sample.fresh in
  GoInt.len (documents_of "users" Sample.fresh) <= GoInt.max_int /\
  EvInsertMany "users" 1 true ∈ issued Sample.fresh r.2 /\
  "users" = "users" /\ (1 <= 1 <= Z.to_nat (effective_batch 2))%nat.
Proof.
  cbn zeta.
  assert (H1 : GoInt.len (documents_of "users" Sample.fresh) <= GoInt.max_int)
    by (vm_compute; discriminate).
  assert (H2 : EvInsertMany "users" 1 true
               ∈ issued Sample.fresh
                   (transferCollection no_faults "users" 2 false Sample.fresh).2).
  { apply list_elem_of_In. vm_compute. tauto. }
  split; [exact H1|]. split; [exact H2|].
  exact (insert_batches_bounded no_faults "users" 2 false Sample.fresh "users" 1%nat
           true H1 H2).
Defined.

(** * Reading the source indexes *)

Lemma raw_field_missing name (d : bdoc) : name ∉ d.*1 -> raw_field name d = None.
Proof.
  induction d as [|[k v] d IH]; cbn; [done|]. intros Hn.
  apply not_elem_of_cons in Hn as [Hne Hn].
  destruct (String.eqb_spec k name); [congruence|by apply IH].
Qed.

(** Decoding a document without repeated field names keeps every field. *)
Lemma fill_map_lookup name (d : bdoc) : forall m : bsonM,
  NoDup d.*1 ->
  fill_map d m !! name
  = match raw_field name d with Some v => Some (decode v) | None => m !! name end.
Proof.
  induction d as [|[k v] d IH]; intros m Hnd; cbn [fill_map raw_field]; [done|].
  rewrite fmap_cons in Hnd. apply NoDup_cons in Hnd as [Hk Hnd]. cbn [fst] in Hk.
  rewrite IH by done.
  destruct (String.eqb_spec k name) as [->|Hne].
  - by rewrite (raw_field_missing _ _ Hk), lookup_insert_eq.
  - by rewrite lookup_insert_ne.
Qed.

Lemma decodeM_lookup name (d : bdoc) :
  NoDup d.*1 -> decodeM d !! name = decode <$> raw_field name d.
Proof.
  intros Hnd. unfold decodeM. rewrite fill_map_lookup by done.
  by destruct (raw_field name d).
Qed.

Lemma decoded_names (d : bdoc) : (prod_map id decode <$> d).*1 = d.*1.
Proof. induction d as [|[k v] d IH]; cbn; [done|]. by rewrite IH. Qed.

Lemma fill_map_list (d : bdoc) : forall m : bsonM,
  NoDup d.*1 -> (forall k, k ∈ d.*1 -> m !! k = None) ->
  fill_map d m = list_to_map (prod_map id decode <$> d) ∪ m.
Proof.
  induction d as [|[k v] d IH]; intros m Hnd Hm; cbn [fill_map].
  { cbn. by rewrite (left_id_L ∅ (∪)). }
  rewrite fmap_cons in Hnd. apply NoDup_cons in Hnd as [Hk Hnd]. cbn [fst] in Hk.
  rewrite IH; [|done|].
  - cbn. rewrite <- insert_union_l. symmetry. apply insert_union_r.
    apply not_elem_of_list_to_map_1. by rewrite decoded_names.
  - intros k' Hk'. rewrite lookup_insert_ne; [|intros ->; done].
    apply Hm. rewrite fmap_cons. by right.
Qed.

Lemma decoded_keys (keys : bdoc) :
  NoDup keys.*1 -> map_to_list (decodeM keys) ≡ₚ prod_map id decode <$> keys.
Proof.
  intros Hnd. unfold decodeM. rewrite fill_map_list; [|done|done].
  rewrite (right_id_L ∅ (∪)). apply map_to_list_to_map. by rewrite decoded_names.
Qed.

(** The index loop is the loop body applied to every description but the
    identity index, in order. *)
Lemma index_loop_models env items : forall i indexes models,
  index_loop env i items indexes = inr models ->
  exists ms,
    models = indexes ++ ms /\
    Forall2 (fun d m => read_model env (decodeM d) = Some m)
      (List.filter (fun d => negb (is_identity (decodeM d))) items) ms.
Proof.
  induction items as [|raw rest IH]; intros i indexes models; cbn [index_loop List.filter].
  { intros [= <-]. exists []. by rewrite app_nil_r. }
  destruct (index_decode_fault env i); [done|]. cbn zeta.
  fold (is_identity (decodeM raw)).
  destruct (is_identity (decodeM raw)); cbn [negb]; [apply IH|].
  fold (read_options (decodeM raw)).
  destruct (decodeM raw !! "key") as [[| | | |keyM]|] eqn:Hkey; try done.
  intros (ms & -> & Hms)%IH. eexists (_ :: ms). rewrite <- app_assoc. split; [done|].
  constructor; [|done]. unfold read_model. by rewrite Hkey.
Qed.

Lemma index_read_models env coll w models :
  index_read env coll w = inr models ->
  Forall2 (fun d m => read_model env (decodeM d) = Some m)
    (secondary_indexes coll w) models.
Proof.
  unfold index_read, getCollectionIndexes, secondary_indexes.
  change (source_collection coll (emit (EvListIndexes coll) w))
    with (source_collection coll w).
  destruct (list_indexes_fault env); [done|].
  destruct (cursor_run _ _) as [items cursor_err] eqn:Hcur.
  destruct (index_loop env 0 items []) as [|ms] eqn:Hloop; [done|].
  destruct cursor_err; [done|]. cbn [fst]. intros [= <-].
  apply cursor_run_complete in Hcur as ->.
  by apply index_loop_models in Hloop as (ms' & -> & Hms).
Qed.

Lemma is_identity_declared (description : bdoc) :
  NoDup description.*1 ->
  is_identity (decodeM description) = declared_identity description.
Proof.
  intros Hnd. unfold is_identity, declared_identity. rewrite decodeM_lookup by done.
  by destruct (raw_field "name" description) as [[]|].
Qed.

Lemma read_options_declared (description : bdoc) :
  NoDup description.*1 ->
  read_options (decodeM description) = declared_options description.
Proof.
  intros Hnd. unfold read_options, declared_options.
  rewrite !decodeM_lookup by done.
  destruct (raw_field "unique" description) as [[]|],
    (raw_field "sparse" description) as [[]|],
    (raw_field "expireAfterSeconds" description) as [[]|],
    (raw_field "partialFilterExpression" description) as [?|]; reflexivity.
Qed.

(** The model read for a description that is among the secondary ones. *)
Lemma index_read_model env coll w models description :
  index_read env coll w = inr models ->
  description ∈ coll_indexes (source_collection coll w) ->
  is_identity (decodeM description) = false ->
  exists m, m ∈ models /\ read_model env (decodeM description) = Some m.
Proof.
  intros Hread Hin Hid. apply index_read_models in Hread.
  assert (Hsec : description ∈ secondary_indexes coll w).
  { apply list_elem_of_In, filter_In. split; [by apply list_elem_of_In|by rewrite Hid]. }
  apply list_elem_of_lookup in Hsec as [i Hi].
  destruct (Forall2_lookup_l _ _ _ _ _ Hread Hi) as (m & Hm & Hmodel).
  exists m. split; [by eapply list_elem_of_lookup_2|done].
Qed.

(** What the read keeps of a description: its options as declared, its
    keys up to the order in which Go walks the key map. *)
Lemma index_read_faithful env coll w models description :
  range_admissible (map_range env) ->
  index_read env coll w = inr models ->
  description ∈ coll_indexes (source_collection coll w) ->
  NoDup description.*1 ->
  declared_identity description = false ->
  exists keys m,
    declared_keys description = Some keys /\
    m ∈ models /\
    Options m = Some (declared_options description) /\
    (NoDup keys.*1 -> Keys m ≡ₚ keys) /\
    (length keys = 1%nat -> Keys m = keys).
Proof.
  intros Hrange Hread Hin Hnd Hid. rewrite <- is_identity_declared in Hid by done.
  destruct (index_read_model _ _ _ _ _ Hread Hin Hid) as (m & Hm & Hmodel).
  unfold read_model in Hmodel. rewrite decodeM_lookup in Hmodel by done.
  unfold declared_keys.
  destruct (raw_field "key" description) as [[| | | |keys]|]; try done.
  cbn [fmap option_fmap option_map decode] in Hmodel.
  change (decode (BDoc keys)) with (GM (decodeM keys)) in Hmodel.
  injection Hmodel as <-. cbn [Keys Options].
  assert (Hperm : NoDup (prod_map id decode <$> keys).*1 ->
                  map_range env (decodeM keys) ≡ₚ prod_map id decode <$> keys).
  { rewrite decoded_names. intros Hk. etrans; [apply Hrange|]. by apply decoded_keys. }
  eexists _, _. split; [done|]. split; [done|].
  split; [by rewrite read_options_declared|]. split; [done|].
  intros Hone. destruct keys as [|[k v] [|? ?]]; try done.
  apply Permutation_singleton_r, Hperm. cbn. apply NoDup_singleton.
Qed.

(** X9: what a successful transfer keeps of an index.  For every index
    description of the source collection other than the identity index,
    the destination collection has an index with exactly the attributes
    the description declares ([unique] and [sparse] stored as booleans,
    [expireAfterSeconds] stored as a 32-bit integer, the partial filter
    expression), created in the background, and with the declared keys and
    directions, each once, in the order in which Go walks the key map; for
    an index on a single field that is the declared key sequence itself. *)
Theorem transferred_index_faithful env collectionName batchSize overwrite w count w'
    description :
  range_admissible (map_range env) ->
  GoInt.len (documents_of collectionName w) <= GoInt.max_int ->
  transferCollection env collectionName batchSize overwrite w = ((count, None), w') ->
  description ∈ coll_indexes (source_collection collectionName w) ->
  NoDup description.*1 ->
  declared_identity description = false ->
  exists keys c m,
    declared_keys description = Some keys /\
    dest w' !! collectionName = Some c /\
    m ∈ coll_indexes c /\
    Options m = Some (SetBackground true (declared_options description)) /\
    (NoDup keys.*1 -> Keys m ≡ₚ keys) /\
    (length keys = 1%nat -> Keys m = keys).
Proof.
  intros Hrange Hmax Hrun Hin Hnd Hid.
  destruct (transfer_image _ _ _ _ _ _ _ Hmax Hrun) as (models & Hread & Himg & _).
  destruct (index_read_faithful _ _ _ _ _ Hrange Hread Hin Hnd Hid)
    as (keys & m & Hkeys & Hm & Hopt & Hperm & Hone).
  exists keys,
    (mkCollection (decodeM <$> documents_of collectionName w) (in_background <$> models)),
    (in_background m).
  split; [done|]. split.
  { rewrite Himg. unfold image. destruct models; [by apply elem_of_nil in Hm|].
    by destruct (decodeM <$> _). }
  split; [cbn; by apply list_elem_of_fmap_2|].
  unfold in_background. rewrite Hopt. done.
Qed.

Lemma transferred_index_faithful_witness :
  let r := transferCollection no_faults "users" 2 false Sample.fresh in
  range_admissible (map_range no_faults) /\
  GoInt.len (documents_of "users" Sample.fresh) <= GoInt.max_int /\
  r = ((3, None), r.2) /\
  Sample.email_index ∈ coll_indexes (source_collection "users" Sample.fresh) /\
  NoDup Sample.email_index.*1 /\
  declared_identity Sample.email_index = false /\
  exists keys c m,
    declared_keys Sample.email_index = Some keys /\
    dest r.2 !! "users" = Some c /\
    m ∈ coll_indexes c /\
    Options m = Some (SetBackground true (declared_options Sample.email_index)) /\
    (NoDup keys.*1 -> Keys m ≡ₚ keys) /\
    (length keys = 1%nat -> Keys m = keys).
Proof.
  cbn zeta.
  assert (H0 : range_admissible (map_range no_faults)) by (intros m; reflexivity).
  assert (H1 : GoInt.len (documents_of "users" Sample.fresh) <= GoInt.max_int)
    by (vm_compute; discriminate).
  assert (H2 : transferCollection no_faults "users" 2 false Sample.fresh
               = ((3, None), (transferCollection no_faults "users" 2 false
                                Sample.fresh).2))
    by (vm_compute; reflexivity).
  assert (H3 : Sample.email_index
               ∈ coll_indexes (source_collection "users" Sample.fresh)).
  { apply list_elem_of_In. vm_compute. tauto. }
  assert (H4 : NoDup Sample.email_index.*1).
  { apply NoDup_ListNoDup. repeat constructor; cbn; intuition discriminate. }
  assert (H5 : declared_identity Sample.email_index = false) by reflexivity.
  split; [exact H0|]. split; [exact H1|]. split; [exact H2|]. split; [exact H3|].
  split; [exact H4|]. split; [exact H5|].
  exact (transferred_index_faithful no_faults "users" 2 false Sample.fresh 3 _
           Sample.email_index H0 H1 H2 H3 H4 H5).
Defined.

(** X10: a description whose key is not a document stops the read, in
    every environment: no model is returned for a collection that has such
    an index. *)
Theorem malformed_index_key env collectionName w description :
  description ∈ coll_indexes (source_collection collectionName w) ->
  NoDup description.*1 ->
  declared_identity description = false ->
  declared_keys description = None ->
  exists e, index_read env collectionName w = inl e.
Proof.
  intros Hin Hnd Hid Hkeys. rewrite <- is_identity_declared in Hid by done.
  destruct (index_read env collectionName w) as [e|models] eqn:Hread; [by exists e|].
  destruct (index_read_model _ _ _ _ _ Hread Hin Hid) as (m & Hm & Hmodel).
  unfold read_model in Hmodel. rewrite decodeM_lookup in Hmodel by done.
  unfold declared_keys in Hkeys.
  by destruct (raw_field "key" description) as [[| | | |keys]|].
Qed.

Lemma malformed_index_key_witness :
  let w := Sample.places Cases.broken_index in
  Cases.broken_index ∈ coll_indexes (source_collection "places" w) /\
  NoDup Cases.broken_index.*1 /\
  declared_identity Cases.broken_index = false /\
  declared_keys Cases.broken_index = None /\
  exists e, index_read no_faults "places" w = inl e.
Proof.
  cbn zeta.
  assert (H1 : Cases.broken_index
               ∈ coll_indexes (source_collection "places"
                                 (Sample.places Cases.broken_index))).
  { apply list_elem_of_In. vm_compute. tauto. }
  assert (H2 : NoDup Cases.broken_index.*1).
  { apply NoDup_ListNoDup. repeat constructor; cbn; intuition discriminate. }
  assert (H3 : declared_identity Cases.broken_index = false) by reflexivity.
  assert (H4 : declared_keys Cases.broken_index = None) by reflexivity.
  split; [exact H1|]. split; [exact H2|]. split; [exact H3|]. split; [exact H4|].
  exact (malformed_index_key no_faults "places" (Sample.places Cases.broken_index)
           Cases.broken_index H1 H2 H3 H4).
Defined.

(** X11: a successful read returns one model for every description other
    than the identity index, and none for the identity index. *)
Theorem index_read_count env collectionName w models :
  index_read env collectionName w = inr models ->
  length models = length (secondary_indexes collectionName w).
Proof. intros Hread%index_read_models. symmetry. by eapply Forall2_length. Qed.

Lemma index_read_count_witness :
  exists models,
    index_read no_faults "users" Sample.fresh = inr models /\
    length models = length (secondary_indexes "users" Sample.fresh) /\
    length models = 1%nat.
Proof.
  destruct (index_read no_faults "users" Sample.fresh) as [e|models] eqn:Hread;
    [vm_compute in Hread; discriminate Hread|].
  exists models. split; [reflexivity|].
  pose proof (index_read_count no_faults "users" Sample.fresh models Hread) as Hlen.
  split; [exact Hlen|]. rewrite Hlen. reflexivity.
Defined.

(** ** Images up to the order of index keys *)

Lemma read_model_kept env d m :
  range_admissible (map_range env) ->
  read_model env (decodeM d) = Some m ->
  index_kept d (in_background m).
Proof.
  intros Hrange. unfold read_model.
  destruct (decodeM d !! "key") as [[| | | |keyM]|] eqn:Hkey; try done.
  intros [= <-]. split; [done|]. exists keyM. split; [done|]. apply Hrange.
Qed.

(** What a transfer creates from the models it read is an image of the
    source collection. *)
Lemma image_replica env name w0 indexes :
  range_admissible (map_range env) ->
  index_read env name w0 = inr indexes ->
  replica w0 name (image (decodeM <$> documents_of name w0) indexes).
Proof.
  intros Hrange Hread%index_read_models.
  assert (Hkept : Forall2 index_kept (secondary_indexes name w0)
                    (in_background <$> indexes)).
  { apply Forall2_fmap_r. eapply Forall2_impl; [exact Hread|].
    intros d m Hm. by apply (read_model_kept env). }
  unfold image, replica.
  destruct (documents_of name w0) as [|doc docs]; cbn [fmap list_fmap].
  - destruct indexes as [|ix indexes].
    + split; [done|]. by apply Forall2_nil_inv_r in Hread.
    + split; [done|]. split; [done|]. right. intros Hnil.
      rewrite Hnil in Hread. by apply Forall2_nil_inv_l in Hread.
  - split; [done|]. split; [done|]. by left.
Qed.


Lemma Forall2_functional {A B} (P Q : A -> B -> Prop) l : forall l1 l2,
  (forall x a b, P x a -> Q x b -> a = b) ->
  Forall2 P l l1 -> Forall2 Q l l2 -> l1 = l2.
Proof.
  intros l1 l2 Hfun H1. revert l2.
  induction H1 as [|x a l l1 Hxa _ IH]; intros l2 H2.
  - by apply Forall2_nil_inv_l in H2.
  - apply Forall2_cons_inv_l in H2 as (b & l2' & Hxb & H2 & ->).
    f_equal; [by eapply Hfun|by apply IH].
Qed.

(** The models read depend on the environment only through the order in
    which it walks the key maps. *)
Lemma index_read_same_range env1 env2 name w ix1 ix2 :
  (forall m, map_range env2 m = map_range env1 m) ->
  index_read env1 name w = inr ix1 ->
  index_read env2 name w = inr ix2 ->
  ix2 = ix1.
Proof.
  intros Hsame H1%index_read_models H2%index_read_models.
  eapply Forall2_functional; [|exact H2|exact H1].
  intros d a b. unfold read_model.
  destruct (decodeM d !! "key") as [[| | | |keyM]|]; try done.
  rewrite Hsame. congruence.
Qed.

(** X4: transferring a collection again, with the overwrite flag, gives the
    same result up to the order of index keys, also when the second
    transfer meets another environment: the second successful transfer
    returns the same count and leaves every other collection alone, and
    after either transfer the destination collection is an image of the
    source collection, with the same documents and the same indexes up
    to the order of their keys.  When Go walks the key maps in the same
    order both times, the second transfer leaves the destination exactly
    as the first one left it. *)
Theorem overwrite_rerun_idempotent env1 env2 collectionName b1 b2 overwrite w
    c1 c2 w1 w2 :
  range_admissible (map_range env1) ->
  range_admissible (map_range env2) ->
  GoInt.len (documents_of collectionName w) <= GoInt.max_int ->
  transferCollection env1 collectionName b1 overwrite w = ((c1, None), w1) ->
  transferCollection env2 collectionName b2 true w1 = ((c2, None), w2) ->
  c2 = c1 /\
  replica w collectionName (dest w1 !! collectionName) /\
  replica w collectionName (dest w2 !! collectionName) /\
  (forall c, c <> collectionName -> dest w2 !! c = dest w1 !! c) /\
  ((forall m, map_range env2 m = map_range env1 m) -> dest w2 = dest w1).
Proof.
  intros Hr1 Hr2 Hmax H1 H2.
  pose proof (transfer_world env1 collectionName b1 overwrite w) as [Hs1 _].
  pose proof (transfer_world env2 collectionName b2 true w1) as [_ Hd2].
  rewrite H1 in Hs1. rewrite H2 in Hd2. cbn [snd] in *.
  pose proof (documents_of_same_source collectionName w w1 Hs1) as Hdocs.
  destruct (transfer_image _ _ _ _ _ _ _ Hmax H1) as (ix1 & Hread1 & Hi1 & ->).
  rewrite <- Hdocs in Hmax.
  destruct (transfer_image _ _ _ _ _ _ _ Hmax H2) as (ix2 & Hread2 & Hi2 & ->).
  rewrite (index_read_same_source env2 collectionName w1 w Hs1) in Hread2.
  rewrite Hdocs in Hi2.
  split; [by rewrite Hdocs|].
  split; [rewrite Hi1; by apply (image_replica env1)|].
  split; [rewrite Hi2; by apply (image_replica env2)|].
  split; [exact Hd2|].
  intros Hsame. apply map_eq. intros c.
  destruct (decide (c = collectionName)) as [->|Hne]; [|by apply Hd2].
  rewrite Hi1, Hi2. by rewrite (index_read_same_range env1 env2 _ _ _ _ Hsame Hread1 Hread2).
Qed.

Lemma overwrite_rerun_idempotent_witness :
  let w := Sample.places Sample.zip_age_index in
  let r1 := transferCollection no_faults "places" 2 false w in
  let r2 := transferCollection Cases.backwards "places" 50 true r1.2 in
  range_admissible (map_range no_faults) /\
  range_admissible (map_range Cases.backwards) /\
  GoInt.len (documents_of "places" w) <= GoInt.max_int /\
  r1 = ((1, None), r1.2) /\
  r2 = ((1, None), r2.2) /\
  (fun c => Keys <$> coll_indexes c) <$> dest r1.2 !! "places"
  = Some [[("age", GInt32 1); ("zip", GInt32 (-1))]] /\
  (fun c => Keys <$> coll_indexes c) <$> dest r2.2 !! "places"
  = Some [[("zip", GInt32 (-1)); ("age", GInt32 1)]] /\
  1 = 1 /\
  replica w "places" (dest r1.2 !! "places") /\
  replica w "places" (dest r2.2 !! "places").
Proof.
  cbn zeta.
  assert (H1 : range_admissible (map_range no_faults)) by (intros m; reflexivity).
  assert (H2 : range_admissible (map_range Cases.backwards))
    by (intros m; apply reverse_Permutation).
  assert (H3 : GoInt.len (documents_of "places" (Sample.places Sample.zip_age_index))
               <= GoInt.max_int)
    by (vm_compute; discriminate).
  assert (H4 : transferCollection no_faults "places" 2 false
                 (Sample.places Sample.zip_age_index)
               = ((1, None),
                  (transferCollection no_faults "places" 2 false
                     (Sample.places Sample.zip_age_index)).2))
    by (vm_compute; reflexivity).
  assert (H5 : transferCollection Cases.backwards "places" 50 true
                 (transferCollection no_faults "places" 2 false
                    (Sample.places Sample.zip_age_index)).2
               = ((1, None),
                  (transferCollection Cases.backwards "places" 50 true
                     (transferCollection no_faults "places" 2 false
                        (Sample.places Sample.zip_age_index)).2).2))
    by (vm_compute; reflexivity).
  split; [exact H1|]. split; [exact H2|]. split; [exact H3|]. split; [exact H4|].
  split; [exact H5|]. split; [vm_compute; reflexivity|].
  split; [vm_compute; reflexivity|].
  destruct (overwrite_rerun_idempotent no_faults Cases.backwards "places" 2 50 false
              (Sample.places Sample.zip_age_index) 1 1 _ _ H1 H2 H3 H4 H5)
    as (Hc & Hrep1 & Hrep2 & _).
  split; [exact Hc|]. split; [exact Hrep1|exact Hrep2].
Defined.

(** * More about a run *)

Lemma TransferCollection_world env params collName w :
  source (TransferCollection env params collName w).2 = source w /\
  forall c, c <> collName ->
    dest (TransferCollection env params collName w).2 !! c = dest w !! c.
Proof.
  unfold TransferCollection.
  destruct (connectToMongoDB (connect_source env)); [done|].
  destruct (connectToMongoDB (connect_dest env)); [done|].
  pose proof (transfer_world env collName (BatchSize params)
                (OverwriteDestination params) w) as Hw.
  destruct (transferCollection env collName (BatchSize params)
              (OverwriteDestination params) w) as [[count [err|]] w']; exact Hw.
Qed.


Lemma in_flight_elem ws i collName :
  ws !! i = Some (Transferring collName) -> collName ∈ in_flight ws.
Proof.
  revert i. induction ws as [|s ws IH]; intros [|i]; cbn; try done.
  - intros [= ->]. by left.
  - intros Hi%IH. destruct s; [done| by right|done].
Qed.

(** A move of the pool leaves the source alone, and every destination
    collection that is not among the names of the pool. *)
Lemma pool_step_world params collections d p p' :
  pool_inv collections p ->
  pool_step params d p = Some p' ->
  source (pool_world p') = source (pool_world p) /\
  forall c, c ∉ collections ->
    dest (pool_world p') !! c = dest (pool_world p) !! c.
Proof.
  intros [Hperm _]. destruct d as [i env]. unfold pool_step.
  destruct (workers p !! i) as [[|collName|]|] eqn:Hi; try done.
  { destruct (collectionCh p); intros [= <-]; done. }
  pose proof (TransferCollection_world env params collName (pool_world p)) as [Hs Hd].
  destruct (TransferCollection env params collName (pool_world p)) as [[res err] w'].
  intros [= <-]. cbn [pool_world snd] in *. split; [done|].
  intros c Hc. apply Hd. intros ->. apply Hc. rewrite <- Hperm.
  apply elem_of_app. right. apply elem_of_app. left. by eapply in_flight_elem.
Qed.

Lemma pool_run_world params collections sched : forall p p',
  pool_inv collections p ->
  pool_run params sched p = Some p' ->
  source (pool_world p') = source (pool_world p) /\
  forall c, c ∉ collections ->
    dest (pool_world p') !! c = dest (pool_world p) !! c.
Proof.
  induction sched as [|d sched IH]; intros p p' Hinv; cbn [pool_run].
  { by intros [= <-]. }
  destruct (pool_step params d p) as [p1|] eqn:Hstep; [|done]. intros Hrun.
  destruct (pool_step_world _ _ _ _ _ Hinv Hstep) as [Hs Hd].
  apply pool_step_inv with (collections := collections) in Hstep as [Hinv1 _]; [|done].
  destruct (IH _ _ Hinv1 Hrun) as [Hs' Hd'].
  split; [congruence|]. intros c Hc. rewrite Hd' by done. by apply Hd.
Qed.

(** X12: a destination collection that a run changes is one of the names
    the run resolved: collections the request does not name are left as
    they were, whatever the schedule and whatever fails. *)
Theorem run_frame renv sched params workerCount w res err w' c :
  runTransfer renv sched params workerCount w = Some ((res, err), w') ->
  dest w' !! c <> dest w !! c ->
  exists collections,
    GetCollections renv params w = inr collections /\ c ∈ collections.
Proof.
  intros Hrun Hc. apply runTransfer_returns in Hrun
    as [(_ & -> & _)|(collections & p & _ & Hget & _ & Hpool & _ & _ & _ & ->)]; [done|].
  apply pool_run_world with (collections := collections) in Hpool as [_ Hd];
    [|apply start_pool_inv].
  exists collections. split; [done|].
  destruct (decide (c ∈ collections)) as [|Hn]; [done|].
  destruct Hc. by apply Hd.
Qed.

Lemma run_frame_witness :
  let params := Sample.params ["users"] 2 true in
  exists res err w',
    runTransfer run_ok (Sample.one_by_one no_faults) params 3 Cases.crowded
    = Some ((res, err), w') /\
    dest w' !! "users" <> dest Cases.crowded !! "users" /\
    dest w' !! "archive" = dest Cases.crowded !! "archive" /\
    exists collections,
      GetCollections run_ok params Cases.crowded = inr collections /\
      "users" ∈ collections.
Proof.
  cbn zeta.
  destruct (runTransfer run_ok (Sample.one_by_one no_faults)
              (Sample.params ["users"] 2 true) 3 Cases.crowded)
    as [[[res err] w']|] eqn:Hrun; [|vm_compute in Hrun; discriminate Hrun].
  pose proof (run_frame _ _ _ _ _ _ _ _ "users" Hrun) as Hd.
  assert (Hne : dest w' !! "users" <> dest Cases.crowded !! "users").
  { vm_compute in Hrun. injection Hrun as _ _ <-. vm_compute. discriminate. }
  exists res, err, w'. split; [reflexivity|]. split; [exact Hne|].
  split; [|exact (Hd Hne)].
  vm_compute in Hrun. injection Hrun as _ _ <-. vm_compute. reflexivity.
Defined.

(** X13: the total of a run counts the collections that succeeded and
    nothing else: an outcome that failed adds nothing, however many
    documents its transfer had copied. *)
Theorem run_total_successful renv sched params workerCount w res err w' :
  runTransfer renv sched params workerCount w = Some ((res, err), w') ->
  TotalDocuments res
  = GoInt.wrap (sum_documents (List.filter Success (CollectionResults res))).
Proof.
  intros Hrun. apply runTransfer_returns in Hrun
    as [(-> & _)|(collections & p & _ & _ & _ & Hpool & _ & -> & _)]; [done|].
  rewrite collect_results_spec. cbn [TotalDocuments CollectionResults]. f_equal.
  apply failed_outcomes_add_nothing.
  apply (pool_run_results params _ sched) with (p := start_pool collections
    (if workerCount <=? 0 then 3 else workerCount) w); [|by constructor|done].
  intros env collName w0. apply TransferCollection_failed_count.
Qed.

Lemma run_total_successful_witness :
  let params := Sample.params ["users"] 2 false in
  exists res err w',
    runTransfer run_ok (Sample.one_by_one Sample.second_insert_fails) params 3
      Sample.fresh
    = Some ((res, err), w') /\
    TotalDocuments res
    = GoInt.wrap (sum_documents (List.filter Success (CollectionResults res))) /\
    TotalDocuments res = 0.
Proof.
  cbn zeta.
  destruct (runTransfer run_ok (Sample.one_by_one Sample.second_insert_fails)
              (Sample.params ["users"] 2 false) 3 Sample.fresh)
    as [[[res err] w']|] eqn:Hrun; [|vm_compute in Hrun; discriminate Hrun].
  exists res, err, w'. split; [reflexivity|].
  split; [exact (run_total_successful _ _ _ _ _ _ _ _ Hrun)|].
  vm_compute in Hrun. injection Hrun as <- _ _. reflexivity.
Defined.






Lemma getCollectionsList_names renv w names :
  getCollectionsList renv w = inr names ->
  NoDup names /\ forall c, c ∈ names <-> is_Some (source w !! c).
Proof.
  unfold getCollectionsList. destruct (list_source_fault renv); [done|].
  intros [= <-]. split; [apply NoDup_fst_map_to_list|].
  intros c. rewrite list_elem_of_fmap. split.
  - intros ([c' x] & -> & Hin%elem_of_map_to_list). by exists x.
  - intros [x Hx]. exists (c, x). split; [done|]. by apply elem_of_map_to_list.
Qed.

(** X15: when the request names no collection, the run transfers the
    source database as a whole: it returns one outcome for each collection
    the source has, each collection once, and none for any other name. *)
Theorem run_covers_source renv sched params workerCount w res w' :
  Collections params = [] ->
  runTransfer renv sched params workerCount w = Some ((res, None), w') ->
  NoDup (CollectionName <$> CollectionResults res) /\
  forall c, c ∈ CollectionName <$> CollectionResults res <-> is_Some (source w !! c).
Proof.
  intros Hall Hrun. apply runTransfer_returns in Hrun
    as [(-> & -> & Hnone)|(collections & p & _ & Hget & _ & Hpool & Hret & -> & _ & ->)].
  { destruct (GetCollections_empty renv params w (Hnone eq_refl)) as [_ Hsrc].
    cbn. split; [constructor|]. intros c. rewrite Hsrc, lookup_empty.
    split; [by intros ?%elem_of_nil|by intros []]. }
  set (W := if workerCount <=? 0 then 3 else workerCount) in *.
  assert (HW : 0 < W) by (unfold W; destruct (Z.leb_spec workerCount 0); lia).
  rewrite collect_results_spec. cbn [CollectionResults].
  destruct (pool_finished params collections W w sched p HW Hpool Hret) as [Hperm _].
  assert (Hlist : getCollectionsList renv w = inr collections).
  { revert Hget. unfold GetCollections. rewrite Hall. cbn.
    destruct (connectToMongoDB (collections_connect renv)); [done|].
    by destruct (getCollectionsList renv w). }
  apply getCollectionsList_names in Hlist as [Hnd Hdom].
  split; [by rewrite Hperm|]. intros c. by rewrite Hperm.
Qed.

Lemma run_covers_source_witness :
  let params := Sample.params [] 2 false in
  Collections params = [] /\
  exists res w',
    runTransfer run_ok (Sample.one_by_one no_faults) params 3 Sample.fresh
    = Some ((res, None), w') /\
    NoDup (CollectionName <$> CollectionResults res) /\
    (forall c, c ∈ CollectionName <$> CollectionResults res
               <-> is_Some (source Sample.fresh !! c)) /\
    CollectionName <$> CollectionResults res = ["users"].
Proof.
  cbn zeta.
  assert (H1 : Collections (Sample.params [] 2 false) = []) by reflexivity.
  split; [exact H1|].
  destruct (runTransfer run_ok (Sample.one_by_one no_faults)
              (Sample.params [] 2 false) 3 Sample.fresh)
    as [[[res [err|]] w']|] eqn:Hrun;
    [vm_compute in Hrun; discriminate Hrun| |vm_compute in Hrun; discriminate Hrun].
  destruct (run_covers_source _ _ _ _ _ _ _ H1 Hrun) as [Hnd Hdom].
  exists res, w'. split; [reflexivity|]. split; [exact Hnd|]. split; [exact Hdom|].
  vm_compute in Hrun. injection Hrun as <- _. reflexivity.
Defined.

(** * The list of collection names *)

Lemma string_app_assoc (a b c : string) : (a +:+ b) +:+ c = a +:+ (b +:+ c).
Proof.
  induction a as [|x a IH]; [done|].
  change (String x ((a +:+ b) +:+ c) = String x (a +:+ (b +:+ c))). by f_equal.
Qed.

Lemma string_app_empty_r (a : string) : a +:+ EmptyString = a.
Proof.
  induction a as [|x a IH]; [done|].
  change (String x (a +:+ EmptyString) = String x a). by f_equal.
Qed.

Lemma string_app_nonempty (a : string) (c : ascii) :
  a +:+ String c EmptyString <> EmptyString.
Proof. by destruct a. Qed.

Lemma keep_nonempty_filter ps : forall result,
  keep_nonempty ps result = result ++ List.filter nonempty ps.
Proof.
  induction ps as [|p ps IH]; intros result; cbn [keep_nonempty List.filter].
  - by rewrite app_nil_r.
  - fold (nonempty p). destruct (nonempty p); rewrite IH; [|done].
    by rewrite <- app_assoc.
Qed.

(** The names are the non-empty pieces. *)
Lemma parse_pieces input :
  parseCommaSeparatedList input = List.filter nonempty (pieces input [] EmptyString).
Proof.
  unfold parseCommaSeparatedList, splitCommas, pieces.
  destruct (String.eqb_spec input EmptyString) as [->|_]; [done|].
  rewrite keep_nonempty_filter. cbn [app].
  destruct (splitCommas_loop input [] EmptyString) as [r c].
  rewrite List.filter_app. cbn [List.filter]. unfold nonempty at 3.
  destruct (negb (String.eqb c EmptyString)) eqn:Hc; [|by rewrite app_nil_r].
  rewrite List.filter_app. cbn [List.filter]. unfold nonempty at 2. by rewrite Hc.
Qed.

Lemma splitCommas_loop_result s : forall r0 r c,
  splitCommas_loop s (r0 ++ r) c
  = ((r0 ++ (splitCommas_loop s r c).1), (splitCommas_loop s r c).2).
Proof.
  induction s as [|x s IH]; intros r0 r c; cbn [splitCommas_loop]; [done|].
  destruct (Ascii.eqb x comma); [by rewrite <- app_assoc, IH|].
  destruct (_ && _); apply IH.
Qed.

Lemma splitCommas_loop_app s1 s2 : forall r c,
  splitCommas_loop (s1 +:+ s2) r c
  = splitCommas_loop s2 (splitCommas_loop s1 r c).1 (splitCommas_loop s1 r c).2.
Proof.
  induction s1 as [|x s1 IH]; intros r c; [done|].
  change (String x s1 +:+ s2) with (String x (s1 +:+ s2)). cbn [splitCommas_loop].
  destruct (Ascii.eqb x comma); [apply IH|]. destruct (_ && _); apply IH.
Qed.

Lemma pieces_comma s1 s2 :
  pieces (s1 +:+ String comma s2) [] EmptyString
  = pieces s1 [] EmptyString ++ pieces s2 [] EmptyString.
Proof.
  unfold pieces. rewrite splitCommas_loop_app.
  destruct (splitCommas_loop s1 [] EmptyString) as [r1 c1]. cbn [fst snd splitCommas_loop].
  rewrite Ascii.eqb_refl.
  rewrite <- (app_nil_r (r1 ++ [c1])) at 1. rewrite splitCommas_loop_result.
  destruct (splitCommas_loop s2 [] EmptyString) as [r2 c2]. cbn [fst snd].
  by rewrite <- !app_assoc.
Qed.

Lemma splitCommas_loop_plain name : forall r c,
  string_forallb (fun x => negb (is_special x)) name = true ->
  splitCommas_loop name r c = (r, c +:+ name).
Proof.
  induction name as [|x name IH]; intros r c; cbn [splitCommas_loop string_forallb].
  - intros _. by rewrite string_app_empty_r.
  - intros [Hx Hname]%andb_prop. unfold is_special, is_blank in Hx.
    destruct (Ascii.eqb x comma); [done|].
    destruct (Ascii.eqb x space); [done|]. destruct (Ascii.eqb x tab); [done|].
    cbn [negb andb]. rewrite IH by done. by rewrite string_app_assoc.
Qed.

Lemma parse_plain name :
  plain_name name = true -> parseCommaSeparatedList name = [name].
Proof.
  unfold plain_name. intros [Hne Hplain]%andb_prop.
  rewrite parse_pieces. unfold pieces. rewrite splitCommas_loop_plain by done.
  change (EmptyString +:+ name) with name. cbn. unfold nonempty. by rewrite Hne.
Qed.

(** X16: the names cut from two lists joined by a comma are the names of the
    first followed by the names of the second. *)
Theorem parse_comma s1 s2 :
  parseCommaSeparatedList (s1 +:+ String comma s2)
  = parseCommaSeparatedList s1 ++ parseCommaSeparatedList s2.
Proof. by rewrite !parse_pieces, pieces_comma, List.filter_app. Qed.

(** X17: joining plain names of ASCII characters with commas and parsing
    gives the names back. *)
Theorem parse_join names :
  forallb plain_name names = true ->
  forallb ascii_string names = true ->
  parseCommaSeparatedList (join_commas names) = names.
Proof.
  intros Hplain _. revert Hplain.
  unfold join_commas. induction names as [|n names IH]; [done|].
  cbn [forallb]. intros [Hn Hnames]%andb_prop.
  destruct names as [|n' names]; [by apply parse_plain|].
  change (String.concat "," (n :: n' :: names))
    with (n +:+ String comma (String.concat "," (n' :: names))).
  rewrite parse_pieces, pieces_comma, List.filter_app, <- !parse_pieces.
  by rewrite parse_plain, IH.
Qed.

Lemma parse_join_witness :
  forallb plain_name ["users"; "orders"; "line_items"] = true /\
  forallb ascii_string ["users"; "orders"; "line_items"] = true /\
  join_commas ["users"; "orders"; "line_items"] = "users,orders,line_items" /\
  parseCommaSeparatedList (join_commas ["users"; "orders"; "line_items"])
  = ["users"; "orders"; "line_items"].
Proof.
  assert (H1 : forallb plain_name ["users"; "orders"; "line_items"] = true)
    by reflexivity.
  assert (H2 : forallb ascii_string ["users"; "orders"; "line_items"] = true)
    by reflexivity.
  split; [exact H1|]. split; [exact H2|]. split; [reflexivity|].
  exact (parse_join ["users"; "orders"; "line_items"] H1 H2).
Defined.

Lemma pieces_plain s : forall r c,
  forallb plain_name (List.filter nonempty r) = true ->
  string_forallb (fun x => negb (is_special x)) c = true ->
  forallb plain_name (List.filter nonempty (pieces s r c)) = true.
Proof.
  assert (Hstep : forall r c,
             forallb plain_name (List.filter nonempty r) = true ->
             string_forallb (fun x => negb (is_special x)) c = true ->
             forallb plain_name (List.filter nonempty (r ++ [c])) = true).
  { intros r c Hr Hc. rewrite List.filter_app, forallb_app, Hr. cbn.
    destruct (nonempty c) eqn:Hne; [|done]. cbn. unfold plain_name.
    unfold nonempty in Hne. by rewrite Hne, Hc. }
  assert (Hsnoc : forall c x,
             string_forallb (fun x => negb (is_special x)) c = true ->
             is_special x = false ->
             string_forallb (fun x => negb (is_special x)) (c +:+ String x EmptyString) = true).
  { intros c x Hc Hx. induction c as [|y c IH].
    - change (EmptyString +:+ String x EmptyString) with (String x EmptyString).
      cbn. by rewrite Hx.
    - change (String y c +:+ String x EmptyString) with (String y (c +:+ String x EmptyString)).
      cbn [string_forallb] in *. apply andb_prop in Hc as [Hy Hc].
      by rewrite Hy, IH. }
  unfold pieces. induction s as [|x s IH]; intros r c Hr Hc; cbn [splitCommas_loop].
  - by apply Hstep.
  - destruct (Ascii.eqb x comma) eqn:Hcomma; [apply IH; [by apply Hstep|done]|].
    destruct (negb (Ascii.eqb x space) && negb (Ascii.eqb x tab)) eqn:Hblank;
      [|by apply IH].
    apply IH; [done|]. apply Hsnoc; [done|].
    unfold is_special, is_blank. rewrite Hcomma.
    by destruct (Ascii.eqb x space), (Ascii.eqb x tab).
Qed.

(** X18: every name the parser returns is plain: not empty, and without
    comma, space or tab. *)
Theorem parse_names_plain input :
  forallb plain_name (parseCommaSeparatedList input) = true.
Proof. rewrite parse_pieces. by apply pieces_plain. Qed.

Lemma pieces_none s : forall r c,
  List.filter nonempty (pieces s r c) = [] <->
  List.filter nonempty r = [] /\ c = EmptyString /\ string_forallb is_special s = true.
Proof.
  unfold pieces. induction s as [|x s IH]; intros r c;
    cbn [splitCommas_loop string_forallb].
  - rewrite List.filter_app. cbn. unfold nonempty.
    destruct (String.eqb_spec c EmptyString) as [->|Hc]; cbn.
    + rewrite app_nil_r. intuition congruence.
    + split; [by intros [_ [=]]%app_eq_nil|intuition congruence].
  - unfold is_special, is_blank.
    destruct (Ascii.eqb x comma) eqn:Hcomma.
    { rewrite IH, List.filter_app. cbn. unfold nonempty.
      destruct (String.eqb_spec c EmptyString) as [->|Hc]; cbn.
      - rewrite app_nil_r. intuition congruence.
      - split; [by intros [[_ [=]]%app_eq_nil _]|intuition congruence]. }
    destruct (Ascii.eqb x space), (Ascii.eqb x tab); cbn [negb andb orb];
      rewrite IH; try intuition congruence.
    split; [|intuition congruence]. intros (_ & Hc & _). by apply string_app_nonempty in Hc.
Qed.

(** X19: the parser returns no name exactly when the input consists of
    commas, spaces and tabs only. *)
Theorem parse_nothing input :
  parseCommaSeparatedList input = [] <-> string_forallb is_special input = true.
Proof. rewrite parse_pieces, pieces_none. intuition congruence. Qed.

Lemma parse_nothing_witness :
  string_forallb is_special " , ,, " = true /\
  parseCommaSeparatedList " , ,, " = [].
Proof.
  assert (H1 : string_forallb is_special " , ,, " = true) by reflexivity.
  split; [exact H1|].
  exact (proj2 (parse_nothing " , ,, ") H1).
Defined.

Lemma splitCommas_loop_blanks s : forall r c,
  splitCommas_loop (string_filter (fun x => negb (is_blank x)) s) r c
  = splitCommas_loop s r c.
Proof.
  induction s as [|x s IH]; intros r c; cbn [string_filter splitCommas_loop]; [done|].
  unfold is_blank.
  destruct (Ascii.eqb x space) eqn:Hs, (Ascii.eqb x tab) eqn:Ht;
    cbn [negb andb orb splitCommas_loop]; rewrite ?Hs, ?Ht; cbn [negb andb].
  4:{ destruct (Ascii.eqb x comma); apply IH. }
  all: assert (Hcomma : Ascii.eqb x comma = false)
      by (first [apply Ascii.eqb_eq in Hs as ->|apply Ascii.eqb_eq in Ht as ->]; done).
  all: rewrite Hcomma; apply IH.
Qed.

(** X20: in an input of ASCII characters spaces and tabs count for nothing,
    wherever they stand, inside a name included: the input parses as the
    input without them. *)
Theorem parse_ignores_blanks input :
  ascii_string input = true ->
  parseCommaSeparatedList (string_filter (fun x => negb (is_blank x)) input)
  = parseCommaSeparatedList input.
Proof. intros _. rewrite !parse_pieces. unfold pieces. by rewrite splitCommas_loop_blanks. Qed.

Lemma parse_ignores_blanks_witness :
  ascii_string "users, or ders" = true /\
  string_filter (fun x => negb (is_blank x)) "users, or ders" = "users,orders" /\
  parseCommaSeparatedList "users,orders" = ["users"; "orders"] /\
  parseCommaSeparatedList (string_filter (fun x => negb (is_blank x)) "users, or ders")
  = parseCommaSeparatedList "users, or ders".
Proof.
  assert (H1 : ascii_string "users, or ders" = true) by reflexivity.
  split; [exact H1|]. split; [reflexivity|]. split; [reflexivity|].
  exact (parse_ignores_blanks "users, or ders" H1).
Defined.

(** * The process *)

(** The exit status of a process whose command line has been parsed. *)
Lemma main_parsed_status flags renv sched w status out w' :
  main (Parsed flags) renv sched w = Some ((status, out), w') ->
  (status = 0 /\
   required_flags flags = true /\
   exists res,
     runTransfer renv sched (main_params flags) (flag_workers flags) w
     = Some ((res, None), w') /\
     OverallSuccess res = true /\
     out = printSummary res)
  \/ status = 1.
Proof.
  unfold main, required_flags, nonempty.
  destruct (String.eqb (flag_source flags) EmptyString),
    (String.eqb (flag_dest flags) EmptyString),
    (String.eqb (flag_source_db flags) EmptyString),
    (String.eqb (flag_dest_db flags) EmptyString); cbn [orb andb negb];
    try (intros [= <- <- <-]; by right).
  destruct (runTransfer renv sched (main_params flags) (flag_workers flags) w)
    as [[[res [err|]] w1]|] eqn:Hrun; [| |done].
  - intros [= <- <- <-]. by right.
  - destruct (OverallSuccess res) eqn:Hsuc; cbn [negb]; intros [= <- <- <-];
      [left|by right].
    split; [done|]. split; [done|]. by exists res.
Qed.

(** The overall success flag of a run that returned. *)
Lemma run_overall_success renv sched params workerCount w res err w' :
  runTransfer renv sched params workerCount w = Some ((res, err), w') ->
  OverallSuccess res = true <->
  forall r, r ∈ CollectionResults res -> Success r = true.
Proof.
  intros Hrun. apply runTransfer_returns in Hrun
    as [(-> & _)|(collections & p & _ & _ & _ & _ & _ & -> & _)].
  - split; [by intros _ r ?%elem_of_nil|done].
  - rewrite collect_results_spec. cbn [OverallSuccess CollectionResults].
    rewrite forallb_forall. split; intros H r Hr; apply H; by apply list_elem_of_In.
Qed.

(** X21: the exit status of the process.  It is 0 exactly when the command
    line asks for help, or when it parses, the four required flags are
    set, the run returns without an error, and every collection it
    resolved was transferred successfully; the standard output is then
    empty, respectively the summary of that run.  On a command line that
    does not parse the process ends with status 2 before anything is
    done. *)
Theorem main_exit_status args renv sched w out w' :
  (main args renv sched w = Some ((0, out), w') <->
   (args = HelpRequested /\ out = EmptyString /\ w' = w) \/
   (exists flags,
      args = Parsed flags /\
      required_flags flags = true /\
      exists res,
        runTransfer renv sched (main_params flags) (flag_workers flags) w
        = Some ((res, None), w') /\
        (forall r, r ∈ CollectionResults res -> Success r = true) /\
        out = printSummary res)) /\
  (args = Malformed ->
   main args renv sched w = Some ((2, EmptyString), w)).
Proof.
  destruct args as [| |flags].
  - cbn [main]. split; [split|done].
    + intros [= <- <-]. by left.
    + intros [(_ & -> & ->)|(flags & [=] & _)]. done.
  - cbn [main]. split; [split|done].
    + intros [=].
    + intros [([=] & _)|(flags & [=] & _)].
  - split; [split|done].
    + intros Hmain. right. exists flags. split; [done|].
      apply main_parsed_status in Hmain
        as [(_ & Hreq & res & Hrun & Hsuc & ->)|[=]].
      split; [done|]. exists res. split; [done|]. split; [|done].
      by apply (run_overall_success _ _ _ _ _ _ _ _ Hrun).
    + intros [([=] & _)|(flags' & [= <-] & Hreq & res & Hrun & Hall & ->)].
      apply (run_overall_success _ _ _ _ _ _ _ _ Hrun) in Hall.
      revert Hreq. unfold main, required_flags, nonempty.
      destruct (String.eqb (flag_source flags) EmptyString),
        (String.eqb (flag_dest flags) EmptyString),
        (String.eqb (flag_source_db flags) EmptyString),
        (String.eqb (flag_dest_db flags) EmptyString); cbn [orb andb negb]; try done.
      intros _. by rewrite Hrun, Hall.
Qed.

Lemma main_exit_status_witness :
  let flags := Cases.flags "users" in
  required_flags flags = true /\
  (exists res w',
     runTransfer run_ok (Sample.one_by_one no_faults) (main_params flags)
       (flag_workers flags) Sample.fresh
     = Some ((res, None), w') /\
     (forall r, r ∈ CollectionResults res -> Success r = true) /\
     main (Parsed flags) run_ok (Sample.one_by_one no_faults) Sample.fresh
     = Some ((0, printSummary res), w')) /\
  main HelpRequested run_ok (Sample.one_by_one no_faults) Sample.fresh
  = Some ((0, EmptyString), Sample.fresh) /\
  main Malformed run_ok (Sample.one_by_one no_faults) Sample.fresh
  = Some ((2, EmptyString), Sample.fresh).
Proof.
  cbn zeta.
  assert (H1 : required_flags (Cases.flags "users") = true) by reflexivity.
  split; [exact H1|]. split.
  - destruct (runTransfer run_ok (Sample.one_by_one no_faults)
                (main_params (Cases.flags "users"))
                (flag_workers (Cases.flags "users")) Sample.fresh)
      as [[[res [err|]] w']|] eqn:Hrun;
      [vm_compute in Hrun; discriminate Hrun| |vm_compute in Hrun; discriminate Hrun].
    assert (H2 : forall r, r ∈ CollectionResults res -> Success r = true).
    { intros r Hr. apply list_elem_of_In in Hr.
      vm_compute in Hrun. injection Hrun as <- _.
      cbn in Hr. destruct Hr as [<-|[]]. reflexivity. }
    exists res, w'. split; [reflexivity|]. split; [exact H2|].
    apply (proj2 (proj1 (main_exit_status (Parsed (Cases.flags "users")) run_ok
                           (Sample.one_by_one no_faults) Sample.fresh
                           (printSummary res) w'))).
    right. exists (Cases.flags "users"). split; [reflexivity|]. split; [exact H1|].
    exists res. split; [exact Hrun|]. split; [exact H2|reflexivity].
  - split.
    + apply (proj2 (proj1 (main_exit_status HelpRequested run_ok
                             (Sample.one_by_one no_faults) Sample.fresh
                             EmptyString Sample.fresh))).
      left. split; [reflexivity|]. split; reflexivity.
    + apply (proj2 (main_exit_status Malformed run_ok
                      (Sample.one_by_one no_faults) Sample.fresh
                      EmptyString Sample.fresh)).
      reflexivity.
Defined.

(** X22: a [--collections] value made of commas, spaces and tabs only
    selects nothing, and the tool then transfers every collection of the
    source, as it does when the flag is absent. *)
Theorem blank_collections_flag flags collections renv sched w :
  string_forallb is_special collections = true ->
  main (Parsed (with_collections collections flags)) renv sched w
  = main (Parsed (with_collections EmptyString flags)) renv sched w.
Proof.
  intros Hblank.
  assert (Hparams : main_params (with_collections collections flags)
                    = main_params (with_collections EmptyString flags)).
  { unfold main_params, with_collections. cbn.
    destruct (String.eqb collections EmptyString); [done|]. cbn.
    rewrite parse_pieces. by rewrite (proj2 (pieces_none collections [] EmptyString)). }
  unfold main. by rewrite Hparams.
Qed.

Lemma blank_collections_flag_witness :
  string_forallb is_special " , " = true /\
  main (Parsed (with_collections " , " (Cases.flags "users"))) run_ok
    (Sample.one_by_one no_faults) Sample.fresh
  = main (Parsed (with_collections EmptyString (Cases.flags "users"))) run_ok
      (Sample.one_by_one no_faults) Sample.fresh.
Proof.
  assert (H1 : string_forallb is_special " , " = true) by reflexivity.
  split; [exact H1|].
  exact (blank_collections_flag (Cases.flags "users") " , " run_ok
           (Sample.one_by_one no_faults) Sample.fresh H1).
Defined.

Lemma summary_loop_spec results : forall successCount out,
  0 <= successCount ->
  successCount + GoInt.len results <= GoInt.max_int ->
  summary_loop results successCount out
  = (successCount + GoInt.len (List.filter Success results),
     out +:+ String.concat EmptyString (outcome_line <$> results)).
Proof.
  unfold GoInt.len.
  induction results as [|r rs IH]; intros successCount out Hpos Hmax;
    cbn [summary_loop List.filter].
  { cbn. by rewrite Z.add_0_r, string_app_empty_r. }
  assert (Hline : forall rest, String.concat EmptyString (outcome_line r :: rest)
                   = outcome_line r +:+ String.concat EmptyString rest).
  { intros [|l rest]; cbn [String.concat]; [by rewrite string_app_empty_r|done]. }
  rewrite fmap_cons, Hline. clear Hline. cbn [length] in Hmax.
  unfold GoInt.max_int in *.
  destruct (Success r) eqn:Hs; cbn [negb length].
  - rewrite add_in_range by (unfold GoInt.in_range, GoInt.min_int, GoInt.max_int; lia).
    rewrite IH by lia. f_equal; [lia|].
    unfold outcome_line. rewrite Hs. by rewrite !string_app_assoc.
  - rewrite IH by lia. f_equal.
    unfold outcome_line. rewrite Hs. by rewrite !string_app_assoc.
Qed.

(** X23: the summary has one line for every outcome, in the order of the
    outcomes, with the document count of the outcome whether it succeeded or
    not, and its last line counts the outcomes that succeeded. *)
Theorem summary_text result :
  let results := CollectionResults result in
  GoInt.len results <= GoInt.max_int ->
  printSummary result
  = newline +:+ "=== MongoDB Transfer Summary ===" +:+ newline
    +:+ "Total documents transferred: " +:+ format_int (TotalDocuments result) +:+ newline
    +:+ "Success: " +:+ format_bool (OverallSuccess result) +:+ newline
    +:+ newline +:+ "Collection details:" +:+ newline
    +:+ String.concat EmptyString (outcome_line <$> results)
    +:+ newline +:+ "Successfully transferred "
    +:+ format_int (GoInt.len (List.filter Success results))
    +:+ " out of " +:+ format_int (GoInt.len results) +:+ " collections" +:+ newline.
Proof.
  cbn zeta. intros Hmax. unfold printSummary.
  rewrite summary_loop_spec by (first [done|lia]).
  rewrite Z.add_0_l. by rewrite !string_app_assoc.
Qed.

Lemma summary_text_witness :
  GoInt.len (CollectionResults Cases.mixed_result) <= GoInt.max_int /\
  printSummary Cases.mixed_result
  = newline +:+ "=== MongoDB Transfer Summary ===" +:+ newline
    +:+ "Total documents transferred: 150" +:+ newline
    +:+ "Success: false" +:+ newline
    +:+ newline +:+ "Collection details:" +:+ newline
    +:+ "  - users: 150 documents, ✓ Success" +:+ newline
    +:+ "  - orders: 0 documents, ✗ Failed: Failed to transfer collection: failed to count documents: timeout"
    +:+ newline
    +:+ newline +:+ "Successfully transferred 1 out of 2 collections" +:+ newline.
Proof.
  assert (H1 : GoInt.len (CollectionResults Cases.mixed_result) <= GoInt.max_int)
    by (vm_compute; discriminate).
  split; [exact H1|].
  rewrite (summary_text Cases.mixed_result H1). vm_compute. reflexivity.
Defined.
